(** * Cortex: fact consistency and tiering engine

    A shallow embedding of the TypeScript sources of the repository
    (decay engine, consolidation engine, conflict resolver, extraction
    validation, query cache, in-memory fact store and tiered store),
    followed by the properties stated about them.

    Conventions of the embedding.
    - A JavaScript [number] that is a timestamp or a duration in
      milliseconds, a size or a counter is a [Z]; a [number] that is a
      confidence, an importance, a threshold, a duration in hours or
      days, or a computed weight is a rational [Q].  Arithmetic is
      exact: the rounding of IEEE doubles is not modelled.  Results of
      divisions, which may leave the finite numbers in JavaScript, live
      in [JsNum.num], which adds the two infinities and NaN.
    - A string is a [string] holding the UTF-8 encoding of the
      JavaScript string (a lone surrogate as its three bytes).  White
      space, for [trim] and the class [\s] of regular expressions, and
      [toUpperCase] are those of Unicode; [toLowerCase], which only the
      query cache uses, is modelled on the ASCII letters.
    - [Date.now()], [new Date()] and [uuidv4()] are inputs: pure
      functions take the clock reading as an argument, stateful code
      reads a clock and an identifier source kept in the state.
    - [async] functions are run to completion one after the other; a
      rejected promise or a thrown exception is the [Err] result of the
      state-and-error monad [M], which keeps the state reached when the
      exception was thrown. *)

From Stdlib Require Import ZArith QArith Qround Lqa Bool List String Ascii Lia.
From Stdlib Require Import Permutation Sorted DecimalString.
From stdpp Require Import gmap strings list.
Import ListNotations.

Local Open Scope string_scope.
Local Open Scope list_scope.
Local Open Scope Z_scope.

(* ===================================================================== *)
(** * Part I: the embedding                                               *)
(* ===================================================================== *)

(** ** JavaScript numbers (exact rationals, infinities and NaN) *)

Module JsNum.

Inductive num : Type :=
| Fin (q : Q)
| PInf
| NInf
| NaN.

(** [a / b] on finite operands; a zero divisor gives an infinity of the
    sign of [a], or NaN for [0 / 0] (zero is taken as unsigned). *)
Definition div (a b : Q) : num :=
  if Qeq_bool b 0 then
    if Qeq_bool a 0 then NaN
    else if Qle_bool 0 a then PInf else NInf
  else Fin (a / b).

Definition sub (a b : num) : num :=
  match a, b with
  | NaN, _ | _, NaN => NaN
  | Fin x, Fin y => Fin (x - y)
  | Fin _, PInf => NInf
  | Fin _, NInf => PInf
  | PInf, PInf => NaN
  | PInf, _ => PInf
  | NInf, NInf => NaN
  | NInf, _ => NInf
  end.

Definition add (a b : num) : num :=
  match a, b with
  | NaN, _ | _, NaN => NaN
  | Fin x, Fin y => Fin (x + y)
  | Fin _, PInf => PInf
  | Fin _, NInf => NInf
  | PInf, NInf => NaN
  | PInf, _ => PInf
  | NInf, PInf => NaN
  | NInf, _ => NInf
  end.

(** [a <= b]; every comparison with NaN is false. *)
Definition leb (a b : num) : bool :=
  match a, b with
  | NaN, _ | _, NaN => false
  | NInf, _ => true
  | _, PInf => true
  | Fin x, Fin y => Qle_bool x y
  | _, _ => false
  end.

(** [Math.max(a, b)] and [Math.min(a, b)]: NaN if either argument is. *)
Definition max (a b : num) : num :=
  match a, b with
  | NaN, _ | _, NaN => NaN
  | _, _ => if leb a b then b else a
  end.

Definition min (a b : num) : num :=
  match a, b with
  | NaN, _ | _, NaN => NaN
  | _, _ => if leb a b then a else b
  end.

End JsNum.

(** ** JavaScript strings *)

Module JsString.

(** *** Text as UTF-8 *)

(** The UTF-8 encoding of a code point. *)
Definition utf8 (c : N) : string :=
  let b (n : N) := String (ascii_of_N n) in
  (if c <? 0x80 then b c ""
   else if c <? 0x800 then b (0xC0 + c / 0x40) (b (0x80 + c mod 0x40) "")
   else if c <? 0x10000 then
     b (0xE0 + c / 0x1000) (b (0x80 + (c / 0x40) mod 0x40) (b (0x80 + c mod 0x40) ""))
   else
     b (0xF0 + c / 0x40000)
       (b (0x80 + (c / 0x1000) mod 0x40)
          (b (0x80 + (c / 0x40) mod 0x40) (b (0x80 + c mod 0x40) ""))))%N.

(** A continuation byte of UTF-8 (10xxxxxx). *)
Definition is_cont (b : ascii) : bool :=
  let n := N_of_ascii b in ((0x80 <=? n) && (n <? 0xC0))%N.

Fixpoint all_cont (s : string) : bool :=
  match s with
  | EmptyString => true
  | String b r => is_cont b && all_cont r
  end.

(** *** ASCII letters *)

Definition is_lower (c : ascii) : bool :=
  let n := N_of_ascii c in ((97 <=? n) && (n <=? 122))%N.

Definition is_upper (c : ascii) : bool :=
  let n := N_of_ascii c in ((65 <=? n) && (n <=? 90))%N.

Definition lower_char (c : ascii) : ascii :=
  if is_upper c then ascii_of_N (N_of_ascii c + 32) else c.

Fixpoint map_chars (f : ascii -> ascii) (s : string) : string :=
  match s with
  | EmptyString => EmptyString
  | String c r => String (f c) (map_chars f r)
  end.

(** [toLowerCase], on the ASCII letters only (the query cache is its
    only user). *)
Definition toLowerCase (s : string) : string := map_chars lower_char s.

(** *** White space *)

(** The code points that [trim] strips and that the class [\s] of
    regular expressions matches: the WhiteSpace and LineTerminator
    productions of ECMAScript (tab, line feed, vertical tab, form feed,
    carriage return, space, no-break space, the Unicode space
    separators, line and paragraph separator, and U+FEFF). *)
Definition whiteSpacePoints : list N :=
  [0x9; 0xA; 0xB; 0xC; 0xD; 0x20; 0xA0; 0x1680; 0x2000; 0x2001; 0x2002;
   0x2003; 0x2004; 0x2005; 0x2006; 0x2007; 0x2008; 0x2009; 0x200A;
   0x2028; 0x2029; 0x202F; 0x205F; 0x3000; 0xFEFF]%N.

Definition whiteSpace : list string := Eval vm_compute in map utf8 whiteSpacePoints.

(** The number of bytes of the white-space character at the head of the
    string, 0 when it does not start with one. *)
Definition space_width (s : string) : nat :=
  match List.find (fun w => String.prefix w s) whiteSpace with
  | Some w => String.length w
  | None => 0
  end.

(** The string without the white space it starts with; [skip] bytes of
    a character already recognised are passed over first. *)
Fixpoint trimStart_from (skip : nat) (s : string) : string :=
  match s with
  | EmptyString => EmptyString
  | String _ r =>
      match skip with
      | S k => trimStart_from k r
      | O =>
          match space_width s with
          | S k => trimStart_from k r
          | O => s
          end
      end
  end.

Definition trimStart (s : string) : string := trimStart_from 0 s.

(** Is the string made of white space only? *)
Definition all_space (s : string) : bool := String.eqb (trimStart s) "".

Fixpoint trimEnd (s : string) : string :=
  match s with
  | EmptyString => EmptyString
  | String c r => if all_space s then EmptyString else String c (trimEnd r)
  end.

Definition trim (s : string) : string := trimEnd (trimStart s).

(** [xs.includes(x)] on an array of strings. *)
Definition includes (xs : list string) (x : string) : bool :=
  existsb (String.eqb x) xs.

(** [s.includes(t)] on strings: [t] occurs in [s]. *)
Fixpoint str_includes (s t : string) : bool :=
  String.prefix t s ||
  match s with
  | EmptyString => false
  | String _ r => str_includes r t
  end.

(** [s.split(/\s+/)]: the pieces between maximal runs of white space; a
    leading or trailing run leaves an empty first or last piece. *)
Fixpoint split_ws_from (skip : nat) (s : string) (cur : string) (in_gap : bool)
  : list string :=
  match s with
  | EmptyString => [cur]
  | String c r =>
      match skip with
      | S k => split_ws_from k r cur in_gap
      | O =>
          match space_width s with
          | S k =>
              if in_gap then split_ws_from k r cur true
              else cur :: split_ws_from k r EmptyString true
          | O => split_ws_from 0 r (cur ++ String c EmptyString)%string false
          end
      end
  end.

Definition split_ws (s : string) : list string := split_ws_from 0 s EmptyString false.

(** [s.replace(/\s+/g, "_")]: every maximal run of white space becomes
    one underscore. *)
Fixpoint replace_ws_from (skip : nat) (s : string) (in_gap : bool) : string :=
  match s with
  | EmptyString => EmptyString
  | String c r =>
      match skip with
      | S k => replace_ws_from k r in_gap
      | O =>
          match space_width s with
          | S k =>
              if in_gap then replace_ws_from k r true
              else String "_"%char (replace_ws_from k r true)
          | O => String c (replace_ws_from 0 r false)
          end
      end
  end.

Definition replace_ws (s : string) (in_gap : bool) : string := replace_ws_from 0 s in_gap.

(** *** Upper case *)

(** A run of code points that map alike: [first], [first + step], ...
    ([count] of them) map to themselves plus [delta]. *)
Definition run (first : N) (count : nat) (step : N) (delta : Z) : N * nat * N * Z :=
  (first, count, step, delta).

(** The code points whose upper case is one other code point
    (UnicodeData.txt of the Unicode Character Database, version 14). *)
Definition upperRuns : list (N * nat * N * Z) :=
  [
   run 0x61 26 1 (-32); run 0xB5 1 1 743; run 0xE0 23 1 (-32);
   run 0xF8 7 1 (-32); run 0xFF 1 1 121; run 0x101 24 2 (-1);
   run 0x131 1 1 (-232); run 0x133 3 2 (-1); run 0x13A 8 2 (-1);
   run 0x14B 23 2 (-1); run 0x17A 3 2 (-1); run 0x17F 1 1 (-300);
   run 0x180 1 1 195; run 0x183 2 2 (-1); run 0x188 1 1 (-1);
   run 0x18C 1 1 (-1); run 0x192 1 1 (-1); run 0x195 1 1 97;
   run 0x199 1 1 (-1); run 0x19A 1 1 163; run 0x19E 1 1 130;
   run 0x1A1 3 2 (-1); run 0x1A8 1 1 (-1); run 0x1AD 1 1 (-1);
   run 0x1B0 1 1 (-1); run 0x1B4 2 2 (-1); run 0x1B9 1 1 (-1);
   run 0x1BD 1 1 (-1); run 0x1BF 1 1 56; run 0x1C5 1 1 (-1);
   run 0x1C6 1 1 (-2); run 0x1C8 1 1 (-1); run 0x1C9 1 1 (-2);
   run 0x1CB 1 1 (-1); run 0x1CC 1 1 (-2); run 0x1CE 8 2 (-1);
   run 0x1DD 1 1 (-79); run 0x1DF 9 2 (-1); run 0x1F2 1 1 (-1);
   run 0x1F3 1 1 (-2); run 0x1F5 1 1 (-1); run 0x1F9 20 2 (-1);
   run 0x223 9 2 (-1); run 0x23C 1 1 (-1); run 0x23F 2 1 10815;
   run 0x242 1 1 (-1); run 0x247 5 2 (-1); run 0x250 1 1 10783;
   run 0x251 1 1 10780; run 0x252 1 1 10782; run 0x253 1 1 (-210);
   run 0x254 1 1 (-206); run 0x256 2 1 (-205); run 0x259 1 1 (-202);
   run 0x25B 1 1 (-203); run 0x25C 1 1 42319; run 0x260 1 1 (-205);
   run 0x261 1 1 42315; run 0x263 1 1 (-207); run 0x265 1 1 42280;
   run 0x266 1 1 42308; run 0x268 1 1 (-209); run 0x269 1 1 (-211);
   run 0x26A 1 1 42308; run 0x26B 1 1 10743; run 0x26C 1 1 42305;
   run 0x26F 1 1 (-211); run 0x271 1 1 10749; run 0x272 1 1 (-213);
   run 0x275 1 1 (-214); run 0x27D 1 1 10727; run 0x280 1 1 (-218);
   run 0x282 1 1 42307; run 0x283 1 1 (-218); run 0x287 1 1 42282;
   run 0x288 1 1 (-218); run 0x289 1 1 (-69); run 0x28A 2 1 (-217);
   run 0x28C 1 1 (-71); run 0x292 1 1 (-219); run 0x29D 1 1 42261;
   run 0x29E 1 1 42258; run 0x345 1 1 84; run 0x371 2 2 (-1);
   run 0x377 1 1 (-1); run 0x37B 3 1 130; run 0x3AC 1 1 (-38);
   run 0x3AD 3 1 (-37); run 0x3B1 17 1 (-32); run 0x3C2 1 1 (-31);
   run 0x3C3 9 1 (-32); run 0x3CC 1 1 (-64); run 0x3CD 2 1 (-63);
   run 0x3D0 1 1 (-62); run 0x3D1 1 1 (-57); run 0x3D5 1 1 (-47);
   run 0x3D6 1 1 (-54); run 0x3D7 1 1 (-8); run 0x3D9 12 2 (-1);
   run 0x3F0 1 1 (-86); run 0x3F1 1 1 (-80); run 0x3F2 1 1 7;
   run 0x3F3 1 1 (-116); run 0x3F5 1 1 (-96); run 0x3F8 1 1 (-1);
   run 0x3FB 1 1 (-1); run 0x430 32 1 (-32); run 0x450 16 1 (-80);
   run 0x461 17 2 (-1); run 0x48B 27 2 (-1); run 0x4C2 7 2 (-1);
   run 0x4CF 1 1 (-15); run 0x4D1 48 2 (-1); run 0x561 38 1 (-48);
   run 0x10D0 43 1 3008; run 0x10FD 3 1 3008; run 0x13F8 6 1 (-8);
   run 0x1C80 1 1 (-6254); run 0x1C81 1 1 (-6253); run 0x1C82 1 1 (-6244);
   run 0x1C83 2 1 (-6242); run 0x1C85 1 1 (-6243); run 0x1C86 1 1 (-6236);
   run 0x1C87 1 1 (-6181); run 0x1C88 1 1 35266; run 0x1D79 1 1 35332;
   run 0x1D7D 1 1 3814; run 0x1D8E 1 1 35384; run 0x1E01 75 2 (-1);
   run 0x1E9B 1 1 (-59); run 0x1EA1 48 2 (-1); run 0x1F00 8 1 8;
   run 0x1F10 6 1 8; run 0x1F20 8 1 8; run 0x1F30 8 1 8;
   run 0x1F40 6 1 8; run 0x1F51 4 2 8; run 0x1F60 8 1 8;
   run 0x1F70 2 1 74; run 0x1F72 4 1 86; run 0x1F76 2 1 100;
   run 0x1F78 2 1 128; run 0x1F7A 2 1 112; run 0x1F7C 2 1 126;
   run 0x1FB0 2 1 8; run 0x1FBE 1 1 (-7205); run 0x1FD0 2 1 8;
   run 0x1FE0 2 1 8; run 0x1FE5 1 1 7; run 0x214E 1 1 (-28);
   run 0x2170 16 1 (-16); run 0x2184 1 1 (-1); run 0x24D0 26 1 (-26);
   run 0x2C30 48 1 (-48); run 0x2C61 1 1 (-1); run 0x2C65 1 1 (-10795);
   run 0x2C66 1 1 (-10792); run 0x2C68 3 2 (-1); run 0x2C73 1 1 (-1);
   run 0x2C76 1 1 (-1); run 0x2C81 50 2 (-1); run 0x2CEC 2 2 (-1);
   run 0x2CF3 1 1 (-1); run 0x2D00 38 1 (-7264); run 0x2D27 1 1 (-7264);
   run 0x2D2D 1 1 (-7264); run 0xA641 23 2 (-1); run 0xA681 14 2 (-1);
   run 0xA723 7 2 (-1); run 0xA733 31 2 (-1); run 0xA77A 2 2 (-1);
   run 0xA77F 5 2 (-1); run 0xA78C 1 1 (-1); run 0xA791 2 2 (-1);
   run 0xA794 1 1 48; run 0xA797 10 2 (-1); run 0xA7B5 8 2 (-1);
   run 0xA7C8 2 2 (-1); run 0xA7D1 1 1 (-1); run 0xA7D7 2 2 (-1);
   run 0xA7F6 1 1 (-1); run 0xAB53 1 1 (-928); run 0xAB70 80 1 (-38864);
   run 0xFF41 26 1 (-32); run 0x10428 40 1 (-40); run 0x104D8 36 1 (-40);
   run 0x10597 11 1 (-39); run 0x105A3 15 1 (-39); run 0x105B3 7 1 (-39);
   run 0x105BB 2 1 (-39); run 0x10CC0 51 1 (-64); run 0x118C0 32 1 (-32);
   run 0x16E60 32 1 (-32); run 0x1E922 34 1 (-34)
  ].

(** The code points whose upper case is a sequence of code points (the
    unconditional mappings of SpecialCasing.txt). *)
Definition upperSpecial : list (N * list N) :=
  [
   (0xDF, [0x53; 0x53]); (0x149, [0x2BC; 0x4E]); (0x1F0, [0x4A; 0x30C]);
   (0x390, [0x399; 0x308; 0x301]); (0x3B0, [0x3A5; 0x308; 0x301]);
   (0x587, [0x535; 0x552]); (0x1E96, [0x48; 0x331]); (0x1E97, [0x54; 0x308]);
   (0x1E98, [0x57; 0x30A]); (0x1E99, [0x59; 0x30A]); (0x1E9A, [0x41; 0x2BE]);
   (0x1F50, [0x3A5; 0x313]); (0x1F52, [0x3A5; 0x313; 0x300]);
   (0x1F54, [0x3A5; 0x313; 0x301]); (0x1F56, [0x3A5; 0x313; 0x342]);
   (0x1F80, [0x1F08; 0x399]); (0x1F81, [0x1F09; 0x399]);
   (0x1F82, [0x1F0A; 0x399]); (0x1F83, [0x1F0B; 0x399]);
   (0x1F84, [0x1F0C; 0x399]); (0x1F85, [0x1F0D; 0x399]);
   (0x1F86, [0x1F0E; 0x399]); (0x1F87, [0x1F0F; 0x399]);
   (0x1F88, [0x1F08; 0x399]); (0x1F89, [0x1F09; 0x399]);
   (0x1F8A, [0x1F0A; 0x399]); (0x1F8B, [0x1F0B; 0x399]);
   (0x1F8C, [0x1F0C; 0x399]); (0x1F8D, [0x1F0D; 0x399]);
   (0x1F8E, [0x1F0E; 0x399]); (0x1F8F, [0x1F0F; 0x399]);
   (0x1F90, [0x1F28; 0x399]); (0x1F91, [0x1F29; 0x399]);
   (0x1F92, [0x1F2A; 0x399]); (0x1F93, [0x1F2B; 0x399]);
   (0x1F94, [0x1F2C; 0x399]); (0x1F95, [0x1F2D; 0x399]);
   (0x1F96, [0x1F2E; 0x399]); (0x1F97, [0x1F2F; 0x399]);
   (0x1F98, [0x1F28; 0x399]); (0x1F99, [0x1F29; 0x399]);
   (0x1F9A, [0x1F2A; 0x399]); (0x1F9B, [0x1F2B; 0x399]);
   (0x1F9C, [0x1F2C; 0x399]); (0x1F9D, [0x1F2D; 0x399]);
   (0x1F9E, [0x1F2E; 0x399]); (0x1F9F, [0x1F2F; 0x399]);
   (0x1FA0, [0x1F68; 0x399]); (0x1FA1, [0x1F69; 0x399]);
   (0x1FA2, [0x1F6A; 0x399]); (0x1FA3, [0x1F6B; 0x399]);
   (0x1FA4, [0x1F6C; 0x399]); (0x1FA5, [0x1F6D; 0x399]);
   (0x1FA6, [0x1F6E; 0x399]); (0x1FA7, [0x1F6F; 0x399]);
   (0x1FA8, [0x1F68; 0x399]); (0x1FA9, [0x1F69; 0x399]);
   (0x1FAA, [0x1F6A; 0x399]); (0x1FAB, [0x1F6B; 0x399]);
   (0x1FAC, [0x1F6C; 0x399]); (0x1FAD, [0x1F6D; 0x399]);
   (0x1FAE, [0x1F6E; 0x399]); (0x1FAF, [0x1F6F; 0x399]);
   (0x1FB2, [0x1FBA; 0x399]); (0x1FB3, [0x391; 0x399]);
   (0x1FB4, [0x386; 0x399]); (0x1FB6, [0x391; 0x342]);
   (0x1FB7, [0x391; 0x342; 0x399]); (0x1FBC, [0x391; 0x399]);
   (0x1FC2, [0x1FCA; 0x399]); (0x1FC3, [0x397; 0x399]);
   (0x1FC4, [0x389; 0x399]); (0x1FC6, [0x397; 0x342]);
   (0x1FC7, [0x397; 0x342; 0x399]); (0x1FCC, [0x397; 0x399]);
   (0x1FD2, [0x399; 0x308; 0x300]); (0x1FD3, [0x399; 0x308; 0x301]);
   (0x1FD6, [0x399; 0x342]); (0x1FD7, [0x399; 0x308; 0x342]);
   (0x1FE2, [0x3A5; 0x308; 0x300]); (0x1FE3, [0x3A5; 0x308; 0x301]);
   (0x1FE4, [0x3A1; 0x313]); (0x1FE6, [0x3A5; 0x342]);
   (0x1FE7, [0x3A5; 0x308; 0x342]); (0x1FF2, [0x1FFA; 0x399]);
   (0x1FF3, [0x3A9; 0x399]); (0x1FF4, [0x38F; 0x399]);
   (0x1FF6, [0x3A9; 0x342]); (0x1FF7, [0x3A9; 0x342; 0x399]);
   (0x1FFC, [0x3A9; 0x399]); (0xFB00, [0x46; 0x46]); (0xFB01, [0x46; 0x49]);
   (0xFB02, [0x46; 0x4C]); (0xFB03, [0x46; 0x46; 0x49]);
   (0xFB04, [0x46; 0x46; 0x4C]); (0xFB05, [0x53; 0x54]);
   (0xFB06, [0x53; 0x54]); (0xFB13, [0x544; 0x546]);
   (0xFB14, [0x544; 0x535]); (0xFB15, [0x544; 0x53B]);
   (0xFB16, [0x54E; 0x546]); (0xFB17, [0x544; 0x53D])
  ]%N.

Fixpoint expandRun (first : N) (count : nat) (step : N) (delta : Z) : list (N * list N) :=
  match count with
  | O => []
  | S n => (first, [Z.to_N (Z.of_N first + delta)]) :: expandRun (first + step) n step delta
  end.

(** The upper-case mappings, as UTF-8: character and replacement. *)
Definition upperTable : list (string * string) :=
  Eval vm_compute in
    map (fun e => (utf8 (fst e), String.concat "" (map utf8 (snd e))))
        (flat_map (fun r => match r with
                            | (first, count, step, delta) => expandRun first count step delta
                            end) upperRuns
         ++ upperSpecial).

(** The mapping that applies at the head of the string. *)
Definition upperAt (s : string) : option (string * string) :=
  List.find (fun e => String.prefix (fst e) s) upperTable.

(** [toUpperCase]: every character that has an upper case is replaced
    by it. *)
Fixpoint toUpperCase_from (skip : nat) (s : string) : string :=
  match s with
  | EmptyString => EmptyString
  | String c r =>
      match skip with
      | S k => toUpperCase_from k r
      | O =>
          match upperAt s with
          | Some (key, value) => (value ++ toUpperCase_from (String.length key - 1) r)%string
          | None => String c (toUpperCase_from 0 r)
          end
      end
  end.

Definition toUpperCase (s : string) : string := toUpperCase_from 0 s.

End JsString.

(** ** Facts and operations (types) *)

Inductive MemoryStage : Type := ShortTerm | Working | LongTerm.

(** [MemoryFact], with the fields of [FactWithDecay].  Optional
    properties are options; [confidence] and [importance] are read with
    a [??] default by the code and are options too.  Properties that no
    modelled function reads (sentiment, embedding, metadata, hierarchy
    links) are left out. *)
Record MemoryFact : Type := mkFact {
  id : string;
  subject : string;
  predicate : string;
  object : string;
  confidence : option Q;
  importance : option Q;
  source : string;
  createdAt : Z;
  updatedAt : Z;
  invalidatedAt : option Z;
  accessCount : option Z;
  lastAccessedAt : option Z;
  memoryStage : option MemoryStage;
  reinforcementCount : option Z;
  lastReinforcedAt : option Z
}.

(** ** Exceptions and state: the monad of the stateful code *)

Inductive Result (A : Type) : Type :=
| Ok (a : A)
| Err (e : string).
Arguments Ok {A} a.
Arguments Err {A} e.

(** A computation over a state [W] that returns or throws; the state
    reached is kept in both cases. *)
Definition M (W A : Type) : Type := W -> Result A * W.

Definition ret {W A} (a : A) : M W A := fun w => (Ok a, w).

Definition throw {W A} (e : string) : M W A := fun w => (Err e, w).

Definition bind {W A B} (m : M W A) (k : A -> M W B) : M W B :=
  fun w =>
    match m w with
    | (Ok a, w') => k a w'
    | (Err e, w') => (Err e, w')
    end.

(** [try { m } catch { h }] and [m.catch(h)]. *)
Definition try_catch {W A} (m : M W A) (h : string -> M W A) : M W A :=
  fun w =>
    match m w with
    | (Ok a, w') => (Ok a, w')
    | (Err e, w') => h e w'
    end.

(** [await Promise.all([m1, m2])] for two calls whose bodies run one
    after the other: both are started, so [m2] runs even when [m1]
    rejects; the result is rejected with the first rejection. *)
Definition all2 {W A B} (m1 : M W A) (m2 : M W B) : M W (A * B) :=
  fun w =>
    match m1 w with
    | (r1, w1) =>
        match m2 w1 with
        | (r2, w2) =>
            match r1, r2 with
            | Ok a, Ok b => (Ok (a, b), w2)
            | Err e, _ => (Err e, w2)
            | Ok _, Err e => (Err e, w2)
            end
        end
    end.

Declare Scope js_scope.
Delimit Scope js_scope with js.
Notation "x <- m ;; k" := (bind m (fun x => k))
  (at level 100, m at next level, right associativity) : js_scope.
Notation "m ;;; k" := (bind m (fun _ => k))
  (at level 100, right associativity) : js_scope.

(** [for (const x of xs) { await body(x) }] *)
Fixpoint forEach {W A} (xs : list A) (body : A -> M W unit) : M W unit :=
  match xs with
  | [] => ret tt
  | x :: r => bind (body x) (fun _ => forEach r body)
  end.

(** ** The storage interface (src/adapters/BaseAdapter.ts) *)

Inductive OrderBy : Type := ByCreatedAt | ByUpdatedAt | ByConfidence.
Inductive OrderDir : Type := Asc | Desc.

Record FactFilter : Type := mkFilter {
  f_subject : option string;
  f_predicate : option string;
  f_predicates : option (list string);
  f_validOnly : option bool;
  f_limit : option Z;
  f_orderBy : option OrderBy;
  f_orderDir : option OrderDir
}.

(** [{ validOnly: b }] *)
Definition validOnlyFilter (b : bool) : FactFilter :=
  mkFilter None None None (Some b) None None None.

(** The argument of [upsertFact].  Its static type leaves out [id],
    [createdAt] and [updatedAt]; a stored fact passed as argument carries
    them all the same, and object spread copies them. *)
Record FactInput : Type := mkInput {
  in_subject : string;
  in_predicate : string;
  in_object : string;
  in_confidence : option Q;
  in_importance : option Q;
  in_source : string;
  in_invalidatedAt : option Z;
  in_accessCount : option Z;
  in_lastAccessedAt : option Z;
  in_memoryStage : option MemoryStage;
  in_reinforcementCount : option Z;
  in_lastReinforcedAt : option Z;
  in_id : option string;
  in_createdAt : option Z;
  in_updatedAt : option Z
}.

(** A stored fact used as the argument of [upsertFact]. *)
Definition asInput (f : MemoryFact) : FactInput := {|
  in_subject := subject f;
  in_predicate := predicate f;
  in_object := object f;
  in_confidence := confidence f;
  in_importance := importance f;
  in_source := source f;
  in_invalidatedAt := invalidatedAt f;
  in_accessCount := accessCount f;
  in_lastAccessedAt := lastAccessedAt f;
  in_memoryStage := memoryStage f;
  in_reinforcementCount := reinforcementCount f;
  in_lastReinforcedAt := lastReinforcedAt f;
  in_id := Some (id f);
  in_createdAt := Some (createdAt f);
  in_updatedAt := Some (updatedAt f)
|}.

(** [Partial<MemoryFact>], the argument of [updateFact]: every property
    may be absent. *)
Record FactUpdates : Type := mkUpdates {
  u_subject : option string;
  u_predicate : option string;
  u_object : option string;
  u_confidence : option Q;
  u_importance : option Q;
  u_source : option string;
  u_createdAt : option Z;
  u_invalidatedAt : option (option Z);
  u_accessCount : option Z;
  u_lastAccessedAt : option Z;
  u_memoryStage : option MemoryStage;
  u_reinforcementCount : option Z;
  u_lastReinforcedAt : option Z
}.

(** The fact operations of [BaseAdapter], over a state [W].  (The
    conversation and session operations are not modelled.) *)
Module Adapter.

Record BaseAdapter (W : Type) : Type := {
  initialize : M W unit;
  getFacts : string -> option FactFilter -> M W (list MemoryFact);
  getFactById : string -> string -> M W (option MemoryFact);
  upsertFact : string -> FactInput -> M W MemoryFact;
  updateFact : string -> string -> FactUpdates -> M W MemoryFact;
  deleteFact : string -> string -> option string -> M W unit;
  hardDeleteFact : string -> string -> M W unit
}.
Arguments initialize {W} _.
Arguments getFacts {W} _ _ _.
Arguments getFactById {W} _ _ _.
Arguments upsertFact {W} _ _ _.
Arguments updateFact {W} _ _ _ _.
Arguments deleteFact {W} _ _ _ _.
Arguments hardDeleteFact {W} _ _ _.

End Adapter.

(** ** Operations proposed by the extraction step (src/types) *)

Inductive OpKind : Type := INSERT | UPDATE | DELETE.

Inductive Sentiment : Type := Positive | Negative | Neutral.

Module Op.

Record MemoryOperation : Type := mkOp {
  op : OpKind;
  subject : string;
  predicate : string;
  object : string;
  reason : option string;
  confidence : option Q;
  importance : option Q;
  sentiment : option Sentiment
}.

Definition isDelete (o : MemoryOperation) : bool :=
  match op o with DELETE => true | _ => false end.

End Op.

Record ExtractionResult : Type := mkExtraction {
  operations : list Op.MemoryOperation;
  reasoning : option string
}.

(** ** Conflict resolver (src/extraction/ConflictResolver.ts) *)

Module ConflictResolver.
Local Open Scope js_scope.

Inductive ConflictStrategy : Type := latest | keep_both | merge.

Inductive Resolution : Type :=
| ResReplace | ResKeepBoth | ResMerge | ResIgnore.

Record Conflict : Type := mkConflict {
  existingFact : MemoryFact;
  newOperation : Op.MemoryOperation;
  resolution : Resolution
}.

Record ConflictResolutionResult : Type := mkResolved {
  resolvedOperations : list Op.MemoryOperation;
  conflicts : list Conflict
}.

(** [existingFacts.find(f => f.subject === op.subject &&
    f.predicate === op.predicate)] *)
Definition findExisting (existingFacts : list MemoryFact) (o : Op.MemoryOperation)
  : option MemoryFact :=
  List.find (fun f => String.eqb (subject f) (Op.subject o)
                      && String.eqb (predicate f) (Op.predicate o))
            existingFacts.

(** The DELETE pushed for the existing fact; [why] is the text before
    the new value in its reason. *)
Definition deleteOf (existing : MemoryFact) (why : string) (o : Op.MemoryOperation)
  : Op.MemoryOperation :=
  Op.mkOp DELETE (subject existing) (predicate existing) (object existing)
          (Some (why ++ Op.object o)%string) None None None.

(** One iteration of the loop of [resolve] on the two arrays. *)
Definition resolveStep (strategy : ConflictStrategy) (existingFacts : list MemoryFact)
    (acc : ConflictResolutionResult) (o : Op.MemoryOperation)
  : ConflictResolutionResult :=
  if Op.isDelete o then
    mkResolved (resolvedOperations acc ++ [o]) (conflicts acc)
  else
    match findExisting existingFacts o with
    | None => mkResolved (resolvedOperations acc ++ [o]) (conflicts acc)
    | Some existing =>
        if String.eqb (object existing) (Op.object o) then acc
        else
          match strategy with
          | latest =>
              mkResolved
                (resolvedOperations acc
                   ++ [deleteOf existing "Replaced by new value: " o] ++ [o])
                (conflicts acc ++ [mkConflict existing o ResReplace])
          | keep_both =>
              mkResolved
                (resolvedOperations acc ++ [o])
                (conflicts acc ++ [mkConflict existing o ResKeepBoth])
          | merge =>
              mkResolved
                (resolvedOperations acc
                   ++ [deleteOf existing "Merged with new value: " o] ++ [o])
                (conflicts acc ++ [mkConflict existing o ResMerge])
          end
    end.

(** The loop of [resolve] once the existing facts are read. *)
Definition resolveWith (strategy : ConflictStrategy) (ops : list Op.MemoryOperation)
    (existingFacts : list MemoryFact) : ConflictResolutionResult :=
  fold_left (resolveStep strategy existingFacts) ops (mkResolved [] []).

(** [resolve(userId, operations, adapter)] *)
Definition resolve {W} (strategy : ConflictStrategy) (userId : string)
    (ops : list Op.MemoryOperation) (adapter : Adapter.BaseAdapter W)
  : M W ConflictResolutionResult :=
  existingFacts <- Adapter.getFacts adapter userId (Some (validOnlyFilter true)) ;;
  ret (resolveWith strategy ops existingFacts).


End ConflictResolver.

(** ** Validation of the extraction output
      (validateExtractionResult, src/extraction/ConflictResolver.ts) *)

Module Validation.

(** A number produced by [JSON.parse]: finite, or an infinity for a
    literal beyond the range of doubles ([negative] gives its sign).
    [JSON.parse] never produces NaN. *)
Inductive jnumber : Type :=
| JFinite (q : Q)
| JOverflow (negative : bool).

(** The values produced by [JSON.parse]; an object is the list of its
    members in the order of the text. *)
#[local] Unset Elimination Schemes.
Inductive json : Type :=
| JNull
| JBool (b : bool)
| JNum (n : jnumber)
| JStr (s : string)
| JArr (items : list json)
| JObj (members : list (string * json)).
#[local] Set Elimination Schemes.

(** [o[k]] on a parsed object: the last member named [k] (a later
    duplicate overrides an earlier one), [None] for [undefined]. *)
Definition prop (members : list (string * json)) (k : string) : option json :=
  match List.find (fun m => String.eqb (fst m) k) (rev members) with
  | Some m => Some (snd m)
  | None => None
  end.

(** [Math.max(lo, Math.min(hi, x))] *)
Definition clamp (lo hi : Q) (x : jnumber) : Q :=
  match x with
  | JFinite q =>
      let m := if Qle_bool hi q then hi else q in
      if Qle_bool lo m then m else lo
  | JOverflow false => if Qle_bool lo hi then hi else lo
  | JOverflow true => lo
  end.

Definition parseKind (s : string) : option OpKind :=
  if String.eqb s "INSERT" then Some INSERT
  else if String.eqb s "UPDATE" then Some UPDATE
  else if String.eqb s "DELETE" then Some DELETE
  else None.

Definition parseSentiment (s : string) : option Sentiment :=
  if String.eqb s "positive" then Some Positive
  else if String.eqb s "negative" then Some Negative
  else if String.eqb s "neutral" then Some Neutral
  else None.

(** [typeof v === "string" && v.trim()]: the string, when it is one and
    its trimmed form is not empty. *)
Definition nonBlankString (v : option json) : option string :=
  match v with
  | Some (JStr s) => if String.eqb (JsString.trim s) "" then None else Some s
  | _ => None
  end.

(** [p.trim().toUpperCase().replace(/\s+/g, "_")] *)
Definition normalizePredicate (p : string) : string :=
  JsString.replace_ws (JsString.toUpperCase (JsString.trim p)) false.

(** The body of the loop for one element: the operation pushed, or
    [None] when the element is skipped by a [continue]. *)
Definition validateOperation (element : json) : option Op.MemoryOperation :=
  match element with
  | JObj operation =>
      match prop operation "op" with
      | Some (JStr k) =>
          match parseKind k with
          | Some kind =>
              match nonBlankString (prop operation "subject"),
                    nonBlankString (prop operation "predicate"),
                    nonBlankString (prop operation "object") with
              | Some sub, Some pred, Some obj =>
                  Some (Op.mkOp kind
                          (JsString.trim sub)
                          (normalizePredicate pred)
                          (JsString.trim obj)
                          (match prop operation "reason" with
                           | Some (JStr r) => Some r
                           | _ => None
                           end)
                          (match prop operation "confidence" with
                           | Some (JNum c) => Some (clamp 0 1 c)
                           | _ => Some (8 # 10)%Q
                           end)
                          (match prop operation "importance" with
                           | Some (JNum i) => Some (clamp 1 10 i)
                           | _ => Some 5%Q
                           end)
                          (match prop operation "sentiment" with
                           | Some (JStr t) => parseSentiment t
                           | _ => None
                           end))
              | _, _, _ => None
              end
          | None => None
          end
      | _ => None
      end
  | _ => None
  end.

(** The loop over [result.operations], pushing onto [validOperations]. *)
Fixpoint validateLoop (elements : list json) (validOperations : list Op.MemoryOperation)
  : list Op.MemoryOperation :=
  match elements with
  | [] => validOperations
  | element :: rest =>
      match validateOperation element with
      | Some o => validateLoop rest (validOperations ++ [o])
      | None => validateLoop rest validOperations
      end
  end.

Definition validateExtractionResult (raw : json) : ExtractionResult :=
  match raw with
  | JNull | JBool _ | JNum _ | JStr _ =>
      mkExtraction [] (Some "Invalid extraction result")
  | JArr _ => mkExtraction [] (Some "No operations found")
  | JObj result =>
      match prop result "operations" with
      | Some (JArr elements) =>
          mkExtraction (validateLoop elements [])
                       (match prop result "reasoning" with
                        | Some (JStr r) => Some r
                        | _ => None
                        end)
      | _ => mkExtraction [] (Some "No operations found")
      end
  end.

End Validation.

(** ** Extraction worker (src/extraction/ExtractorWorker.ts) *)

Module ExtractorWorker.
Local Open Scope js_scope.

Definition safetyPredicates : list string :=
  ["HAS_ALLERGY"; "ALLERGY"; "ALLERGIC_TO"; "MEDICAL_CONDITION"; "MEDICAL";
   "DISABILITY"; "DO_NOT"; "NEVER"; "BOUNDARY"; "EMERGENCY_CONTACT"; "BLOOD_TYPE"].

Definition getEffectiveImportance (o : Op.MemoryOperation) : Q :=
  let providedImportance := default 5%Q (Op.importance o) in
  let upperPredicate := JsString.toUpperCase (Op.predicate o) in
  let isSafetyCritical :=
    existsb (fun sp => JsString.str_includes upperPredicate sp) safetyPredicates in
  if isSafetyCritical && negb (Qle_bool 9 providedImportance) then 9%Q
  else providedImportance.

Section Worker.
Context {W : Type}.
(** The adapter, the provider's [complete] (from the user prompt to the
    content of the completion), the prompt builder and [JSON.parse]. *)
Variable adapter : Adapter.BaseAdapter W.
Variable complete : string -> M W string.
Variable buildExtractionPrompt :
  list (string * string * string) -> string -> string -> string.
Variable JSON_parse : string -> option Validation.json.
Variable conflictStrategy : ConflictResolver.ConflictStrategy.
Variable minConfidence : Q.

(** The body of the loop of [applyOperations] for one operation, inside
    its [try]; the fact written by an INSERT or UPDATE is returned. *)
Definition applyOperation (userId sessionId : string) (o : Op.MemoryOperation)
  : M W (option MemoryFact) :=
  if Op.isDelete o then
    facts <- Adapter.getFacts adapter userId
               (Some (mkFilter (Some (Op.subject o)) (Some (Op.predicate o))
                               None (Some true) None None None)) ;;
    match List.find (fun f => String.eqb (object f) (Op.object o)) facts with
    | Some matchingFact =>
        Adapter.deleteFact adapter userId (id matchingFact) (Op.reason o) ;;; ret None
    | None => ret None
    end
  else
    let importance := getEffectiveImportance o in
    fact <- Adapter.upsertFact adapter userId
              (mkInput (Op.subject o) (Op.predicate o) (Op.object o)
                       (Some (default (8 # 10)%Q (Op.confidence o)))
                       (Some importance)
                       sessionId None None None (Some ShortTerm) None None
                       None None None) ;;
    ret (Some fact).

Fixpoint applyLoop (userId sessionId : string) (ops : list Op.MemoryOperation)
    (appliedFacts : list MemoryFact) : M W (list MemoryFact) :=
  match ops with
  | [] => ret appliedFacts
  | o :: rest =>
      written <- try_catch (applyOperation userId sessionId o) (fun _ => ret None) ;;
      applyLoop userId sessionId rest
        (match written with
         | Some fact => appliedFacts ++ [fact]
         | None => appliedFacts
         end)
  end.

Definition applyOperations (userId sessionId : string) (ops : list Op.MemoryOperation)
  : M W (list MemoryFact) :=
  applyLoop userId sessionId ops [].

(** [processTask(task)] *)
Definition processTask (userId sessionId userMessage assistantResponse : string)
  : M W ExtractionResult :=
  currentFacts <- Adapter.getFacts adapter userId
                    (Some (mkFilter None None None (Some true) (Some 50) None None)) ;;
  let factsForPrompt :=
    map (fun f => (subject f, predicate f, object f)) currentFacts in
  let userPrompt := buildExtractionPrompt factsForPrompt userMessage assistantResponse in
  content <- complete userPrompt ;;
  match JSON_parse content with
  | None => ret (mkExtraction [] None)
  | Some rawResult =>
      let extractionResult := Validation.validateExtractionResult rawResult in
      let confidentOperations :=
        List.filter (fun o => Qle_bool minConfidence (default (8 # 10)%Q (Op.confidence o)))
                    (operations extractionResult) in
      match confidentOperations with
      | [] => ret (mkExtraction [] (reasoning extractionResult))
      | _ :: _ =>
          resolved <- ConflictResolver.resolve conflictStrategy userId
                        confidentOperations adapter ;;
          applyOperations userId sessionId
            (ConflictResolver.resolvedOperations resolved) ;;;
          ret (mkExtraction (ConflictResolver.resolvedOperations resolved)
                            (reasoning extractionResult))
      end
  end.

End Worker.

End ExtractorWorker.

(** ** JavaScript arrays *)

Module JsArray.

(** [xs.sort(cmp)], a stable sort; [gt a b] is [cmp(a, b) > 0].  An
    element is moved behind those that compare greater only.  When the
    comparator is not a consistent ordering (in [getFacts], facts
    without a confidence compare equal to every fact) ECMAScript
    leaves the order to the implementation: of such a sort only that it
    permutes the array is used below. *)
Fixpoint insertSorted {A} (gt : A -> A -> bool) (x : A) (sorted : list A) : list A :=
  match sorted with
  | [] => [x]
  | y :: r => if gt x y then y :: insertSorted gt x r else x :: y :: r
  end.

Fixpoint sortBy {A} (gt : A -> A -> bool) (xs : list A) : list A :=
  match xs with
  | [] => []
  | x :: r => insertSorted gt x (sortBy gt r)
  end.

(** [xs.slice(0, n)]: a negative [n] counts from the end. *)
Definition slice0 {A} (n : Z) (xs : list A) : list A :=
  if 0 <=? n then firstn (Z.to_nat n) xs
  else firstn (Z.to_nat (Z.of_nat (List.length xs) + n)) xs.

(** [new Set(xs)] as the list of its elements in insertion order. *)
Fixpoint dedup (xs : list string) (seen : list string) : list string :=
  match xs with
  | [] => []
  | x :: r =>
      if JsString.includes seen x then dedup r seen
      else x :: dedup r (x :: seen)
  end.

Definition newSet (xs : list string) : list string := dedup xs [].

End JsArray.

(** ** Query cache (src/retrieval/SemanticCache.ts) *)

Module SemanticCache.

Record HydratedContext : Type := mkContext {
  compiledPrompt : string;
  facts : list MemoryFact;
  estimatedTokens : Z;
  fromCache : bool
}.

Definition setFromCache (b : bool) (c : HydratedContext) : HydratedContext :=
  mkContext (compiledPrompt c) (facts c) (estimatedTokens c) b.

Record Config : Type := {
  maxSize : Z;
  ttlMs : Z;
  similarityThreshold : Q
}.

Record CacheEntry : Type := mkEntry {
  query : string;
  queryLower : string;
  context : HydratedContext;
  timestamp : Z;
  hits : Z
}.

Record Stats : Type := mkStats {
  stat_hits : Z;
  stat_misses : Z;
  stat_evictions : Z
}.

(** The object: the map from user to entries, and the counters. *)
Record Cache : Type := mkCache {
  cache : gmap string (list CacheEntry);
  stats : Stats
}.

Definition empty : Cache := mkCache ∅ (mkStats 0 0 0).

(** [a.split(/\s+/).filter(Boolean)] as a set. *)
Definition tokens (a : string) : list string :=
  JsArray.newSet
    (List.filter (fun t => negb (String.eqb t "")) (JsString.split_ws a)).

Definition calculateSimilarity (a b : string) : Q :=
  if String.eqb a b then 1%Q
  else
    let tokensA := tokens a in
    let tokensB := tokens b in
    if (Nat.eqb (List.length tokensA) 0 || Nat.eqb (List.length tokensB) 0)%bool then 0%Q
    else
      let intersection :=
        List.length (List.filter (fun token => JsString.includes tokensB token) tokensA) in
      let union := (List.length tokensA + List.length tokensB - intersection)%nat in
      (inject_Z (Z.of_nat intersection) / inject_Z (Z.of_nat union))%Q.

(** The loop of [get]: the index of the best entry so far and its
    score; [i] is the index of the head of [entries]. *)
Fixpoint bestMatch (cfg : Config) (now : Z) (queryLower' : string)
    (entries : list CacheEntry) (i : nat) (best : option nat) (bestScore : Q)
  : option nat :=
  match entries with
  | [] => best
  | entry :: rest =>
      if ttlMs cfg <? now - timestamp entry then
        bestMatch cfg now queryLower' rest (S i) best bestScore
      else
        let score := calculateSimilarity queryLower' (queryLower entry) in
        if Qle_bool (similarityThreshold cfg) score && negb (Qle_bool score bestScore)
        then bestMatch cfg now queryLower' rest (S i) (Some i) score
        else bestMatch cfg now queryLower' rest (S i) best bestScore
  end.

Definition countMiss (c : Cache) : Cache :=
  mkCache (cache c)
          (mkStats (stat_hits (stats c)) (stat_misses (stats c) + 1)
                   (stat_evictions (stats c))).

Definition bumpHits (e : CacheEntry) : CacheEntry :=
  mkEntry (query e) (queryLower e) (context e) (timestamp e) (hits e + 1).

(** [get(userId, query)] at clock reading [now]: the result and the
    cache after the call.  The entry found is updated in place. *)
Definition get (cfg : Config) (now : Z) (userId query' : string) (c : Cache)
  : option HydratedContext * Cache :=
  match cache c !! userId with
  | None | Some [] => (None, countMiss c)
  | Some entries =>
      let queryLower' := JsString.trim (JsString.toLowerCase query') in
      match bestMatch cfg now queryLower' entries 0 None 0 with
      | Some i =>
          match entries !! i with
          | Some entry =>
              (Some (setFromCache true (context entry)),
               mkCache (<[userId := <[i := bumpHits entry]> entries]> (cache c))
                       (mkStats (stat_hits (stats c) + 1) (stat_misses (stats c))
                                (stat_evictions (stats c))))
          | None => (None, countMiss c)
          end
      | None => (None, countMiss c)
      end
  end.

(** The comparator of the eviction sort: by hits, then by timestamp. *)
Definition evictAfter (a b : CacheEntry) : bool :=
  if negb (hits a =? hits b) then 0 <? hits a - hits b
  else 0 <? timestamp a - timestamp b.

(** [set(userId, query, context)] at clock reading [now]. *)
Definition set (cfg : Config) (now : Z) (userId query' : string)
    (ctx : HydratedContext) (c : Cache) : Cache :=
  let entries := default [] (cache c !! userId) in
  let validEntries := List.filter (fun e => now - timestamp e <=? ttlMs cfg) entries in
  let full := maxSize cfg <=? Z.of_nat (List.length validEntries) in
  let kept :=
    if full then List.tl (JsArray.sortBy evictAfter validEntries) else validEntries in
  let added :=
    (kept ++ [mkEntry query' (JsString.trim (JsString.toLowerCase query'))
                      (setFromCache false ctx) now 0])%list in
  mkCache (<[userId := added]> (cache c))
          (if full
           then mkStats (stat_hits (stats c)) (stat_misses (stats c))
                        (stat_evictions (stats c) + 1)
           else stats c).

Definition invalidate (userId : string) (c : Cache) : Cache :=
  mkCache (delete userId (cache c)) (stats c).

Definition clear (c : Cache) : Cache := mkCache ∅ (stats c).

End SemanticCache.

(** ** In-memory adapter (src/adapters/InMemoryAdapter.ts) *)

(** A JavaScript [Map] with string keys, as the list of its entries in
    insertion order. *)
Module JsMap.

Definition t (V : Type) : Type := list (string * V).

Definition get {V} (k : string) (m : t V) : option V :=
  match List.find (fun e => String.eqb (fst e) k) m with
  | Some e => Some (snd e)
  | None => None
  end.

Definition has {V} (k : string) (m : t V) : bool :=
  existsb (fun e => String.eqb (fst e) k) m.

(** [m.set(k, v)]: an existing key keeps its place. *)
Definition set {V} (k : string) (v : V) (m : t V) : t V :=
  if has k m
  then map (fun e => if String.eqb (fst e) k then (k, v) else e) m
  else (m ++ [(k, v)])%list.

Definition delete {V} (k : string) (m : t V) : t V :=
  List.filter (fun e => negb (String.eqb (fst e) k)) m.

Definition values {V} (m : t V) : list V := map snd m.

End JsMap.

Module InMemory.
Local Open Scope js_scope.

(** [UserData]; only the facts are modelled. *)
Record UserData : Type := mkUserData {
  facts : JsMap.t MemoryFact
}.

(** The adapter object. *)
Record Store : Type := mkStore {
  initialized : bool;
  users : gmap string UserData
}.

Definition newStore : Store := mkStore false ∅.

(** The state of a program that owns two in-memory adapters, with the
    sources of [new Date()] and [uuidv4()]: the [n]-th reading of the
    clock is [clock n], the [n]-th identifier drawn is [uuids n]. *)
Record World : Type := mkWorld {
  clock : nat -> Z;
  ticks : nat;
  uuids : nat -> string;
  draws : nat;
  hotStore : Store;
  coldStore : Store
}.

Inductive Tier : Type := Hot | Cold.

Definition store (t : Tier) (w : World) : Store :=
  match t with Hot => hotStore w | Cold => coldStore w end.

Definition setStore (t : Tier) (s : Store) (w : World) : World :=
  match t with
  | Hot => mkWorld (clock w) (ticks w) (uuids w) (draws w) s (coldStore w)
  | Cold => mkWorld (clock w) (ticks w) (uuids w) (draws w) (hotStore w) s
  end.

(** [new Date()] *)
Definition newDate : M World Z :=
  fun w => (Ok (clock w (ticks w)),
            mkWorld (clock w) (S (ticks w)) (uuids w) (draws w) (hotStore w) (coldStore w)).

Definition uuidv4 : M World string :=
  fun w => (Ok (uuids w (draws w)),
            mkWorld (clock w) (ticks w) (uuids w) (S (draws w)) (hotStore w) (coldStore w)).

Section Operations.
Variable tier : Tier.

Definition initialize : M World unit :=
  fun w => (Ok tt, setStore tier (mkStore true (users (store tier w))) w).

Definition ensureInitialized : M World unit :=
  fun w => if initialized (store tier w) then (Ok tt, w) else initialize w.

(** [getUserData(userId)]: an unknown user gets an empty record. *)
Definition getUserData (userId : string) : M World UserData :=
  fun w =>
    match users (store tier w) !! userId with
    | Some userData => (Ok userData, w)
    | None =>
        (Ok (mkUserData []),
         setStore tier
           (mkStore (initialized (store tier w))
                    (<[userId := mkUserData []]> (users (store tier w)))) w)
    end.

(** A write to [userData.facts] of a user already in [users]. *)
Definition setFacts (userId : string) (fs : JsMap.t MemoryFact) : M World unit :=
  fun w =>
    (Ok tt,
     setStore tier
       (mkStore (initialized (store tier w))
                (<[userId := mkUserData fs]> (users (store tier w)))) w).

(** The comparator of the sort of [getFacts], as "compares greater":
    dates and numbers are compared, anything else compares equal. *)
Definition orderedAfter (by' : OrderBy) (dir : option OrderDir) (a b : MemoryFact) : bool :=
  let desc := match dir with Some Desc => true | _ => false end in
  match by' with
  | ByCreatedAt =>
      if desc then 0 <? createdAt b - createdAt a else 0 <? createdAt a - createdAt b
  | ByUpdatedAt =>
      if desc then 0 <? updatedAt b - updatedAt a else 0 <? updatedAt a - updatedAt b
  | ByConfidence =>
      match confidence a, confidence b with
      | Some x, Some y =>
          if desc then negb (Qle_bool (y - x) 0) else negb (Qle_bool (x - y) 0)
      | _, _ => false
      end
  end.

Definition isValid (f : MemoryFact) : bool :=
  match invalidatedAt f with None => true | Some _ => false end.

Definition applyFilter (filter : option FactFilter) (all : list MemoryFact)
  : list MemoryFact :=
  match filter with
  | None => all
  | Some filter =>
      let facts1 :=
        match f_subject filter with
        | Some s => if String.eqb s "" then all
                    else List.filter (fun f => String.eqb (subject f) s) all
        | None => all
        end in
      let facts2 :=
        match f_predicate filter with
        | Some p => if String.eqb p "" then facts1
                    else List.filter (fun f => String.eqb (predicate f) p) facts1
        | None => facts1
        end in
      let facts3 :=
        match f_predicates filter with
        | Some (p :: ps) =>
            List.filter (fun f => JsString.includes (p :: ps) (predicate f)) facts2
        | _ => facts2
        end in
      let facts4 :=
        match f_validOnly filter with
        | Some false => facts3
        | _ => List.filter isValid facts3
        end in
      let facts5 :=
        match f_orderBy filter with
        | Some by' => JsArray.sortBy (orderedAfter by' (f_orderDir filter)) facts4
        | None => facts4
        end in
      match f_limit filter with
      | Some limit => if limit =? 0 then facts5 else JsArray.slice0 limit facts5
      | None => facts5
      end
  end.

Definition getFacts (userId : string) (filter : option FactFilter)
  : M World (list MemoryFact) :=
  ensureInitialized ;;;
  userData <- getUserData userId ;;
  ret (applyFilter filter (JsMap.values (facts userData))).

Definition getFactById (userId factId : string) : M World (option MemoryFact) :=
  ensureInitialized ;;;
  userData <- getUserData userId ;;
  ret (JsMap.get factId (facts userData)).

(** [{ ...existingFact, ...fact, updatedAt: now }]: a property of the
    argument overrides the stored one when the argument has it. *)
Definition spreadUpsert (existing : MemoryFact) (fact : FactInput) (now : Z) : MemoryFact := {|
  id := default (id existing) (in_id fact);
  subject := in_subject fact;
  predicate := in_predicate fact;
  object := in_object fact;
  confidence := from_option Some (confidence existing) (in_confidence fact);
  importance := from_option Some (importance existing) (in_importance fact);
  source := in_source fact;
  createdAt := default (createdAt existing) (in_createdAt fact);
  updatedAt := now;
  invalidatedAt := in_invalidatedAt fact;
  accessCount := from_option Some (accessCount existing) (in_accessCount fact);
  lastAccessedAt := from_option Some (lastAccessedAt existing) (in_lastAccessedAt fact);
  memoryStage := from_option Some (memoryStage existing) (in_memoryStage fact);
  reinforcementCount :=
    from_option Some (reinforcementCount existing) (in_reinforcementCount fact);
  lastReinforcedAt :=
    from_option Some (lastReinforcedAt existing) (in_lastReinforcedAt fact)
|}.

(** [{ ...fact, id: uuidv4(), createdAt: now, updatedAt: now }] *)
Definition freshFact (fact : FactInput) (newId : string) (now : Z) : MemoryFact := {|
  id := newId;
  subject := in_subject fact;
  predicate := in_predicate fact;
  object := in_object fact;
  confidence := in_confidence fact;
  importance := in_importance fact;
  source := in_source fact;
  createdAt := now;
  updatedAt := now;
  invalidatedAt := in_invalidatedAt fact;
  accessCount := in_accessCount fact;
  lastAccessedAt := in_lastAccessedAt fact;
  memoryStage := in_memoryStage fact;
  reinforcementCount := in_reinforcementCount fact;
  lastReinforcedAt := in_lastReinforcedAt fact
|}.

Definition upsertFact (userId : string) (fact : FactInput) : M World MemoryFact :=
  ensureInitialized ;;;
  userData <- getUserData userId ;;
  let existingFact :=
    List.find (fun f => String.eqb (subject f) (in_subject fact)
                        && String.eqb (predicate f) (in_predicate fact)
                        && isValid f)
              (JsMap.values (facts userData)) in
  now <- newDate ;;
  match existingFact with
  | Some existing =>
      let updated := spreadUpsert existing fact now in
      setFacts userId (JsMap.set (id existing) updated (facts userData)) ;;;
      ret updated
  | None =>
      newId <- uuidv4 ;;
      let newFact := freshFact fact newId now in
      setFacts userId (JsMap.set (id newFact) newFact (facts userData)) ;;;
      ret newFact
  end.

(** [{ ...fact, ...updates, id: fact.id, updatedAt: new Date() }] *)
Definition spreadUpdate (fact : MemoryFact) (updates : FactUpdates) (now : Z) : MemoryFact := {|
  id := id fact;
  subject := default (subject fact) (u_subject updates);
  predicate := default (predicate fact) (u_predicate updates);
  object := default (object fact) (u_object updates);
  confidence := from_option Some (confidence fact) (u_confidence updates);
  importance := from_option Some (importance fact) (u_importance updates);
  source := default (source fact) (u_source updates);
  createdAt := default (createdAt fact) (u_createdAt updates);
  updatedAt := now;
  invalidatedAt := default (invalidatedAt fact) (u_invalidatedAt updates);
  accessCount := from_option Some (accessCount fact) (u_accessCount updates);
  lastAccessedAt := from_option Some (lastAccessedAt fact) (u_lastAccessedAt updates);
  memoryStage := from_option Some (memoryStage fact) (u_memoryStage updates);
  reinforcementCount :=
    from_option Some (reinforcementCount fact) (u_reinforcementCount updates);
  lastReinforcedAt :=
    from_option Some (lastReinforcedAt fact) (u_lastReinforcedAt updates)
|}.

Definition updateFact (userId factId : string) (updates : FactUpdates)
  : M World MemoryFact :=
  ensureInitialized ;;;
  userData <- getUserData userId ;;
  match JsMap.get factId (facts userData) with
  | None => throw ("Fact not found: " ++ factId)%string
  | Some fact =>
      now <- newDate ;;
      let updated := spreadUpdate fact updates now in
      setFacts userId (JsMap.set factId updated (facts userData)) ;;;
      ret updated
  end.

Definition invalidate (f : MemoryFact) (now : Z) : MemoryFact :=
  mkFact (id f) (subject f) (predicate f) (object f) (confidence f) (importance f)
         (source f) (createdAt f) (updatedAt f) (Some now)
         (accessCount f) (lastAccessedAt f) (memoryStage f)
         (reinforcementCount f) (lastReinforcedAt f).

Definition deleteFact (userId factId : string) (_reason : option string) : M World unit :=
  ensureInitialized ;;;
  userData <- getUserData userId ;;
  match JsMap.get factId (facts userData) with
  | Some fact =>
      now <- newDate ;;
      setFacts userId (JsMap.set factId (invalidate fact now) (facts userData))
  | None => ret tt
  end.

Definition hardDeleteFact (userId factId : string) : M World unit :=
  ensureInitialized ;;;
  userData <- getUserData userId ;;
  setFacts userId (JsMap.delete factId (facts userData)).

(** The adapter as an instance of the interface. *)
Definition adapter : Adapter.BaseAdapter World := {|
  Adapter.initialize := initialize;
  Adapter.getFacts := getFacts;
  Adapter.getFactById := getFactById;
  Adapter.upsertFact := upsertFact;
  Adapter.updateFact := updateFact;
  Adapter.deleteFact := deleteFact;
  Adapter.hardDeleteFact := hardDeleteFact
|}.

End Operations.

End InMemory.

(** ** Tiered adapter (src/tiered) *)

Module Tiered.
Local Open Scope js_scope.

Record TieredAdapterConfig : Type := {
  cfg_hotFactLimit : option Z;
  cfg_hotConversationLimit : option Z;
  cfg_autoPromote : option bool;
  cfg_autoDemote : option bool
}.

Record Config : Type := {
  hotFactLimit : Z;
  hotConversationLimit : Z;
  autoPromote : bool;
  autoDemote : bool
}.

Definition constructor (c : TieredAdapterConfig) : Config := {|
  hotFactLimit := default 50 (cfg_hotFactLimit c);
  hotConversationLimit := default 20 (cfg_hotConversationLimit c);
  autoPromote := default true (cfg_autoPromote c);
  autoDemote := default true (cfg_autoDemote c)
|}.

(** The tiered adapter's own flag, next to the state of its two
    adapters. *)
Record State (W : Type) : Type := mkState {
  initialized : bool;
  world : W
}.
Arguments mkState {W} _ _.
Arguments initialized {W} _.
Arguments world {W} _.

(** A call to one of the two adapters. *)
Definition call {W A} (m : M W A) : M (State W) A :=
  fun s =>
    match m (world s) with
    | (r, w') => (r, mkState (initialized s) w')
    end.

(** The comparator of the demotion sort, as "compares greater":
    [a.updatedAt.getTime() - b.updatedAt.getTime() > 0]. *)
Definition updatedLater (a b : MemoryFact) : bool :=
  0 <? updatedAt a - updatedAt b.

Section Operations.
Context {W : Type}.
Variable hot cold : Adapter.BaseAdapter W.
Variable config : Config.

Definition initialize : M (State W) unit :=
  all2 (call (Adapter.initialize hot)) (call (Adapter.initialize cold)) ;;;
  (fun s => (Ok tt, mkState true (world s))).

Definition ensureInitialized : M (State W) unit :=
  fun s => if initialized s then (Ok tt, s) else initialize s.

(** [promise.catch(() => {})] and [try { await promise } catch {}] *)
Definition swallow {A} (m : M (State W) A) : M (State W) unit :=
  try_catch (m ;;; ret tt) (fun _ => ret tt).

Definition promoteFactsToHot (userId : string) (facts : list MemoryFact)
  : M (State W) unit :=
  forEach facts
    (fun fact => swallow (call (Adapter.upsertFact hot userId (asInput fact)))).

Definition getFacts (userId : string) (filter : option FactFilter)
  : M (State W) (list MemoryFact) :=
  ensureInitialized ;;;
  facts <- call (Adapter.getFacts hot userId filter) ;;
  match facts with
  | [] =>
      facts <- call (Adapter.getFacts cold userId filter) ;;
      (if autoPromote config && negb (Nat.eqb (List.length facts) 0)
       then promoteFactsToHot userId (JsArray.slice0 (hotFactLimit config) facts)
       else ret tt) ;;;
      ret facts
  | _ :: _ => ret facts
  end.

Definition getFactById (userId factId : string) : M (State W) (option MemoryFact) :=
  ensureInitialized ;;;
  fact <- call (Adapter.getFactById hot userId factId) ;;
  match fact with
  | Some _ => ret fact
  | None =>
      fact <- call (Adapter.getFactById cold userId factId) ;;
      match fact with
      | Some found =>
          (if autoPromote config
           then call (Adapter.upsertFact hot userId (asInput found)) ;;; ret tt
           else ret tt) ;;;
          ret fact
      | None => ret fact
      end
  end.

Definition demoteOldFacts (userId : string) : M (State W) unit :=
  hotFacts <- call (Adapter.getFacts hot userId (Some (validOnlyFilter true))) ;;
  if hotFactLimit config <? Z.of_nat (List.length hotFacts) then
    let sorted := JsArray.sortBy updatedLater hotFacts in
    let toRemove :=
      JsArray.slice0 (Z.of_nat (List.length hotFacts) - hotFactLimit config) sorted in
    forEach toRemove
      (fun fact => swallow (call (Adapter.hardDeleteFact hot userId (id fact))))
  else ret tt.

Definition upsertFact (userId : string) (fact : FactInput) : M (State W) MemoryFact :=
  ensureInitialized ;;;
  saved <- call (Adapter.upsertFact cold userId fact) ;;
  call (Adapter.upsertFact hot userId (asInput saved)) ;;;
  (if autoDemote config then demoteOldFacts userId else ret tt) ;;;
  ret saved.

Definition updateFact (userId factId : string) (updates : FactUpdates)
  : M (State W) MemoryFact :=
  ensureInitialized ;;;
  updated <- call (Adapter.updateFact cold userId factId updates) ;;
  swallow (call (Adapter.updateFact hot userId factId updates)) ;;;
  ret updated.

Definition deleteFact (userId factId : string) (reason : option string)
  : M (State W) unit :=
  ensureInitialized ;;;
  all2 (call (Adapter.deleteFact cold userId factId reason))
       (swallow (call (Adapter.deleteFact hot userId factId reason))) ;;;
  ret tt.

Definition hardDeleteFact (userId factId : string) : M (State W) unit :=
  ensureInitialized ;;;
  all2 (call (Adapter.hardDeleteFact cold userId factId))
       (swallow (call (Adapter.hardDeleteFact hot userId factId))) ;;;
  ret tt.

Definition promoteToHot (userId factId : string) : M (State W) unit :=
  fact <- call (Adapter.getFactById cold userId factId) ;;
  match fact with
  | Some found => call (Adapter.upsertFact hot userId (asInput found)) ;;; ret tt
  | None => ret tt
  end.

Definition demoteFromHot (userId factId : string) : M (State W) unit :=
  swallow (call (Adapter.hardDeleteFact hot userId factId)).

Definition warmCache (userId : string) : M (State W) unit :=
  facts <- call (Adapter.getFacts cold userId
                   (Some (mkFilter None None None (Some true)
                                   (Some (hotFactLimit config))
                                   (Some ByUpdatedAt) (Some Desc)))) ;;
  promoteFactsToHot userId facts.

(** The fact counts of [getStorageStats]: [(hotFacts, coldFacts)]. *)
Definition getStorageStats (userId : string) : M (State W) (nat * nat) :=
  both <- all2 (call (Adapter.getFacts hot userId (Some (validOnlyFilter false))))
               (call (Adapter.getFacts cold userId (Some (validOnlyFilter false)))) ;;
  ret (List.length (fst both), List.length (snd both)).

Definition adapter : Adapter.BaseAdapter (State W) := {|
  Adapter.initialize := initialize;
  Adapter.getFacts := getFacts;
  Adapter.getFactById := getFactById;
  Adapter.upsertFact := upsertFact;
  Adapter.updateFact := updateFact;
  Adapter.deleteFact := deleteFact;
  Adapter.hardDeleteFact := hardDeleteFact
|}.

End Operations.

End Tiered.

(** ** Decay engine (src/decay/index.ts) *)

Module Decay.
Import JsNum.

(** The user's [DecayConfig]: every property optional. *)
Record DecayConfig : Type := {
  cfg_enabled : option bool;
  cfg_defaultTtlDays : option Q;
  cfg_lowWeightTtlDays : option Q;
  cfg_permanentPredicates : option (list string);
  cfg_ephemeralPredicates : option (list string);
  cfg_ephemeralTtlHours : option Q;
  cfg_reinforcementThreshold : option Q
}.

(** [Required<DecayConfig>], the manager's resolved configuration;
    [defaultTtlDays] has type [number | null]. *)
Record Config : Type := {
  enabled : bool;
  defaultTtlDays : option Q;
  lowWeightTtlDays : Q;
  permanentPredicates : list string;
  ephemeralPredicates : list string;
  ephemeralTtlHours : Q;
  reinforcementThreshold : Q
}.

Definition DEFAULT_PERMANENT_PREDICATES : list string :=
  ["NAME"; "FULL_NAME"; "ALLERGY"; "MEDICAL_CONDITION"; "BIRTHDAY";
   "BIRTH_DATE"; "EMAIL"; "PHONE"; "ADDRESS"; "LANGUAGE"; "TIMEZONE"].

Definition DEFAULT_EPHEMERAL_PREDICATES : list string :=
  ["WEARING"; "CURRENT_MOOD"; "CURRENT_ACTIVITY"; "CURRENT_LOCATION";
   "CURRENTLY"; "RIGHT_NOW"; "TODAY"; "FEELING"].

(** The constructor: [x ?? d] for every property (a [null] default TTL
    is replaced by 90 as well). *)
Definition constructor (c : DecayConfig) : Config := {|
  enabled := default true (cfg_enabled c);
  defaultTtlDays := Some (default 90%Q (cfg_defaultTtlDays c));
  lowWeightTtlDays := default 7%Q (cfg_lowWeightTtlDays c);
  permanentPredicates :=
    DEFAULT_PERMANENT_PREDICATES ++ default [] (cfg_permanentPredicates c);
  ephemeralPredicates :=
    DEFAULT_EPHEMERAL_PREDICATES ++ default [] (cfg_ephemeralPredicates c);
  ephemeralTtlHours := default 24%Q (cfg_ephemeralTtlHours c);
  reinforcementThreshold := default 3%Q (cfg_reinforcementThreshold c)
|}.

Definition noConfig : DecayConfig :=
  Build_DecayConfig None None None None None None None.

Definition isPermanent (cfg : Config) (p : string) : bool :=
  JsString.includes (permanentPredicates cfg) (JsString.toUpperCase p).

Definition isEphemeral (cfg : Config) (p : string) : bool :=
  JsString.includes (ephemeralPredicates cfg) (JsString.toUpperCase p).

(** [fact.reinforcementCount ?? 0] *)
Definition reinforcements (fact : MemoryFact) : Q :=
  inject_Z (default 0 (reinforcementCount fact)).

(** [fact.lastReinforcedAt?.getTime() ?? createdAt] *)
Definition lastReinforced (fact : MemoryFact) : Z :=
  default (createdAt fact) (lastReinforcedAt fact).

(** The TTL in days of a regular fact, by confidence. *)
Definition ttlDays (cfg : Config) (fact : MemoryFact) : option Q :=
  if negb (Qle_bool (1 # 2) (default (8 # 10) (confidence fact)))
  then Some (lowWeightTtlDays cfg)
  else defaultTtlDays cfg.

(** [Math.max(0, 1 - ageMs / ttlMs)] *)
Definition linearWeight (ageMs : Z) (ttlMs : Q) : num :=
  max (Fin 0) (sub (Fin 1) (div (inject_Z ageMs) ttlMs)).

(** [calculateDecayWeight(fact)], with [now] the value of [Date.now()]. *)
Definition calculateDecayWeight (cfg : Config) (fact : MemoryFact) (now : Z) : num :=
  if negb (enabled cfg) then Fin 1
  else if isPermanent cfg (predicate fact) then Fin 1
  else if Qle_bool (reinforcementThreshold cfg) (reinforcements fact) then Fin 1
  else
    let ageMs := now - lastReinforced fact in
    if isEphemeral cfg (predicate fact) then
      linearWeight ageMs (ephemeralTtlHours cfg * 60 * 60 * 1000)
    else
      match ttlDays cfg fact with
      | None => Fin 1
      | Some days =>
          let weight := linearWeight ageMs (days * 24 * 60 * 60 * 1000) in
          let reinforcementBoost :=
            min (Fin (1 # 2)) (Fin (reinforcements fact * (1 # 10))) in
          min (Fin 1) (add weight reinforcementBoost)
      end.

(** The time value of [new Date(t)] for a finite [t]: the fraction is
    dropped (truncation towards zero). *)
Definition timeClip (t : Q) : Z :=
  if Qle_bool 0 t then Qfloor t else Qceiling t.

(** [calculateExpiryDate(fact)]: the time value of the date, or [None]
    for [null].  The product and the sum are exact here; the code
    rounds them in doubles, which gives the same number when the TTL is
    a whole number of hours or days. *)
Definition calculateExpiryDate (cfg : Config) (fact : MemoryFact) : option Z :=
  if negb (enabled cfg) then None
  else if isPermanent cfg (predicate fact) then None
  else if Qle_bool (reinforcementThreshold cfg) (reinforcements fact) then None
  else if isEphemeral cfg (predicate fact) then
    Some (timeClip (inject_Z (lastReinforced fact)
                    + ephemeralTtlHours cfg * 60 * 60 * 1000))
  else
    match ttlDays cfg fact with
    | None => None
    | Some days =>
        Some (timeClip (inject_Z (lastReinforced fact)
                        + days * 24 * 60 * 60 * 1000))
    end.

(** [shouldPrune(fact)].  The clock is read twice: [now] inside
    [calculateDecayWeight], then [now'] for the expiry test. *)
Definition shouldPrune (cfg : Config) (fact : MemoryFact) (now now' : Z) : bool :=
  if negb (enabled cfg) then false
  else if leb (calculateDecayWeight cfg fact now) (Fin 0) then true
  else
    match calculateExpiryDate cfg fact with
    | Some expiresAt => if expiresAt <? now' then true else false
    | None => false
    end.

Definition getFactsToPrune (cfg : Config) (facts : list MemoryFact) (now : Z)
  : list MemoryFact :=
  List.filter (fun fact => shouldPrune cfg fact now now) facts.

End Decay.

(** ** Consolidation engine (src/consolidation) *)

Module Consolidation.

Record Config : Type := {
  shortTermHours : Q;
  workingHours : Q;
  workingAccessThreshold : Q;
  longTermAccessThreshold : Q
}.

Definition defaultConfig : Config := {|
  shortTermHours := 1;
  workingHours := 24;
  workingAccessThreshold := 2;
  longTermAccessThreshold := 5
|}.

(** [ageMs / (1000 * 60 * 60)] *)
Definition ageHours (fact : MemoryFact) (now : Z) : Q :=
  inject_Z (now - createdAt fact) / inject_Z (1000 * 60 * 60).

(** [determineStage(fact)], with [now] the value of [Date.now()]. *)
Definition determineStage (cfg : Config) (fact : MemoryFact) (now : Z) : MemoryStage :=
  let ageHours := ageHours fact now in
  let accessCount := inject_Z (default 0 (accessCount fact)) in
  if Qle_bool (workingHours cfg) ageHours
     && Qle_bool (longTermAccessThreshold cfg) accessCount
  then LongTerm
  else if Qle_bool (shortTermHours cfg) ageHours
          || Qle_bool (workingAccessThreshold cfg) accessCount
  then Working
  else ShortTerm.

End Consolidation.

(** ** Decay engine: the predicate lists (src/decay/index.ts) *)

Module DecayManager.
Import Decay.

(** [addPermanentPredicate(predicate)]: the configuration after the
    call. *)
Definition addPermanentPredicate (cfg : Config) (p : string) : Config :=
  let upper := JsString.toUpperCase p in
  if JsString.includes (permanentPredicates cfg) upper then cfg
  else {|
    enabled := enabled cfg;
    defaultTtlDays := defaultTtlDays cfg;
    lowWeightTtlDays := lowWeightTtlDays cfg;
    permanentPredicates := permanentPredicates cfg ++ [upper];
    ephemeralPredicates := ephemeralPredicates cfg;
    ephemeralTtlHours := ephemeralTtlHours cfg;
    reinforcementThreshold := reinforcementThreshold cfg
  |}.

(** [addEphemeralPredicate(predicate)] *)
Definition addEphemeralPredicate (cfg : Config) (p : string) : Config :=
  let upper := JsString.toUpperCase p in
  if JsString.includes (ephemeralPredicates cfg) upper then cfg
  else {|
    enabled := enabled cfg;
    defaultTtlDays := defaultTtlDays cfg;
    lowWeightTtlDays := lowWeightTtlDays cfg;
    permanentPredicates := permanentPredicates cfg;
    ephemeralPredicates := ephemeralPredicates cfg ++ [upper];
    ephemeralTtlHours := ephemeralTtlHours cfg;
    reinforcementThreshold := reinforcementThreshold cfg
  |}.

End DecayManager.

(** ** Consolidation worker: the operations on the store
       (src/consolidation); the debug log is left out *)

Module ConsolidationWorker.
Import Consolidation.
Local Open Scope js_scope.

(** [stageOrder] *)
Definition stageOrder (s : MemoryStage) : Z :=
  match s with ShortTerm => 0 | Working => 1 | LongTerm => 2 end.

(** [a === b] on stages. *)
Definition stage_eqb (a b : MemoryStage) : bool :=
  match a, b with
  | ShortTerm, ShortTerm | Working, Working | LongTerm, LongTerm => true
  | _, _ => false
  end.

(** [{ promoted, demoted, unchanged }] *)
Record Counts : Type := mkCounts {
  promoted : Z;
  demoted : Z;
  unchanged : Z
}.

(** [{ memoryStage: s }] *)
Definition stageUpdate (s : MemoryStage) : FactUpdates :=
  mkUpdates None None None None None None None None None None (Some s) None None.

Section Worker.
Context {W : Type}.
(** The adapter and [Date.now()]. *)
Variable adapter : Adapter.BaseAdapter W.
Variable dateNow : M W Z.
Variable config : Config.

(** The loop of [consolidate] over the facts read. *)
Fixpoint consolidateLoop (userId : string) (facts : list MemoryFact) (counts : Counts)
  : M W Counts :=
  match facts with
  | [] => ret counts
  | fact :: rest =>
      let currentStage := default ShortTerm (memoryStage fact) in
      now <- dateNow ;;
      let targetStage := determineStage config fact now in
      if negb (stage_eqb currentStage targetStage) then
        Adapter.updateFact adapter userId (id fact) (stageUpdate targetStage) ;;;
        if stageOrder currentStage <? stageOrder targetStage
        then consolidateLoop userId rest
               (mkCounts (promoted counts + 1) (demoted counts) (unchanged counts))
        else consolidateLoop userId rest
               (mkCounts (promoted counts) (demoted counts + 1) (unchanged counts))
      else consolidateLoop userId rest
             (mkCounts (promoted counts) (demoted counts) (unchanged counts + 1))
  end.

Definition consolidate (userId : string) : M W Counts :=
  facts <- Adapter.getFacts adapter userId (Some (validOnlyFilter true)) ;;
  consolidateLoop userId facts (mkCounts 0 0 0).





End Worker.

End ConsolidationWorker.

(** ** Dates and numbers as text *)

Module JsDate.

(** [String(n)] for an integer. *)
Definition showZ (n : Z) : string := NilZero.string_of_int (Z.to_int n).

(** [s.padStart(width, "0")] *)
Fixpoint zeros (n : nat) : string :=
  match n with
  | O => EmptyString
  | S m => String "0" (zeros m)
  end.

Definition padStart (width : nat) (s : string) : string :=
  (zeros (width - String.length s) ++ s)%string.

(** The civil date (year, month, day) of a day number counted from
    1970-01-01, in the proleptic Gregorian calendar. *)
Definition civil (days : Z) : Z * Z * Z :=
  let z := days + 719468 in
  let era := z / 146097 in
  let doe := z - era * 146097 in
  let yoe := (doe - doe / 1460 + doe / 36524 - doe / 146096) / 365 in
  let doy := doe - (365 * yoe + yoe / 4 - yoe / 100) in
  let mp := (5 * doy + 2) / 153 in
  let d := doy - (153 * mp + 2) / 5 + 1 in
  let m := if mp <? 10 then mp + 3 else mp - 9 in
  let y := yoe + era * 400 + (if m <=? 2 then 1 else 0) in
  (y, m, d).

(** [new Date(t).toISOString().split("T")[0]]: years outside 0..9999
    are written with a sign and six digits. *)
Definition isoDate (t : Z) : string :=
  let '(y, m, d) := civil (t / 86400000) in
  let year :=
    if ((0 <=? y)%Z && (y <=? 9999)%Z)%bool then padStart 4 (showZ y)
    else ((if (y <? 0)%Z then "-" else "+") ++ padStart 6 (showZ (Z.abs y)))%string in
  (year ++ "-" ++ padStart 2 (showZ m) ++ "-" ++ padStart 2 (showZ d))%string.

End JsDate.

(** ** Budget manager (src/budget) *)

Module BudgetManager.

(** The user's [BudgetConfig]: every property optional. *)
Record BudgetConfig : Type := {
  cfg_maxTokensPerUserPerDay : option Z;
  cfg_maxExtractionsPerUserPerDay : option Z;
  cfg_maxFactsPerUser : option Z;
  cfg_maxConversationsPerUser : option Z;
  cfg_extractionCooldownMs : option Z
}.

Record Config : Type := {
  maxTokensPerUserPerDay : Z;
  maxExtractionsPerUserPerDay : Z;
  maxFactsPerUser : Z;
  maxConversationsPerUser : Z;
  extractionCooldownMs : Z
}.

Definition constructor (c : BudgetConfig) : Config := {|
  maxTokensPerUserPerDay := default 100000 (cfg_maxTokensPerUserPerDay c);
  maxExtractionsPerUserPerDay := default 100 (cfg_maxExtractionsPerUserPerDay c);
  maxFactsPerUser := default 1000 (cfg_maxFactsPerUser c);
  maxConversationsPerUser := default 10000 (cfg_maxConversationsPerUser c);
  extractionCooldownMs := default 1000 (cfg_extractionCooldownMs c)
|}.

Record UserBudgetState : Type := mkState {
  tokensUsedToday : Z;
  extractionsToday : Z;
  lastExtractionTime : Z;
  lastResetDate : string
}.

(** The map [userBudgets]. *)
Abbreviation Budgets := (gmap string UserBudgetState).

(** [getToday()], with [date] the time value of [new Date()]. *)
Definition getToday (date : Z) : string := JsDate.isoDate date.

(** [getUserState(userId)]: the state returned and the map after the
    call; the counters start again when the day has changed. *)
Definition getUserState (date : Z) (userId : string) (b : Budgets)
  : UserBudgetState * Budgets :=
  let today := getToday date in
  let fresh := mkState 0 0 0 today in
  match b !! userId with
  | Some state =>
      if negb (String.eqb (lastResetDate state) today)
      then (fresh, <[userId := fresh]> b)
      else (state, b)
  | None => (fresh, <[userId := fresh]> b)
  end.

(** [{ allowed, reason? }] *)
Record Verdict : Type := mkVerdict {
  allowed : bool;
  reason : option string
}.

(** [canExtract(userId)]; [date] is the value of [new Date()] read by
    [getUserState], [now] that of [Date.now()] read after it. *)
Definition canExtract (cfg : Config) (date now : Z) (userId : string) (b : Budgets)
  : Verdict * Budgets :=
  let (state, b') := getUserState date userId b in
  if maxExtractionsPerUserPerDay cfg <=? extractionsToday state then
    (mkVerdict false
       (Some ("Daily extraction limit reached ("
              ++ JsDate.showZ (maxExtractionsPerUserPerDay cfg) ++ ")")%string), b')
  else
    let timeSinceLastExtraction := now - lastExtractionTime state in
    if timeSinceLastExtraction <? extractionCooldownMs cfg then
      (mkVerdict false
         (Some ("Extraction cooldown active ("
                ++ JsDate.showZ (extractionCooldownMs cfg - timeSinceLastExtraction)
                ++ "ms remaining)")%string), b')
    else (mkVerdict true None, b').

Definition canUseTokens (cfg : Config) (date : Z) (userId : string) (estimatedTokens : Z)
    (b : Budgets) : Verdict * Budgets :=
  let (state, b') := getUserState date userId b in
  if maxTokensPerUserPerDay cfg <? tokensUsedToday state + estimatedTokens then
    (mkVerdict false
       (Some ("Daily token budget exhausted ("
              ++ JsDate.showZ (tokensUsedToday state) ++ "/"
              ++ JsDate.showZ (maxTokensPerUserPerDay cfg) ++ " used)")%string), b')
  else (mkVerdict true None, b').

(** [recordExtraction(userId)]: the state object of the map is updated
    in place. *)
Definition recordExtraction (date now : Z) (userId : string) (b : Budgets) : Budgets :=
  let (state, b') := getUserState date userId b in
  <[userId := mkState (tokensUsedToday state) (extractionsToday state + 1) now
                      (lastResetDate state)]> b'.

Definition recordTokens (date : Z) (userId : string) (tokens : Z) (b : Budgets)
  : Budgets :=
  let (state, b') := getUserState date userId b in
  <[userId := mkState (tokensUsedToday state + tokens) (extractionsToday state)
                      (lastExtractionTime state) (lastResetDate state)]> b'.

(** [{ tokensRemaining, extractionsRemaining }] *)
Definition getRemainingBudget (cfg : Config) (date : Z) (userId : string) (b : Budgets)
  : (Z * Z) * Budgets :=
  let (state, b') := getUserState date userId b in
  ((Z.max 0 (maxTokensPerUserPerDay cfg - tokensUsedToday state),
    Z.max 0 (maxExtractionsPerUserPerDay cfg - extractionsToday state)), b').

Definition getMaxFactsPerUser (cfg : Config) : Z := maxFactsPerUser cfg.

Definition getMaxConversationsPerUser (cfg : Config) : Z := maxConversationsPerUser cfg.

Definition resetUserBudget (userId : string) (b : Budgets) : Budgets :=
  delete userId b.

(** [{ tokensUsedToday, extractionsToday, tokensRemaining,
    extractionsRemaining }]; the date is read twice. *)
Definition getUsageStats (cfg : Config) (date date' : Z) (userId : string) (b : Budgets)
  : (Z * Z * Z * Z) * Budgets :=
  let (state, b1) := getUserState date userId b in
  let (remaining, b2) := getRemainingBudget cfg date' userId b1 in
  ((tokensUsedToday state, extractionsToday state, fst remaining, snd remaining), b2).

End BudgetManager.

(** ** Auxiliary definitions used in the statements and proofs *)

(** Statements about strings. *)
Module StringDefs.
Import JsString.

(** A character of UTF-8: a first byte that is not a continuation byte,
    then continuation bytes only. *)
Definition headed_char (w : string) : bool :=
  match w with
  | EmptyString => false
  | String b t => negb (is_cont b) && all_cont t
  end.

(** The first byte of the string is [c]. *)
Definition starts_with (c : ascii) (s : string) : bool :=
  match s with
  | EmptyString => false
  | String b _ => Ascii.eqb b c
  end.

(** No white-space character starts at any byte of the string. *)
Fixpoint spaceless (s : string) : bool :=
  match s with
  | EmptyString => true
  | String _ r => Nat.eqb (space_width s) 0 && spaceless r
  end.

(** No character that has an upper case starts at any byte of the
    string. *)
Fixpoint settled (s : string) : bool :=
  match s with
  | EmptyString => true
  | String _ r => match upperAt s with None => settled r | Some _ => false end
  end.

(** A string with a lower-case letter of ASCII. *)
Fixpoint hasLower (s : string) : bool :=
  match s with
  | EmptyString => false
  | String c r => is_lower c || hasLower r
  end.

(** Neither string starts with the other. *)
Definition apart (a b : string) : bool :=
  negb (String.prefix a b) && negb (String.prefix b a).

(** No mapping of the table applies at any byte of the string, whatever
    follows it. *)
Fixpoint inert (v : string) : bool :=
  match v with
  | EmptyString => true
  | String _ r => forallb (fun e => apart (fst e) v) upperTable && inert r
  end.

(** What the scan of [toUpperCase] relies on, entry by entry. *)
Definition goodEntry (e : string * string) : bool :=
  headed_char (fst e) && negb (starts_with "_" (fst e))
  && negb (String.eqb (snd e) "")
  && match snd e with EmptyString => false | String b _ => negb (is_cont b) end
  && negb (hasLower (snd e)) && inert (snd e).

(** A string made of white-space characters only. *)
Inductive blank : string -> Prop :=
| blank_nil : blank ""
| blank_cons (w s : string) : In w whiteSpace -> blank s -> blank (w ++ s).

(** The string neither starts nor ends with a white-space character. *)
Definition trimmed (t : string) : Prop :=
  (forall w, In w whiteSpace -> String.prefix w t = false) /\
  (forall w u, In w whiteSpace -> t <> (u ++ w)%string).

(** [t] is [s] without the white space around it. *)
Definition trimmedOf (s t : string) : Prop :=
  (exists l r, s = (l ++ t ++ r)%string /\ blank l /\ blank r) /\ trimmed t.

End StringDefs.

(** Statements about the conflict resolver. *)
Module ResolverDefs.
Import ConflictResolver.

(** What one operation adds to the two arrays of [resolve]. *)
Definition contribution (strategy : ConflictStrategy) (existingFacts : list MemoryFact)
    (o : Op.MemoryOperation) : ConflictResolutionResult :=
  resolveStep strategy existingFacts (mkResolved [] []) o.


(** The data of the scenarios: a user living in NYC who moves. *)
Definition nycInput : FactInput :=
  mkInput "User" "LOCATION" "NYC" (Some (9 # 10)%Q) None "session1"
          None None None None None None None None None.

Definition insertSF : Op.MemoryOperation :=
  Op.mkOp INSERT "User" "LOCATION" "San Francisco" None None None None.

Definition insertNYC : Op.MemoryOperation :=
  Op.mkOp INSERT "User" "LOCATION" "NYC" None None None None.

Definition deleteNYC : Op.MemoryOperation :=
  Op.mkOp DELETE "User" "LOCATION" "NYC"
          (Some "Replaced by new value: San Francisco") None None None.

(** A program state with two fresh in-memory adapters; the clock shows
    1000, 1001, ... and the identifiers drawn are "a", "aa", ... *)
Fixpoint letters (n : nat) : string :=
  match n with
  | O => "a"
  | S m => String "a"%char (letters m)
  end.

Definition freshWorld : InMemory.World :=
  InMemory.mkWorld (fun n => 1000 + Z.of_nat n) 0 letters 0
                   InMemory.newStore InMemory.newStore.

(** The state once the user's location NYC is stored in the cold
    adapter, as in the unit test of the resolver. *)
Definition nycWorld : InMemory.World :=
  snd (InMemory.upsertFact InMemory.Cold "user1" nycInput freshWorld).


(** The fact that [nycWorld] stores. *)
Definition nycFact : MemoryFact := InMemory.freshFact nycInput "a" 1000.


End ResolverDefs.



(** Statements about the query cache. *)
Module CacheDefs.
Import SemanticCache.

(** [query.toLowerCase().trim()] *)
Definition normalize (q : string) : string := JsString.trim (JsString.toLowerCase q).

(** The entry is within its time to live at [now]. *)
Definition live (cfg : Config) (now : Z) (e : CacheEntry) : Prop :=
  now - timestamp e <= ttlMs cfg.

Definition storedQuery : string := "What is my name?".
Definition askedQuery : string := "what is my name".

Definition testConfig : Config :=
  {| maxSize := 100; ttlMs := 60000; similarityThreshold := (6 # 10)%Q |}.

Definition mockContext : HydratedContext :=
  mkContext "User is John, lives in NYC" [] 10 false.

End CacheDefs.

(** Statements about the validation of extraction results. *)
Module ValidationDefs.
Import Validation.
Export StringDefs.







(** A provider and a parser for a completion that is not JSON. *)
Definition brokenCompletion : string := "Sorry, I cannot help with that.".

Definition completeBroken : string -> M InMemory.World string :=
  fun _ => ret brokenCompletion.


Definition noPrompt : list (string * string * string) -> string -> string -> string :=
  fun _ _ _ => "".

End ValidationDefs.

(** Statements about the tiered adapter. *)
Module TieredDefs.

(** A hot adapter whose server cannot be reached: every fact operation
    rejects. *)
Definition unreachable : string := "connect ECONNREFUSED 127.0.0.1:6379".

Definition offline {W} : Adapter.BaseAdapter W := {|
  Adapter.initialize := ret tt;
  Adapter.getFacts := fun _ _ => throw unreachable;
  Adapter.getFactById := fun _ _ => throw unreachable;
  Adapter.upsertFact := fun _ _ => throw unreachable;
  Adapter.updateFact := fun _ _ _ => throw unreachable;
  Adapter.deleteFact := fun _ _ _ => throw unreachable;
  Adapter.hardDeleteFact := fun _ _ => throw unreachable
|}.

(** The configuration of the unit tests: five hot facts at most. *)
Definition testConfig : Tiered.Config :=
  Tiered.constructor
    {| Tiered.cfg_hotFactLimit := Some 5;
       Tiered.cfg_hotConversationLimit := None;
       Tiered.cfg_autoPromote := Some true;
       Tiered.cfg_autoDemote := Some true |}.

Definition nameInput : FactInput :=
  mkInput "User" "NAME" "John" (Some (9 # 10)%Q) None "test"
          None None None None None None None None None.

(** The facts a store holds for a user, in insertion order. *)
Definition factsOf (t : InMemory.Tier) (userId : string) (w : InMemory.World)
  : JsMap.t MemoryFact :=
  match InMemory.users (InMemory.store t w) !! userId with
  | Some userData => InMemory.facts userData
  | None => []
  end.

(** Two states with the same clock and identifier source, read equally
    far. *)
Definition sameEnv (w w' : InMemory.World) : Prop :=
  InMemory.clock w' = InMemory.clock w /\ InMemory.ticks w' = InMemory.ticks w /\
  InMemory.uuids w' = InMemory.uuids w /\ InMemory.draws w' = InMemory.draws w.

(** Two states whose stores hold the same facts for every user. *)
Definition sameFacts (w w' : InMemory.World) : Prop :=
  forall t u, factsOf t u w' = factsOf t u w.

(** Two states whose stores hold the same facts but for one user of one
    store. *)
Definition sameFactsBut (t : InMemory.Tier) (u : string) (w w' : InMemory.World)
  : Prop :=
  forall t' u', t' <> t \/ u' <> u -> factsOf t' u' w' = factsOf t' u' w.

Definition keyOf (f : MemoryFact) : string * string := (subject f, predicate f).

(** [a] was not updated after [b]. *)
Definition notLater (a b : MemoryFact) : Prop := updatedAt a <= updatedAt b.

(** [k] is one of the keys [ks]. *)
Definition keyIn (ks : list string) (k : string) : bool :=
  existsb (String.eqb k) ks.

Definition inputKey (f : FactInput) : string * string :=
  (in_subject f, in_predicate f).

(** The test of [upsertFact] for an existing valid fact. *)
Definition matches (fact : FactInput) (f : MemoryFact) : bool :=
  String.eqb (subject f) (in_subject fact)
  && String.eqb (predicate f) (in_predicate fact)
  && InMemory.isValid f.

(** A map of facts whose keys are distinct and are the identifiers of
    the facts stored under them. *)
Definition wellKeyed (m : JsMap.t MemoryFact) : Prop :=
  List.NoDup (map fst m) /\ Forall (fun e => fst e = id (snd e)) m.

Definition allValid (m : JsMap.t MemoryFact) : Prop :=
  Forall (fun e => InMemory.isValid (snd e) = true) m.

(** The facts chosen for eviction by [demoteOldFacts] and the map left
    once they are deleted. *)
Definition evicted (limit : Z) (m : JsMap.t MemoryFact) : list MemoryFact :=
  let hotFacts := List.filter InMemory.isValid (JsMap.values m) in
  if limit <? Z.of_nat (List.length hotFacts)
  then JsArray.slice0 (Z.of_nat (List.length hotFacts) - limit)
                      (JsArray.sortBy Tiered.updatedLater hotFacts)
  else [].

Definition demoted (limit : Z) (m : JsMap.t MemoryFact) : JsMap.t MemoryFact :=
  fold_left (fun acc f => JsMap.delete (id f) acc) (evicted limit m) m.

(** The key is an identifier already drawn from the source. *)
Definition issued (w : InMemory.World) (k : string) : Prop :=
  exists j, (j < InMemory.draws w)%nat /\ k = InMemory.uuids w j.

(** Every entry holds a fact whose (subject, predicate) is among [K],
    under an identifier already drawn. *)
Definition tracked (K : list (string * string)) (w : InMemory.World)
    (m : JsMap.t MemoryFact) : Prop :=
  Forall (fun e => In (keyOf (snd e)) K /\ issued w (fst e)) m.

(** The state of the two stores for a user after facts with the
    distinct keys [K] were written through the tiered adapter. *)
Definition tiered (limit : Z) (userId : string) (K : list (string * string))
    (w : InMemory.World) : Prop :=
  List.length (factsOf InMemory.Cold userId w) = List.length K /\
  List.length (factsOf InMemory.Hot userId w)
    = Nat.min (List.length K) (Z.to_nat limit) /\
  wellKeyed (factsOf InMemory.Hot userId w) /\
  allValid (factsOf InMemory.Hot userId w) /\
  tracked K w (factsOf InMemory.Cold userId w) /\
  tracked K w (factsOf InMemory.Hot userId w).

(** The first [n] identifiers of the source are pairwise distinct. *)
Definition distinctIds (uuids : nat -> string) (n : nat) : Prop :=
  List.NoDup (map uuids (seq 0 n)).

(** The loop of the tiering test: the facts are written one after the
    other through the tiered adapter over two in-memory adapters. *)
Definition insertAll (config : Tiered.Config) (userId : string) (fs : list FactInput)
  : M (Tiered.State InMemory.World) unit :=
  forEach fs
    (fun fact =>
       bind (Tiered.upsertFact (InMemory.adapter InMemory.Hot)
               (InMemory.adapter InMemory.Cold) config userId fact)
            (fun _ => ret tt)).

(** The six facts of the tiering test. *)
Definition testFact (p o : string) : FactInput :=
  mkInput "User" p o (Some (9 # 10)%Q) None "test"
          None None None None None None None None None.

Definition sixFacts : list FactInput :=
  [testFact "FACT_0" "Value 0"; testFact "FACT_1" "Value 1";
   testFact "FACT_2" "Value 2"; testFact "FACT_3" "Value 3";
   testFact "FACT_4" "Value 4"; testFact "FACT_5" "Value 5"].

(** The same facts, the first of them written a second time with a new
    value before the others. *)
Definition rewrittenFacts : list FactInput :=
  [testFact "FACT_0" "Value 0"; testFact "FACT_0" "Value 0, again";
   testFact "FACT_1" "Value 1"; testFact "FACT_2" "Value 2";
   testFact "FACT_3" "Value 3"; testFact "FACT_4" "Value 4";
   testFact "FACT_5" "Value 5"].

(** [(await adapter.getFacts(userId, { validOnly: true })).length] *)
Definition countValid (t : InMemory.Tier) (userId : string) (w : InMemory.World)
  : Result nat :=
  match fst (InMemory.getFacts t userId (Some (validOnlyFilter true)) w) with
  | Ok facts => Ok (List.length facts)
  | Err e => Err e
  end.

End TieredDefs.

Module DecayDefs.
Import JsNum Decay.

(** On a positive TTL the linear weight is the finite number
    [max(0, 1 - age/ttl)]. *)
Definition linearQ (ageMs : Z) (ttlMs : Q) : Q :=
  if Qle_bool 0 (1 - inject_Z ageMs / ttlMs)%Q
  then (1 - inject_Z ageMs / ttlMs)%Q else 0%Q.

(** The boosted and capped weight of a regular fact, on finite numbers. *)
Definition boostedQ (w r : Q) : Q :=
  let b := if Qle_bool (1 # 2) (r * (1 # 10))%Q then 1 # 2 else (r * (1 # 10))%Q in
  if Qle_bool 1 (w + b)%Q then 1%Q else (w + b)%Q.

(** A configuration whose time-to-live values are positive durations. *)
Definition positiveTtl (cfg : Config) : Prop :=
  (0 < lowWeightTtlDays cfg)%Q /\ (0 < ephemeralTtlHours cfg)%Q /\
  (forall d, defaultTtlDays cfg = Some d -> (0 < d)%Q).

(** The fact [f] with its importance replaced. *)
Definition withImportance (i : option Q) (f : MemoryFact) : MemoryFact :=
  mkFact (id f) (subject f) (predicate f) (object f) (confidence f) i
         (source f) (createdAt f) (updatedAt f) (invalidatedAt f)
         (accessCount f) (lastAccessedAt f) (memoryStage f)
         (reinforcementCount f) (lastReinforcedAt f).

(** The allergy recorded by the extraction pipeline under the predicate
    HAS_ALLERGY with importance 9, created at time 0. *)
Definition allergyFact : MemoryFact :=
  mkFact "f1" "User" "HAS_ALLERGY" "peanuts" (Some (9 # 10)%Q) (Some 9%Q)
         "session1" 0 0 None None None None None None.

Definition dayMs : Z := 24 * 60 * 60 * 1000.

Definition nameFact : MemoryFact :=
  mkFact "f2" "User" "name" "John" (Some (9 # 10)%Q) (Some 10%Q)
         "session1" 0 0 None None None None None None.

Definition likesFact : MemoryFact :=
  mkFact "f3" "User" "LIKES" "Pizza" (Some (9 # 10)%Q) (Some 5%Q)
         "test" 0 0 None None None None (Some 1) None.

(** The same fact, created two days after time 0. *)
Definition laterFact : MemoryFact :=
  mkFact "f3" "User" "LIKES" "Pizza" (Some (9 # 10)%Q) (Some 5%Q)
         "test" (2 * dayMs) (2 * dayMs) None None None None (Some 1) None.

(** [new DecayManager({ defaultTtlDays: d })] *)
Definition withDefaultTtl (d : Q) : Config :=
  constructor (Build_DecayConfig None (Some d) None None None None None).

End DecayDefs.

(** Example data of the consolidation scenario: a fact created at time 0
    and read six times. *)
Module ConsolidationDefs.

Import Consolidation.

Definition hourMs : Z := 1000 * 60 * 60.

(** [fact.accessCount ?? 0] *)
Definition hits (fact : MemoryFact) : Q := inject_Z (default 0 (accessCount fact)).

(** The two tests of [determineStage], as propositions. *)
Definition oldAndUsed (cfg : Config) (fact : MemoryFact) (now : Z) : Prop :=
  (workingHours cfg <= ageHours fact now)%Q /\
  (longTermAccessThreshold cfg <= hits fact)%Q.

Definition oldOrUsed (cfg : Config) (fact : MemoryFact) (now : Z) : Prop :=
  (shortTermHours cfg <= ageHours fact now)%Q \/
  (workingAccessThreshold cfg <= hits fact)%Q.

(** The conditions of the specification, stated without the code's
    computation of the age.  A fact is at least [h] hours old at [now]
    when the milliseconds since its creation are at least [h] hours of
    3 600 000 milliseconds each. *)
Definition agedAtLeast (h : Q) (fact : MemoryFact) (now : Z) : Prop :=
  (h * 3600000 <= inject_Z now - inject_Z (createdAt fact))%Q.

(** The fact was read at least [n] times (never, when it has no access
    count). *)
Definition accessedAtLeast (n : Q) (fact : MemoryFact) : Prop :=
  match accessCount fact with
  | Some k => (n <= inject_Z k)%Q
  | None => (n <= 0)%Q
  end.

(** "age >= workingHours AND accessCount >= longTermAccessThreshold" *)
Definition longTermSpec (cfg : Config) (fact : MemoryFact) (now : Z) : Prop :=
  agedAtLeast (workingHours cfg) fact now /\
  accessedAtLeast (longTermAccessThreshold cfg) fact.

(** "age >= shortTermHours OR accessCount >= workingAccessThreshold" *)
Definition workingSpec (cfg : Config) (fact : MemoryFact) (now : Z) : Prop :=
  agedAtLeast (shortTermHours cfg) fact now \/
  accessedAtLeast (workingAccessThreshold cfg) fact.

Definition readFact : MemoryFact :=
  mkFact "f4" "User" "WORKS_AT" "Acme" (Some (9 # 10)%Q) (Some 5%Q)
         "session1" 0 0 None (Some 6) None (Some ShortTerm) None None.

End ConsolidationDefs.

(** Further statements about the decay engine. *)
Module DecayMoreDefs.
Import Decay.
Export StringDefs.

(** The time to live in milliseconds of a fact that decays: by class,
    then by confidence. *)
Definition ttlMsOf (cfg : Config) (fact : MemoryFact) : option Q :=
  if isEphemeral cfg (predicate fact)
  then Some (ephemeralTtlHours cfg * 60 * 60 * 1000)%Q
  else match ttlDays cfg fact with
       | Some days => Some (days * 24 * 60 * 60 * 1000)%Q
       | None => None
       end.

(** A whole number. *)
Definition isWhole (q : Q) : Prop := (inject_Z (Qfloor q) == q)%Q.

(** A configuration whose TTLs are whole numbers of hours and days, as
    the defaults are.  The products and the sum of the expiry
    computation are then integers, which the doubles of the code
    represent exactly over the range of time values. *)
Definition wholeTtl (cfg : Config) : Prop :=
  isWhole (lowWeightTtlDays cfg) /\ isWhole (ephemeralTtlHours cfg) /\
  (forall d, defaultTtlDays cfg = Some d -> isWhole d).

(** A user configuration that only names permanent predicates. *)
Definition permanentOnly (ps : list string) : DecayConfig :=
  Build_DecayConfig None None None (Some ps) None None None.

Definition petFact : MemoryFact :=
  mkFact "f6" "User" "Pet_Name" "Rex" (Some (9 # 10)%Q) (Some 5%Q)
         "session1" 0 0 None None None None None None.

End DecayMoreDefs.

(** Further statements about the resolver and the worker. *)
Module ResolverMoreDefs.
Import ConflictResolver.

(** The operation is not a DELETE. *)
Definition isWrite (o : Op.MemoryOperation) : bool := negb (Op.isDelete o).

(** A conflict record pairs a stored fact with an operation of the
    batch on the same subject and predicate that brings another
    value. *)
Definition genuine (existingFacts : list MemoryFact) (ops : list Op.MemoryOperation)
    (c : Conflict) : Prop :=
  In (existingFact c) existingFacts /\ In (newOperation c) ops /\
  Op.op (newOperation c) <> DELETE /\
  subject (existingFact c) = Op.subject (newOperation c) /\
  predicate (existingFact c) = Op.predicate (newOperation c) /\
  object (existingFact c) <> Op.object (newOperation c).

(** A DELETE added by the resolver names a stored fact. *)
Definition retires (existingFacts : list MemoryFact) (o : Op.MemoryOperation) : Prop :=
  exists f, In f existingFacts /\ Op.op o = DELETE /\
            Op.subject o = subject f /\ Op.predicate o = predicate f /\
            Op.object o = object f.

Definition lowConfidenceRaw : Validation.json :=
  Validation.JObj
    [("operations",
      Validation.JArr
        [Validation.JObj
           [("op", Validation.JStr "INSERT"); ("subject", Validation.JStr "User");
            ("predicate", Validation.JStr "LIKES"); ("object", Validation.JStr "Jazz");
            ("confidence", Validation.JNum (Validation.JFinite (3 # 10)))]]);
     ("reasoning", Validation.JStr "a guess")].

Definition parseLow : string -> option Validation.json := fun _ => Some lowConfidenceRaw.

Definition allergyOp : Op.MemoryOperation :=
  Op.mkOp INSERT "User" "HAS_ALLERGY_TO_FOOD" "peanuts" None (Some (9 # 10)%Q)
          (Some 3%Q) None.

End ResolverMoreDefs.

(** Further statements about the query cache. *)
Module CacheMoreDefs.
Import SemanticCache CacheDefs.

(** The entries kept for a user. *)
Definition entriesOf (userId : string) (c : Cache) : list CacheEntry :=
  default [] (cache c !! userId).

(** No user has more than [maxSize] entries. *)
Definition bounded (cfg : Config) (c : Cache) : Prop :=
  forall userId, Z.of_nat (List.length (entriesOf userId c)) <= maxSize cfg.

(** The score of an entry for a query, as [get] computes it. *)
Definition score (q : string) (e : CacheEntry) : Q :=
  calculateSimilarity (normalize q) (queryLower e).




(** The entry that [set] adds. *)
Definition newEntry (now : Z) (q : string) (ctx : HydratedContext) : CacheEntry :=
  mkEntry q (normalize q) (setFromCache false ctx) now 0.

Definition smallConfig : Config :=
  {| maxSize := 2; ttlMs := 60000; similarityThreshold := (6 # 10)%Q |}.


End CacheMoreDefs.

(** Further statements about the in-memory adapter. *)
Module StoreDefs.
Import TieredDefs.

(** At most one valid fact for each (subject, predicate). *)
Definition singleValued (m : JsMap.t MemoryFact) : Prop :=
  List.NoDup (map keyOf (List.filter InMemory.isValid (JsMap.values m))).

(** [{ subject: s, predicate: p, validOnly: true }] *)
Definition keyFilter (s p : string) : FactFilter :=
  mkFilter (Some s) (Some p) None (Some true) None None None.

(** The state after a value is stored for the user in the cold
    adapter. *)
Definition nameWorld : InMemory.World :=
  snd (InMemory.upsertFact InMemory.Cold "user1" nameInput ResolverDefs.freshWorld).

Definition renameInput : FactInput :=
  mkInput "User" "NAME" "Johnny" (Some 1%Q) None "test"
          None None None None None None None None None.

Definition noUpdates : FactUpdates :=
  mkUpdates None None None None None None None None None None None None None.

End StoreDefs.

(** Statements about the consolidation worker. *)
Module WorkerDefs.
Import ConsolidationWorker TieredDefs.



(** Two facts that differ at most in their stage and their time of
    update: [g] is [f] with the [memoryStage] and the [updatedAt] of
    [g], every other property as in [f]. *)
Definition sameButStage (f g : MemoryFact) : Prop :=
  g = mkFact (id f) (subject f) (predicate f) (object f) (confidence f)
             (importance f) (source f) (createdAt f) (updatedAt g)
             (invalidatedAt f) (accessCount f) (lastAccessedAt f)
             (memoryStage g) (reinforcementCount f) (lastReinforcedAt f).

(** The state of a loop over a snapshot of the facts: every fact still
    to be visited is stored under its identifier. *)
Definition pending (facts : list MemoryFact) (m : JsMap.t MemoryFact) : Prop :=
  List.NoDup (map id facts) /\ List.NoDup (map fst m) /\
  forall f, In f facts -> In (id f, f) m.

(** A store with an old unread fact and a fact that was read. *)
Definition noteInput : FactInput :=
  mkInput "User" "MENTIONED" "rain" (Some (9 # 10)%Q) None "s1"
          None None None (Some ShortTerm) None None None None None.

Definition readInput : FactInput :=
  mkInput "User" "LIKES" "tea" (Some (9 # 10)%Q) None "s1"
          None (Some 3) None (Some ShortTerm) None None None None None.

Definition hourClock (n : nat) : Z := Z.of_nat n * 100 * 3600000.

Definition twoFacts : InMemory.World :=
  snd (InMemory.upsertFact InMemory.Cold "user1" readInput
         (snd (InMemory.upsertFact InMemory.Cold "user1" noteInput
                 (InMemory.mkWorld hourClock 0 ResolverDefs.letters 0
                                   InMemory.newStore InMemory.newStore)))).

End WorkerDefs.

(** Further statements about the tiered adapter. *)
Module TieredMoreDefs.
Import TieredDefs.

(** A hot adapter that answers reads with nothing and rejects every
    write. *)
Definition readOnlyError : string :=
  "READONLY You can't write against a read only replica.".

Definition readOnly {W} : Adapter.BaseAdapter W := {|
  Adapter.initialize := ret tt;
  Adapter.getFacts := fun _ _ => ret [];
  Adapter.getFactById := fun _ _ => ret None;
  Adapter.upsertFact := fun _ _ => throw readOnlyError;
  Adapter.updateFact := fun _ _ _ => throw readOnlyError;
  Adapter.deleteFact := fun _ _ _ => throw readOnlyError;
  Adapter.hardDeleteFact := fun _ _ => throw readOnlyError
|}.

(** [{ object: o }] *)
Definition objectUpdate (o : string) : FactUpdates :=
  mkUpdates None None (Some o) None None None None None None None None None None.

(** A fact is served with the subject, predicate and object of the
    input, as a valid fact. *)
Definition serves (fact : FactInput) (facts : list MemoryFact) : Prop :=
  exists copy, In copy facts /\ InMemory.isValid copy = true /\
               subject copy = in_subject fact /\ predicate copy = in_predicate fact /\
               object copy = in_object fact.

(** No valid fact of the cold store has the subject and predicate of
    the input. *)
Definition retired (fact : FactInput) (userId : string) (w : InMemory.World) : Prop :=
  forall g, In g (List.filter InMemory.isValid
                    (JsMap.values (factsOf InMemory.Cold userId w))) ->
            keyOf g <> inputKey fact.

End TieredMoreDefs.

(** Statements about the budget manager. *)
Module BudgetDefs.
Import BudgetManager.

(** The extractions recorded at the given readings of the clock, one
    after the other. *)
Definition recordAll (times : list (Z * Z)) (userId : string) (b : Budgets) : Budgets :=
  fold_left (fun acc t => recordExtraction (fst t) (snd t) userId acc) times b.

(** The configuration of the unit tests. *)
Definition testConfig : Config :=
  constructor {| cfg_maxTokensPerUserPerDay := Some 1000;
                 cfg_maxExtractionsPerUserPerDay := Some 5;
                 cfg_maxFactsPerUser := Some 100;
                 cfg_maxConversationsPerUser := None;
                 cfg_extractionCooldownMs := Some 100 |}.

(** 2026-11-03T00:00:00Z and the day after. *)
Definition day1 : Z := 1793664000000.
Definition day2 : Z := day1 + 86400000.

Definition fiveTimes : list (Z * Z) :=
  [(day1, day1); (day1 + 200, day1 + 200); (day1 + 400, day1 + 400);
   (day1 + 600, day1 + 600); (day1 + 800, day1 + 800)].

(** Five extractions on the day after. *)
Definition nextDayTimes : list (Z * Z) :=
  [(day2, day2); (day2 + 200, day2 + 200); (day2 + 400, day2 + 400);
   (day2 + 600, day2 + 600); (day2 + 800, day2 + 800)].

End BudgetDefs.

(* ===================================================================== *)
(** * Part II: properties                                                 *)
(* ===================================================================== *)

(** ** Decay engine *)

Section DecayFacts.
Import JsNum Decay DecayDefs.

Lemma Qle_bool_false (x y : Q) : Qle_bool x y = false -> (y < x)%Q.
Proof.
  intros E. apply Qnot_le_lt. intros L.
  apply Qle_bool_iff in L. congruence.
Qed.

Lemma div_pos_divisor (a b : Q) : (0 < b)%Q -> div a b = Fin (a / b).
Proof.
  intros Hb. unfold div.
  destruct (Qeq_bool b 0) eqn:E; [| reflexivity].
  apply Qeq_bool_iff in E. rewrite E in Hb. lra.
Qed.

Lemma linearWeight_pos (ageMs : Z) (ttlMs : Q) :
  (0 < ttlMs)%Q -> linearWeight ageMs ttlMs = Fin (linearQ ageMs ttlMs).
Proof.
  intros Ht. unfold linearWeight, linearQ.
  rewrite (div_pos_divisor _ _ Ht). simpl.
  destruct (Qle_bool 0 (1 - inject_Z ageMs / ttlMs)); reflexivity.
Qed.

Lemma age_ratio_mono (a1 a2 : Z) (ttlMs : Q) :
  (0 < ttlMs)%Q -> (a1 <= a2)%Z ->
  (inject_Z a1 / ttlMs <= inject_Z a2 / ttlMs)%Q.
Proof.
  intros Ht Ha. unfold Qdiv.
  apply Qmult_le_compat_r.
  - rewrite <- Zle_Qle. exact Ha.
  - apply Qlt_le_weak, Qinv_lt_0_compat, Ht.
Qed.

Lemma linearQ_antitone (a1 a2 : Z) (ttlMs : Q) :
  (0 < ttlMs)%Q -> (a1 <= a2)%Z -> (linearQ a2 ttlMs <= linearQ a1 ttlMs)%Q.
Proof.
  intros Ht Ha. pose proof (age_ratio_mono a1 a2 ttlMs Ht Ha) as Hr.
  unfold linearQ.
  destruct (Qle_bool 0 (1 - inject_Z a2 / ttlMs)) eqn:E2;
  destruct (Qle_bool 0 (1 - inject_Z a1 / ttlMs)) eqn:E1;
  try apply Qle_bool_iff in E1; try apply Qle_bool_iff in E2;
  try apply Qle_bool_false in E1; try apply Qle_bool_false in E2; lra.
Qed.

Lemma linearQ_range (a : Z) (ttlMs : Q) : (0 <= linearQ a ttlMs)%Q.
Proof.
  unfold linearQ.
  destruct (Qle_bool 0 (1 - inject_Z a / ttlMs)) eqn:E;
    [apply Qle_bool_iff in E; exact E | lra].
Qed.

Lemma boosted_fin (w r : Q) :
  min (Fin 1) (add (Fin w) (min (Fin (1 # 2)) (Fin (r * (1 # 10))%Q))) = Fin (boostedQ w r).
Proof.
  unfold boostedQ. simpl.
  destruct (Qle_bool (1 # 2) (r * (1 # 10))%Q); simpl;
    match goal with |- context [Qle_bool 1 ?x] => destruct (Qle_bool 1 x) end;
    reflexivity.
Qed.

Lemma boostedQ_mono (w1 w2 r : Q) : (w2 <= w1)%Q -> (boostedQ w2 r <= boostedQ w1 r)%Q.
Proof.
  intros Hw. unfold boostedQ.
  destruct (Qle_bool (1 # 2) (r * (1 # 10))%Q) eqn:Eb; cbv zeta;
    match goal with
    | |- context [Qle_bool 1 (w2 + ?b)] =>
        destruct (Qle_bool 1 (w2 + b)) eqn:E2; destruct (Qle_bool 1 (w1 + b)) eqn:E1
    end;
    try apply Qle_bool_iff in E1; try apply Qle_bool_iff in E2;
    try apply Qle_bool_false in E1; try apply Qle_bool_false in E2; lra.
Qed.

Lemma ttlDays_positive cfg fact d :
  positiveTtl cfg -> ttlDays cfg fact = Some d -> (0 < d)%Q.
Proof.
  intros (Hl & _ & Hd). unfold ttlDays.
  destruct (negb _); [intros [= <-]; exact Hl | apply Hd].
Qed.

Lemma constructor_positiveTtl : positiveTtl (constructor noConfig).
Proof.
  repeat split; simpl; try lra. intros d [= <-]. lra.
Qed.

(** The weight of any fact never grows with the clock when the TTLs are
    positive: the general form behind decay monotonicity. *)
Lemma calculateDecayWeight_antitone cfg fact (t1 t2 : Z) :
  positiveTtl cfg -> (t1 <= t2)%Z ->
  leb (calculateDecayWeight cfg fact t2) (calculateDecayWeight cfg fact t1) = true.
Proof.
  intros Hcfg Ht. unfold calculateDecayWeight.
  destruct (negb (enabled cfg)); [reflexivity |].
  destruct (isPermanent cfg (predicate fact)); [reflexivity |].
  destruct (Qle_bool (reinforcementThreshold cfg) (reinforcements fact));
    [reflexivity |].
  assert (Hage : (t1 - lastReinforced fact <= t2 - lastReinforced fact)%Z) by lia.
  destruct (isEphemeral cfg (predicate fact)).
  - assert (Httl : (0 < ephemeralTtlHours cfg * 60 * 60 * 1000)%Q).
    { destruct Hcfg as (_ & He & _). lra. }
    rewrite !linearWeight_pos by exact Httl. simpl.
    apply Qle_bool_iff, linearQ_antitone; assumption.
  - destruct (ttlDays cfg fact) as [d |] eqn:Ed; [| reflexivity].
    assert (Httl : (0 < d * 24 * 60 * 60 * 1000)%Q).
    { pose proof (ttlDays_positive _ _ _ Hcfg Ed). lra. }
    cbv zeta. rewrite !linearWeight_pos by exact Httl.
    rewrite !boosted_fin. simpl.
    apply Qle_bool_iff, boostedQ_mono, linearQ_antitone; assumption.
Qed.

(** [shouldPrune] never reads [importance]. *)
Lemma shouldPrune_ignores_importance cfg fact i now now' :
  shouldPrune cfg (withImportance i fact) now now' = shouldPrune cfg fact now now'.
Proof. reflexivity. Qed.

(** C1, as stated, fails: under the default configuration a fact of
    importance 9 whose predicate is not in the permanent set is pruned
    once its 90 days have passed. *)
Lemma C1_importance_floor_counterexample :
  importance allergyFact = Some 9%Q /\
  shouldPrune (constructor noConfig) allergyFact (91 * dayMs) (91 * dayMs) = true.
Proof. split; reflexivity. Qed.

(** C1 (amended): a fact of importance at least 9 is never pruned when
    decay is disabled, when its upper-cased predicate is in the permanent
    set, or when its reinforcement count has reached the reinforcement
    threshold, at every reading of the clock.  ([shouldPrune] does not
    read the importance; these are the guards the code has.) *)
Theorem C1_shouldPrune_guards cfg fact (i : Q) (now now' : Z) :
  importance fact = Some i -> (9 <= i)%Q ->
  enabled cfg = false \/
  isPermanent cfg (predicate fact) = true \/
  (reinforcementThreshold cfg <= reinforcements fact)%Q ->
  shouldPrune cfg fact now now' = false.
Proof.
  intros _ _ Hguard. unfold shouldPrune, calculateDecayWeight, calculateExpiryDate.
  destruct (enabled cfg); simpl; [| reflexivity].
  destruct Hguard as [Hoff | [Hperm | Hre]]; [discriminate | |].
  - rewrite Hperm. reflexivity.
  - apply Qle_bool_iff in Hre. rewrite Hre.
    destruct (isPermanent cfg (predicate fact)); reflexivity.
Qed.

Lemma C1_shouldPrune_guards_witness :
  shouldPrune (constructor noConfig) nameFact (365 * dayMs) (365 * dayMs) = false.
Proof.
  apply (C1_shouldPrune_guards (constructor noConfig) nameFact 10%Q).
  - reflexivity.
  - vm_compute. discriminate.
  - right; left. reflexivity.
Defined.

(** C6, as stated, fails: the constructor takes every number as a TTL.
    With [defaultTtlDays: 0] the weight of a regular fact read in the
    millisecond of its last reinforcement is NaN (0 / 0), and no later
    weight is at most NaN.  With [defaultTtlDays: -1] the weight of a
    regular fact dated two days after the first reading of the clock
    rises from 0.1 to 1 between the two readings. *)
Lemma C6_nonpositive_ttl_counterexample :
  (isPermanent (withDefaultTtl 0) (predicate likesFact) = false /\
   isEphemeral (withDefaultTtl 0) (predicate likesFact) = false /\
   (reinforcements likesFact < reinforcementThreshold (withDefaultTtl 0))%Q /\
   (0 < 1)%Z /\
   calculateDecayWeight (withDefaultTtl 0) likesFact 0 = NaN /\
   calculateDecayWeight (withDefaultTtl 0) likesFact 1 = Fin (1 # 10) /\
   leb (calculateDecayWeight (withDefaultTtl 0) likesFact 1)
       (calculateDecayWeight (withDefaultTtl 0) likesFact 0) = false) /\
  (isPermanent (withDefaultTtl (-1)) (predicate laterFact) = false /\
   isEphemeral (withDefaultTtl (-1)) (predicate laterFact) = false /\
   (reinforcements laterFact < reinforcementThreshold (withDefaultTtl (-1)))%Q /\
   (0 < 2 * dayMs)%Z /\
   leb (calculateDecayWeight (withDefaultTtl (-1)) laterFact 0) (Fin (1 # 10)) = true /\
   leb (Fin 1) (calculateDecayWeight (withDefaultTtl (-1)) laterFact (2 * dayMs)) = true /\
   leb (calculateDecayWeight (withDefaultTtl (-1)) laterFact (2 * dayMs))
       (calculateDecayWeight (withDefaultTtl (-1)) laterFact 0) = false).
Proof. repeat split; vm_compute; reflexivity. Qed.

(** C6 (amended): for a regular-class fact (predicate neither permanent
    nor ephemeral) whose reinforcement count is fixed and below the
    reinforcement threshold and whose time to live (the default one, or
    the one of low-confidence facts when its confidence is below 0.5)
    is positive, the decay weight at a later time is at most the weight
    at an earlier time. *)
Theorem C6_decay_monotone cfg fact (t1 t2 : Z) :
  (forall d, ttlDays cfg fact = Some d -> (0 < d)%Q) ->
  isPermanent cfg (predicate fact) = false ->
  isEphemeral cfg (predicate fact) = false ->
  (reinforcements fact < reinforcementThreshold cfg)%Q ->
  (t1 < t2)%Z ->
  leb (calculateDecayWeight cfg fact t2) (calculateDecayWeight cfg fact t1) = true.
Proof.
  intros Hcfg _ Heph _ Ht. unfold calculateDecayWeight.
  destruct (negb (enabled cfg)); [reflexivity |].
  destruct (isPermanent cfg (predicate fact)); [reflexivity |].
  destruct (Qle_bool (reinforcementThreshold cfg) (reinforcements fact));
    [reflexivity |].
  rewrite Heph.
  destruct (ttlDays cfg fact) as [d |] eqn:Ed; [| reflexivity].
  assert (Httl : (0 < d * 24 * 60 * 60 * 1000)%Q).
  { pose proof (Hcfg d eq_refl). lra. }
  cbv zeta. rewrite !linearWeight_pos by exact Httl.
  rewrite !boosted_fin. simpl.
  apply Qle_bool_iff, boostedQ_mono, linearQ_antitone; [exact Httl | lia].
Qed.

Lemma C6_decay_monotone_witness :
  leb (calculateDecayWeight (constructor noConfig) likesFact (30 * dayMs))
      (calculateDecayWeight (constructor noConfig) likesFact (14 * dayMs)) = true.
Proof.
  apply (C6_decay_monotone (constructor noConfig) likesFact).
  - intros d [= <-]. reflexivity.
  - reflexivity.
  - reflexivity.
  - vm_compute. reflexivity.
  - vm_compute. reflexivity.
Defined.

End DecayFacts.

(** ** Consolidation engine *)

Section ConsolidationFacts.
Import Consolidation ConsolidationDefs.

Variable cfg : Config.

Lemma determineStage_cases fact now :
  (oldAndUsed cfg fact now /\ determineStage cfg fact now = LongTerm) \/
  (~ oldAndUsed cfg fact now /\ oldOrUsed cfg fact now /\
     determineStage cfg fact now = Working) \/
  (~ oldAndUsed cfg fact now /\ ~ oldOrUsed cfg fact now /\
     determineStage cfg fact now = ShortTerm).
Proof.
  unfold oldAndUsed, oldOrUsed, hits, determineStage. cbv zeta.
  rewrite <- !Qle_bool_iff.
  destruct (Qle_bool (workingHours cfg) _), (Qle_bool (longTermAccessThreshold cfg) _),
           (Qle_bool (shortTermHours cfg) _), (Qle_bool (workingAccessThreshold cfg) _);
    simpl; intuition congruence.
Qed.

Lemma agedAtLeast_ageHours (fact : MemoryFact) (h : Q) (now : Z) :
  agedAtLeast h fact now <-> (h <= ageHours fact now)%Q.
Proof.
  unfold agedAtLeast, ageHours.
  assert (Hsub : (inject_Z (now - createdAt fact)
                  == inject_Z now - inject_Z (createdAt fact))%Q).
  { unfold Zminus. rewrite inject_Z_plus, inject_Z_opp. reflexivity. }
  rewrite Hsub.
  change (inject_Z (1000 * 60 * 60)) with 3600000%Q.
  split; intros H.
  - apply Qle_shift_div_l; [reflexivity | exact H].
  - apply (Qmult_le_compat_r _ _ 3600000) in H; [| discriminate].
    assert (E : ((inject_Z now - inject_Z (createdAt fact)) / 3600000 * 3600000
                 == inject_Z now - inject_Z (createdAt fact))%Q) by (field; discriminate).
    rewrite E in H. exact H.
Qed.

Lemma accessedAtLeast_hits (fact : MemoryFact) (n : Q) :
  accessedAtLeast n fact <-> (n <= hits fact)%Q.
Proof.
  unfold accessedAtLeast, hits. destruct (accessCount fact); reflexivity.
Qed.

End ConsolidationFacts.

(** C8: [determineStage] returns long-term iff age >= workingHours and
    accessCount >= longTermAccessThreshold; otherwise working iff
    age >= shortTermHours or accessCount >= workingAccessThreshold;
    otherwise short-term.  The age is the time since the creation of
    the fact, and "age >= h" says that at least h hours of 3 600 000
    milliseconds have passed.  In particular a fact of age 25 hours
    (90 000 000 milliseconds) with accessCount 6 is long-term when
    workingHours = 24 and longTermAccessThreshold = 5. *)
Theorem C8_determineStage_classification :
  (forall cfg fact now,
     let long := ConsolidationDefs.longTermSpec cfg fact now in
     let work := ConsolidationDefs.workingSpec cfg fact now in
     (Consolidation.determineStage cfg fact now = LongTerm <-> long) /\
     (Consolidation.determineStage cfg fact now = Working <-> ~ long /\ work) /\
     (Consolidation.determineStage cfg fact now = ShortTerm <-> ~ long /\ ~ work)) /\
  (forall cfg fact now,
     Consolidation.workingHours cfg = 24%Q ->
     Consolidation.longTermAccessThreshold cfg = 5%Q ->
     accessCount fact = Some 6 ->
     now - createdAt fact = 90000000 ->
     Consolidation.determineStage cfg fact now = LongTerm).
Proof.
  assert (Hspec : forall cfg fact now,
             (ConsolidationDefs.longTermSpec cfg fact now
              <-> ConsolidationDefs.oldAndUsed cfg fact now) /\
             (ConsolidationDefs.workingSpec cfg fact now
              <-> ConsolidationDefs.oldOrUsed cfg fact now)).
  { intros cfg fact now.
    unfold ConsolidationDefs.longTermSpec, ConsolidationDefs.workingSpec,
      ConsolidationDefs.oldAndUsed, ConsolidationDefs.oldOrUsed.
    rewrite !agedAtLeast_ageHours, !accessedAtLeast_hits. split; reflexivity. }
  split.
  - intros cfg fact now long work. subst long work.
    destruct (Hspec cfg fact now) as [Hl Hw]. rewrite Hl, Hw.
    destruct (determineStage_cases cfg fact now)
      as [[Hl' E] | [(Hl' & Hw' & E) | (Hl' & Hw' & E)]];
      rewrite E; intuition congruence.
  - intros cfg fact now Hwh Hlt Hac Hage.
    destruct (Hspec cfg fact now) as [Hl _].
    destruct (determineStage_cases cfg fact now)
      as [[_ E] | [(Hn & _) | (Hn & _)]]; [exact E | exfalso; apply Hn, Hl ..];
      (split;
       [ unfold ConsolidationDefs.agedAtLeast, Qminus;
         rewrite Hwh, <- inject_Z_opp, <- inject_Z_plus;
         change (now + - createdAt fact) with (now - createdAt fact);
         rewrite Hage; vm_compute; discriminate
       | unfold ConsolidationDefs.accessedAtLeast;
         rewrite Hlt, Hac; vm_compute; discriminate ]).
Qed.

Lemma C8_determineStage_classification_witness :
  Consolidation.determineStage Consolidation.defaultConfig
    ConsolidationDefs.readFact 90000000 = LongTerm.
Proof.
  exact (proj2 C8_determineStage_classification Consolidation.defaultConfig
           ConsolidationDefs.readFact 90000000 eq_refl eq_refl eq_refl eq_refl).
Defined.

(** ** Conflict resolver *)

Section ResolverFacts.
Import ConflictResolver ResolverDefs.

Variable strategy : ConflictStrategy.
Variable existingFacts : list MemoryFact.

Lemma resolveStep_contribution acc o :
  resolveStep strategy existingFacts acc o =
  mkResolved
    (resolvedOperations acc ++ resolvedOperations (contribution strategy existingFacts o))
    (conflicts acc ++ conflicts (contribution strategy existingFacts o)).
Proof.
  unfold contribution, resolveStep.
  destruct (Op.isDelete o); [simpl; rewrite app_nil_r; reflexivity |].
  destruct (findExisting existingFacts o) as [existing |];
    [| simpl; rewrite app_nil_r; reflexivity].
  destruct (String.eqb (object existing) (Op.object o));
    [destruct acc; simpl; rewrite !app_nil_r; reflexivity |].
  destruct strategy; reflexivity.
Qed.

Lemma resolve_fold ops acc :
  fold_left (resolveStep strategy existingFacts) ops acc =
  mkResolved
    (resolvedOperations acc ++
       flat_map (fun o => resolvedOperations (contribution strategy existingFacts o)) ops)
    (conflicts acc ++
       flat_map (fun o => conflicts (contribution strategy existingFacts o)) ops).
Proof.
  revert acc. induction ops as [| o ops IH]; intros acc; simpl.
  - destruct acc; simpl; rewrite !app_nil_r; reflexivity.
  - rewrite IH, resolveStep_contribution. simpl. rewrite <- !app_assoc. reflexivity.
Qed.

(** The result of the loop is the concatenation, in order, of what each
    operation contributes: the existing facts are read once, before the
    loop, and the loop does not change them. *)
Lemma resolveWith_split before o after :
  resolveWith strategy (before ++ o :: after) existingFacts =
  mkResolved
    (resolvedOperations (resolveWith strategy before existingFacts)
       ++ resolvedOperations (contribution strategy existingFacts o)
       ++ resolvedOperations (resolveWith strategy after existingFacts))
    (conflicts (resolveWith strategy before existingFacts)
       ++ conflicts (contribution strategy existingFacts o)
       ++ conflicts (resolveWith strategy after existingFacts)).
Proof.
  unfold resolveWith. rewrite !resolve_fold. simpl.
  rewrite !flat_map_app. simpl. reflexivity.
Qed.

Lemma resolveWith_single o :
  resolveWith strategy [o] existingFacts = contribution strategy existingFacts o.
Proof. reflexivity. Qed.

Lemma isDelete_false o : Op.op o <> DELETE -> Op.isDelete o = false.
Proof. unfold Op.isDelete. destruct (Op.op o); congruence. Qed.

(** A proposal with the stored value contributes nothing. *)
Lemma contribution_same_value o existing :
  Op.op o <> DELETE ->
  findExisting existingFacts o = Some existing ->
  object existing = Op.object o ->
  contribution strategy existingFacts o = mkResolved [] [].
Proof.
  intros Hop Hfind Hobj. unfold contribution, resolveStep.
  rewrite (isDelete_false o Hop), Hfind, Hobj, String.eqb_refl. reflexivity.
Qed.


End ResolverFacts.

(** [resolve] reads the valid facts once and runs the loop on them. *)
Lemma resolve_run {W} strategy userId ops (adapter : Adapter.BaseAdapter W) w w' facts :
  Adapter.getFacts adapter userId (Some (validOnlyFilter true)) w = (Ok facts, w') ->
  ConflictResolver.resolve strategy userId ops adapter w =
  (Ok (ConflictResolver.resolveWith strategy ops facts), w').
Proof.
  intros Hget. unfold ConflictResolver.resolve, bind. rewrite Hget. reflexivity.
Qed.



Section ResolverClaims.
Import ConflictResolver ResolverDefs.
Context {W : Type}.
Variable adapter : Adapter.BaseAdapter W.
Variable userId : string.


(** C7: under every strategy, an INSERT or UPDATE whose object equals
    the object of the existing valid fact for its (subject, predicate) is
    dropped: it adds no operation and no conflict to the output, so
    resolving it alone yields zero operations. *)
Theorem C7_same_value_dropped strategy w w' existingFacts before o after existing :
  Adapter.getFacts adapter userId (Some (validOnlyFilter true)) w
    = (Ok existingFacts, w') ->
  Op.op o <> DELETE ->
  findExisting existingFacts o = Some existing ->
  object existing = Op.object o ->
  resolve strategy userId [o] adapter w = (Ok (mkResolved [] []), w') /\
  resolve strategy userId (before ++ o :: after) adapter w =
    (Ok (mkResolved
           (resolvedOperations (resolveWith strategy before existingFacts)
              ++ resolvedOperations (resolveWith strategy after existingFacts))
           (conflicts (resolveWith strategy before existingFacts)
              ++ conflicts (resolveWith strategy after existingFacts))),
     w').
Proof.
  intros Hget Hop Hfind Hobj. split.
  - rewrite (resolve_run _ _ _ _ _ _ _ Hget), resolveWith_single,
      (contribution_same_value _ _ _ _ Hop Hfind Hobj). reflexivity.
  - rewrite (resolve_run _ _ _ _ _ _ _ Hget), resolveWith_split,
      (contribution_same_value _ _ _ _ Hop Hfind Hobj). reflexivity.
Qed.


End ResolverClaims.


Lemma C7_same_value_dropped_witness :
  ConflictResolver.resolve ConflictResolver.latest "user1"
    [ResolverDefs.insertNYC] (InMemory.adapter InMemory.Cold) ResolverDefs.nycWorld
    = (Ok (ConflictResolver.mkResolved [] []), ResolverDefs.nycWorld).
Proof.
  apply (proj1 (C7_same_value_dropped (InMemory.adapter InMemory.Cold) "user1"
                  ConflictResolver.latest ResolverDefs.nycWorld ResolverDefs.nycWorld
                  [ResolverDefs.nycFact] [] ResolverDefs.insertNYC []
                  ResolverDefs.nycFact
                  ltac:(vm_compute; reflexivity) ltac:(discriminate)
                  eq_refl eq_refl)).
Defined.



(** ** Query cache *)

Section CacheFacts.
Import SemanticCache CacheDefs.

Variable cfg : Config.
Variable now : Z.
Variable q : string.

(** Once an entry is selected the loop ends with a selection. *)
Lemma bestMatch_keeps entries i j bestScore :
  exists k, bestMatch cfg now q entries i (Some j) bestScore = Some k.
Proof.
  revert i j bestScore. induction entries as [| e entries IH]; intros i j bestScore; simpl.
  - eauto.
  - destruct (ttlMs cfg <? now - timestamp e); [apply IH |].
    destruct (Qle_bool (similarityThreshold cfg) _ && negb _); apply IH.
Qed.

(** A live entry at or above the threshold, scoring above the best
    score so far, makes the loop end with a selection. *)
Lemma bestMatch_finds entries e i best bestScore :
  In e entries ->
  live cfg now e ->
  Qle_bool (similarityThreshold cfg) (calculateSimilarity q (queryLower e)) = true ->
  Qle_bool (calculateSimilarity q (queryLower e)) bestScore = false ->
  exists k, bestMatch cfg now q entries i best bestScore = Some k.
Proof.
  intros Hin Hlive Hthr Hbest. revert i best.
  induction entries as [| e' entries IH]; intros i best; [destruct Hin |].
  simpl. destruct Hin as [-> | Hin].
  - assert (Hfresh : (ttlMs cfg <? now - timestamp e) = false)
      by (apply Z.ltb_ge; exact Hlive).
    rewrite Hfresh, Hthr, Hbest. simpl. apply bestMatch_keeps.
  - destruct (ttlMs cfg <? now - timestamp e'); [apply IH, Hin |].
    destruct (Qle_bool (similarityThreshold cfg) _ && negb _);
      [apply bestMatch_keeps | apply IH, Hin].
Qed.

(** The index selected is the initial one or lies in the array. *)
Lemma bestMatch_bound entries i best bestScore k :
  bestMatch cfg now q entries i best bestScore = Some k ->
  best = Some k \/ (i <= k < i + List.length entries)%nat.
Proof.
  revert i best bestScore. induction entries as [| e entries IH];
    intros i best bestScore; simpl; [intros ->; left; reflexivity |].
  assert (Hstep : forall b s,
    bestMatch cfg now q entries (S i) b s = Some k ->
    b = Some k \/ (i <= k < i + S (List.length entries))%nat).
  { intros b s H. destruct (IH _ _ _ H) as [-> | Hk]; [left; reflexivity | right; lia]. }
  destruct (ttlMs cfg <? now - timestamp e); [apply Hstep |].
  destruct (Qle_bool (similarityThreshold cfg) _ && negb _); [| apply Hstep].
  intros H. destruct (Hstep _ _ H) as [[= <-] | Hk]; right; lia.
Qed.

End CacheFacts.

(** A lookup is a hit as soon as the principal has a live entry whose
    similarity is positive and at or above the threshold. *)
Lemma get_hits cfg now userId q c entries e :
  SemanticCache.cache c !! userId = Some entries ->
  In e entries ->
  CacheDefs.live cfg now e ->
  (SemanticCache.similarityThreshold cfg
     <= SemanticCache.calculateSimilarity (CacheDefs.normalize q)
          (SemanticCache.queryLower e))%Q ->
  (0 < SemanticCache.calculateSimilarity (CacheDefs.normalize q)
         (SemanticCache.queryLower e))%Q ->
  exists hit c',
    SemanticCache.get cfg now userId q c = (Some hit, c') /\
    SemanticCache.fromCache hit = true.
Proof.
  intros Hc Hin Hlive Hthr Hpos. unfold SemanticCache.get. rewrite Hc.
  destruct entries as [| e0 entries0] eqn:E; [destruct Hin |]. rewrite <- E in *.
  destruct (bestMatch_finds cfg now (CacheDefs.normalize q) entries e 0%nat None 0%Q Hin Hlive)
    as [k Hk].
  { apply Qle_bool_iff, Hthr. }
  { destruct (Qle_bool _ 0) eqn:E0; [| reflexivity].
    apply Qle_bool_iff in E0. lra. }
  unfold CacheDefs.normalize in Hk. rewrite Hk.
  destruct (bestMatch_bound _ _ _ _ _ _ _ _ Hk) as [[=] | Hb].
  destruct (lookup_lt_is_Some_2 entries k) as [entry Hentry]; [lia |].
  rewrite Hentry. eauto.
Qed.

(** C4, as stated, fails: after normalization (lower case, trim) the
    stored query keeps its question mark, the token sets differ in one
    token out of five, and the similarity is 3/5, not 1. *)
Lemma C4_similarity_counterexample :
  SemanticCache.tokens (CacheDefs.normalize CacheDefs.askedQuery)
    <> SemanticCache.tokens (CacheDefs.normalize CacheDefs.storedQuery) /\
  ~ (SemanticCache.calculateSimilarity (CacheDefs.normalize CacheDefs.askedQuery)
       (CacheDefs.normalize CacheDefs.storedQuery) == 1)%Q.
Proof. split; vm_compute; discriminate. Qed.

(** C4 (amended): with similarityThreshold = 0.6, after storing an entry
    for "What is my name?" for a principal, a lookup of "what is my name"
    for the same principal within the TTL is a cache hit: the normalized
    queries share three of their five distinct tokens ("name?" and "name"
    differ), the Jaccard similarity is 3/5 = 0.6, which is at the
    threshold.  When the principal had no other entry, the hit returns
    the stored context marked as served from the cache. *)
Theorem C4_similar_query_hit cfg c userId ctx (t0 t1 : Z) :
  SemanticCache.similarityThreshold cfg = (6 # 10)%Q ->
  t1 - t0 <= SemanticCache.ttlMs cfg ->
  (SemanticCache.calculateSimilarity (CacheDefs.normalize CacheDefs.askedQuery)
     (CacheDefs.normalize CacheDefs.storedQuery) == 3 # 5)%Q /\
  (exists hit c',
     SemanticCache.get cfg t1 userId CacheDefs.askedQuery
       (SemanticCache.set cfg t0 userId CacheDefs.storedQuery ctx c) = (Some hit, c') /\
     SemanticCache.fromCache hit = true) /\
  (SemanticCache.cache c !! userId = None ->
   fst (SemanticCache.get cfg t1 userId CacheDefs.askedQuery
          (SemanticCache.set cfg t0 userId CacheDefs.storedQuery ctx c))
   = Some (SemanticCache.setFromCache true ctx)).
Proof.
  intros Hthr Httl. split; [vm_compute; reflexivity |]. split.
  - set (new := SemanticCache.mkEntry CacheDefs.storedQuery
                  (CacheDefs.normalize CacheDefs.storedQuery)
                  (SemanticCache.setFromCache false ctx) t0 0).
    eapply (get_hits cfg t1 userId CacheDefs.askedQuery _ _ new).
    + unfold SemanticCache.set. cbn [SemanticCache.cache]. apply lookup_insert_eq.
    + apply in_or_app. right. left. reflexivity.
    + exact Httl.
    + rewrite Hthr. vm_compute. discriminate.
    + vm_compute. reflexivity.
  - intros Hnone. unfold SemanticCache.set, SemanticCache.get. rewrite Hnone.
    cbn [SemanticCache.cache default List.filter List.length Z.of_nat JsArray.sortBy List.tl].
    rewrite lookup_insert_eq.
    assert (Hfresh : (SemanticCache.ttlMs cfg <? t1 - t0) = false)
      by (apply Z.ltb_ge; exact Httl).
    destruct (SemanticCache.maxSize cfg <=? _); simpl;
      rewrite Hfresh, Hthr; reflexivity.
Qed.

Lemma C4_similar_query_hit_witness :
  fst (SemanticCache.get CacheDefs.testConfig 1500 "user1" CacheDefs.askedQuery
         (SemanticCache.set CacheDefs.testConfig 1000 "user1" CacheDefs.storedQuery
            CacheDefs.mockContext SemanticCache.empty))
  = Some (SemanticCache.setFromCache true CacheDefs.mockContext).
Proof.
  apply (proj2 (proj2 (C4_similar_query_hit CacheDefs.testConfig SemanticCache.empty
                         "user1" CacheDefs.mockContext 1000 1500
                         eq_refl ltac:(vm_compute; discriminate)))).
  reflexivity.
Defined.

(** ** Strings: prefixes, white space and upper case *)

Section StringBasics.

Lemma string_app_cons (x : ascii) (a b : string) :
  (String x a ++ b)%string = String x (a ++ b).
Proof. reflexivity. Qed.

Lemma string_app_nil_l (b : string) : ("" ++ b)%string = b.
Proof. reflexivity. Qed.

Lemma string_app_assoc (a b c : string) : ((a ++ b) ++ c)%string = (a ++ (b ++ c))%string.
Proof.
  induction a as [| x a IH]; [reflexivity |].
  rewrite !string_app_cons. f_equal. exact IH.
Qed.

Lemma string_app_nil_r (a : string) : (a ++ "")%string = a.
Proof.
  induction a as [| x a IH]; [reflexivity |].
  rewrite !string_app_cons. f_equal. exact IH.
Qed.

Lemma string_app_length (a b : string) :
  String.length (a ++ b) = (String.length a + String.length b)%nat.
Proof.
  induction a as [| x a IH]; [reflexivity |].
  rewrite string_app_cons. cbn [String.length]. rewrite IH. reflexivity.
Qed.

Lemma string_app_inv_head (a b c : string) : (a ++ b)%string = (a ++ c)%string -> b = c.
Proof.
  induction a as [| x a IH]; [auto |]. rewrite !string_app_cons. intros [= H]. auto.
Qed.

Lemma prefix_spec (a s : string) :
  String.prefix a s = true <-> exists r, s = (a ++ r)%string.
Proof.
  revert a. induction s as [| y s IH]; intros [| x a]; cbn [String.prefix].
  - split; [exists ""; reflexivity | reflexivity].
  - split; [discriminate | intros (r & E); rewrite string_app_cons in E; discriminate].
  - split; [exists (String y s); reflexivity | reflexivity].
  - destruct (ascii_dec x y) as [-> | Hne].
    + rewrite IH. split; intros (r & E); exists r.
      * rewrite string_app_cons. congruence.
      * rewrite string_app_cons in E. congruence.
    + split; [discriminate |]. intros (r & E). rewrite string_app_cons in E.
      injection E as E _. congruence.
Qed.

Lemma prefix_false (a s : string) :
  String.prefix a s = false <-> forall r, s <> (a ++ r)%string.
Proof.
  split.
  - intros H r E. assert (String.prefix a s = true) by (apply prefix_spec; eauto).
    congruence.
  - intros H. destruct (String.prefix a s) eqn:E; [| reflexivity].
    apply prefix_spec in E. destruct E as (r & E). destruct (H r E).
Qed.

Lemma prefix_nil (r : string) : String.prefix "" r = true.
Proof. destruct r; reflexivity. Qed.

Lemma prefix_app_l (a r : string) : String.prefix a (a ++ r) = true.
Proof. apply prefix_spec. eauto. Qed.

(** Two prefixes of one string: one starts with the other. *)
Lemma prefix_comparable (a b s : string) :
  String.prefix a s = true -> String.prefix b s = true ->
  String.prefix a b = true \/ String.prefix b a = true.
Proof.
  revert a b. induction s as [| y s IH]; intros [| x a] [| z b]; cbn [String.prefix]; auto;
    try discriminate.
  destruct (ascii_dec x y) as [-> |]; [| discriminate].
  destruct (ascii_dec z y) as [-> |]; [| discriminate].
  destruct (ascii_dec y y) as [_ | Hne]; [| contradiction]. apply IH.
Qed.

(** A prefix of [t ++ rest] starts [t] or is started by it. *)
Lemma prefix_app_case (k t rest : string) :
  String.prefix k (t ++ rest) = true ->
  String.prefix k t = true \/ String.prefix t k = true.
Proof.
  intros H. apply (prefix_comparable k t (t ++ rest)); [exact H | apply prefix_app_l].
Qed.

Lemma prefix_trans (a b c : string) :
  String.prefix a b = true -> String.prefix b c = true -> String.prefix a c = true.
Proof.
  rewrite !prefix_spec. intros (r & ->) (r' & ->). exists (r ++ r')%string.
  apply string_app_assoc.
Qed.

Lemma prefix_length (a s : string) :
  String.prefix a s = true -> (String.length a <= String.length s)%nat.
Proof.
  rewrite prefix_spec. intros (r & ->). rewrite string_app_length. lia.
Qed.

Lemma prefix_antisym (a b : string) :
  String.prefix a b = true -> String.prefix b a = true -> a = b.
Proof.
  intros H1 H2. pose proof (prefix_length _ _ H2) as L.
  apply prefix_spec in H1. destruct H1 as (r & ->).
  rewrite string_app_length in L. destruct r; [symmetry; apply string_app_nil_r | cbn [String.length] in L; lia].
Qed.

End StringBasics.

Section WhiteSpaceFacts.
Import JsString StringDefs.

(** The white-space characters are characters of UTF-8, none is an
    underscore, and none starts another. *)
Lemma whiteSpace_shape w :
  In w whiteSpace -> headed_char w = true /\ starts_with "_" w = false.
Proof.
  assert (H : forallb (fun w => headed_char w && negb (starts_with "_" w)) whiteSpace = true)
    by (vm_compute; reflexivity).
  rewrite forallb_forall in H. intros Hw. specialize (H w Hw).
  apply andb_true_iff in H. destruct H as [H1 H2].
  apply negb_true_iff in H2. split; assumption.
Qed.

Lemma whiteSpace_prefix_free w w' :
  In w whiteSpace -> In w' whiteSpace -> String.prefix w w' = true -> w = w'.
Proof.
  assert (H : forallb (fun a => forallb (fun b => implb (String.prefix a b) (String.eqb a b))
                                  whiteSpace) whiteSpace = true)
    by (vm_compute; reflexivity).
  rewrite forallb_forall in H. intros Hw Hw' Hp.
  specialize (H w Hw). rewrite forallb_forall in H. specialize (H w' Hw').
  rewrite Hp in H. apply String.eqb_eq, H.
Qed.

Lemma headed_char_inv w :
  headed_char w = true ->
  exists b t, w = String b t /\ is_cont b = false /\ all_cont t = true.
Proof.
  destruct w as [| b t]; [discriminate |]. cbn [headed_char].
  intros H. apply andb_true_iff in H. destruct H as [H1 H2].
  apply negb_true_iff in H1. eauto.
Qed.

Lemma space_width_none s :
  space_width s = 0%nat <-> forall w, In w whiteSpace -> String.prefix w s = false.
Proof.
  unfold space_width. split.
  - destruct (List.find _ whiteSpace) as [w0 |] eqn:E.
    + apply List.find_some in E. destruct E as [Hin _].
      destruct (whiteSpace_shape w0 Hin) as [Hh _].
      apply headed_char_inv in Hh. destruct Hh as (b & t & -> & _). discriminate.
    + intros _ w Hw. exact (List.find_none _ _ E w Hw).
  - intros H. destruct (List.find _ whiteSpace) as [w0 |] eqn:E; [| reflexivity].
    apply List.find_some in E. destruct E as [Hin Hp]. rewrite (H w0 Hin) in Hp.
    discriminate.
Qed.

Lemma space_width_app w r : In w whiteSpace -> space_width (w ++ r) = String.length w.
Proof.
  intros Hw. unfold space_width.
  destruct (List.find _ whiteSpace) as [w0 |] eqn:E.
  - apply List.find_some in E. destruct E as [Hin Hp].
    destruct (prefix_comparable w0 w (w ++ r) Hp (prefix_app_l w r)) as [H | H].
    + rewrite (whiteSpace_prefix_free w0 w Hin Hw H). reflexivity.
    + rewrite (whiteSpace_prefix_free w w0 Hw Hin H). reflexivity.
  - pose proof (List.find_none _ _ E w Hw) as H. cbv beta in H.
    rewrite prefix_app_l in H. discriminate.
Qed.

Lemma space_width_some s k :
  space_width s = S k ->
  exists w r, In w whiteSpace /\ s = (w ++ r)%string /\ String.length w = S k.
Proof.
  unfold space_width. destruct (List.find _ whiteSpace) as [w0 |] eqn:E; [| discriminate].
  apply List.find_some in E. destruct E as [Hin Hp].
  apply prefix_spec in Hp. destruct Hp as (r & ->). intros Hl. eauto.
Qed.

(** A scan that passes over the bytes of a recognised character. *)
Lemma trimStart_from_skip a r : trimStart_from (String.length a) (a ++ r) = trimStart r.
Proof.
  induction a as [| x a IH]; [destruct r; reflexivity |].
  rewrite string_app_cons. cbn [String.length trimStart_from]. exact IH.
Qed.

Lemma trimStart_space w r : In w whiteSpace -> trimStart (w ++ r) = trimStart r.
Proof.
  intros Hw. pose proof (space_width_app w r Hw) as Hsw.
  destruct (whiteSpace_shape w Hw) as [Hh _].
  apply headed_char_inv in Hh. destruct Hh as (b & t & -> & _).
  rewrite string_app_cons in *. unfold trimStart at 1. cbn [trimStart_from].
  rewrite Hsw. cbn [String.length]. apply trimStart_from_skip.
Qed.

Lemma trimStart_none s : space_width s = 0%nat -> trimStart s = s.
Proof.
  intros H. destruct s as [| b r]; [reflexivity |].
  unfold trimStart. cbn [trimStart_from]. rewrite H. reflexivity.
Qed.

(** Induction along the scan for white space. *)
Lemma space_ind (P : string -> Prop) :
  P "" ->
  (forall w r, In w whiteSpace -> P r -> P (w ++ r)%string) ->
  (forall b r, space_width (String b r) = 0%nat -> P r -> P (String b r)) ->
  forall s, P s.
Proof.
  intros Hnil Hws Hraw s.
  remember (String.length s) as n eqn:Hn. revert s Hn.
  induction n as [n IH] using lt_wf_ind. intros s ->.
  destruct s as [| b r]; [exact Hnil |].
  destruct (space_width (String b r)) as [| k] eqn:E.
  - apply Hraw; [exact E |]. apply (IH (String.length r)); [cbn; lia | reflexivity].
  - apply space_width_some in E. destruct E as (w & r' & Hw & E & Hl). rewrite E.
    apply Hws; [exact Hw |].
    apply (IH (String.length r')); [| reflexivity].
    rewrite E, string_app_length. lia.
Qed.

Lemma trimStart_split s :
  exists l, s = (l ++ trimStart s)%string /\ blank l /\ space_width (trimStart s) = 0%nat.
Proof.
  induction s as [| w r Hw IH | b r Hb IH] using space_ind.
  - exists "". split; [reflexivity |]. split; [constructor | reflexivity].
  - destruct IH as (l & E & Hl & H0). exists (w ++ l)%string.
    rewrite (trimStart_space w r Hw). split; [| split].
    + rewrite string_app_assoc. f_equal. exact E.
    + constructor; assumption.
    + exact H0.
  - exists "". rewrite (trimStart_none _ Hb).
    split; [reflexivity |]. split; [constructor | exact Hb].
Qed.

Lemma blank_app l r : blank l -> blank r -> blank (l ++ r).
Proof.
  induction 1 as [| w s Hw Hs IH]; intros Hr; [exact Hr |].
  rewrite string_app_assoc. constructor; auto.
Qed.

Lemma blank_trimStart s : blank s -> trimStart s = "".
Proof.
  induction 1 as [| w s Hw Hs IH]; [reflexivity |].
  rewrite (trimStart_space w s Hw). exact IH.
Qed.

(** A string is all white space when it is made of white-space
    characters. *)
Lemma all_space_blank s : all_space s = true <-> blank s.
Proof.
  unfold all_space. rewrite String.eqb_eq. split.
  - intros H. destruct (trimStart_split s) as (l & E & Hl & _).
    rewrite H, string_app_nil_r in E. subst. exact Hl.
  - apply blank_trimStart.
Qed.

Lemma trimEnd_split t :
  exists r, t = (trimEnd t ++ r)%string /\ all_space r = true.
Proof.
  induction t as [| c t IH]; [exists ""; split; reflexivity |].
  cbn [trimEnd]. destruct (all_space (String c t)) eqn:E.
  - exists (String c t). split; [reflexivity | exact E].
  - destruct IH as (r & Ht & Hr). exists r. split; [| exact Hr].
    rewrite string_app_cons. f_equal. exact Ht.
Qed.

(** Nothing of [trimEnd] lies behind a position from which the string
    is all white space. *)
Lemma trimEnd_cut u x : all_space x = true -> String.prefix (trimEnd (u ++ x)) u = true.
Proof.
  intros Hx. induction u as [| c u IH].
  - rewrite string_app_nil_l. destruct x as [| c x]; [reflexivity |].
    cbn [trimEnd]. rewrite Hx. reflexivity.
  - rewrite string_app_cons. cbn [trimEnd].
    destruct (all_space (String c (u ++ x))); [reflexivity |].
    cbn [String.prefix]. destruct (ascii_dec c c); [exact IH | contradiction].
Qed.

Lemma trimEnd_no_space_end t w u : In w whiteSpace -> trimEnd t <> (u ++ w)%string.
Proof.
  intros Hw E. destruct (trimEnd_split t) as (r & Ht & Hr).
  assert (Hx : all_space (w ++ r) = true).
  { apply all_space_blank. constructor; [exact Hw | apply all_space_blank, Hr]. }
  pose proof (trimEnd_cut u (w ++ r) Hx) as Hcut.
  rewrite <- string_app_assoc, <- E, <- Ht, E in Hcut.
  apply prefix_length in Hcut. rewrite string_app_length in Hcut.
  destruct (whiteSpace_shape w Hw) as [Hh _].
  apply headed_char_inv in Hh. destruct Hh as (b & t' & -> & _).
  cbn [String.length] in Hcut. lia.
Qed.

Lemma trimEnd_prefix t : String.prefix (trimEnd t) t = true.
Proof.
  apply prefix_spec. destruct (trimEnd_split t) as (r & E & _). eauto.
Qed.

(** What [trim] returns: the string without the white space around
    it. *)
Lemma trim_spec s : trimmedOf s (trim s).
Proof.
  unfold trimmedOf, trimmed, trim.
  destruct (trimStart_split s) as (l & El & Hl & H0).
  destruct (trimEnd_split (trimStart s)) as (r & Er & Hr).
  split; [| split].
  - exists l, r. split; [| split; [exact Hl | apply all_space_blank, Hr]].
    rewrite <- Er. exact El.
  - intros w Hw. destruct (String.prefix w (trimEnd (trimStart s))) eqn:E; [| reflexivity].
    pose proof (prefix_trans _ _ _ E (trimEnd_prefix (trimStart s))) as Hp.
    rewrite (proj1 (space_width_none _) H0 w Hw) in Hp. discriminate.
  - intros w u Hw. apply trimEnd_no_space_end, Hw.
Qed.

Lemma trim_blank s : trim s = "" <-> blank s.
Proof.
  split.
  - intros H. destruct (trim_spec s) as [(l & r & E & Hl & Hr) _].
    rewrite H, string_app_nil_l in E. subst. apply blank_app; assumption.
  - intros H. unfold trim. rewrite (blank_trimStart s H). reflexivity.
Qed.

End WhiteSpaceFacts.

Section UpperCaseFacts.
Import JsString StringDefs.

Lemma upperTable_good e : In e upperTable -> goodEntry e = true.
Proof.
  assert (H : forallb goodEntry upperTable = true) by (vm_compute; reflexivity).
  rewrite forallb_forall in H. apply H.
Qed.

(** What [goodEntry] says of an entry of the table. *)
Lemma upperTable_entry k v :
  In (k, v) upperTable ->
  (exists b t, k = String b t /\ is_cont b = false /\ all_cont t = true) /\
  starts_with "_" k = false /\
  (exists c u, v = String c u /\ is_cont c = false) /\
  hasLower v = false /\ inert v = true.
Proof.
  intros Hin. pose proof (upperTable_good _ Hin) as H. unfold goodEntry in H.
  cbn [fst snd] in H. rewrite !andb_true_iff, !negb_true_iff in H.
  destruct H as (((((Hk & Hu) & Hne) & Hc) & Hl) & Hi).
  split; [apply headed_char_inv, Hk |]. split; [exact Hu |].
  split; [| split; assumption].
  destruct v as [| c u]; [discriminate |]. apply negb_true_iff in Hc. eauto.
Qed.

Lemma upperAt_some s k v :
  upperAt s = Some (k, v) -> In (k, v) upperTable /\ String.prefix k s = true.
Proof. unfold upperAt. intros H. apply List.find_some in H. exact H. Qed.

(** Whether a mapping applies depends on the bytes of its character
    only. *)
Lemma upperAt_local s s' k v :
  upperAt s' = Some (k, v) -> String.prefix k s = true -> upperAt s <> None.
Proof.
  intros H Hp E. apply upperAt_some in H. destruct H as [Hin _].
  unfold upperAt in E. pose proof (List.find_none _ _ E _ Hin) as Hn.
  cbn [fst] in Hn. congruence.
Qed.

Lemma upperAt_underscore r : upperAt (String "_" r) = None.
Proof.
  destruct (upperAt (String "_" r)) as [[k v] |] eqn:E; [| reflexivity].
  apply upperAt_some in E. destruct E as [Hin Hp].
  destruct (upperTable_entry k v Hin) as ((b & t & -> & _) & Hu & _).
  cbn [String.prefix] in Hp. cbn [starts_with] in Hu.
  destruct (ascii_dec b "_") as [-> |]; [| discriminate].
  rewrite Ascii.eqb_refl in Hu. discriminate.
Qed.

Lemma upperAt_lower b r : is_lower b = true -> upperAt (String b r) <> None.
Proof.
  intros Hb.
  assert (H : forallb (fun n => implb (is_lower (ascii_of_N n))
                                  (existsb (fun e => String.eqb (fst e)
                                                       (String (ascii_of_N n) ""))
                                           upperTable))
                (map N.of_nat (seq 0 256)) = true) by (vm_compute; reflexivity).
  rewrite forallb_forall in H. specialize (H (N_of_ascii b)).
  rewrite ascii_N_embedding, Hb in H. cbn [implb] in H.
  assert (Hin : In (N_of_ascii b) (map N.of_nat (seq 0 256))).
  { apply in_map_iff. exists (N.to_nat (N_of_ascii b)).
    split; [apply N2Nat.id |]. apply in_seq.
    pose proof (N_ascii_bounded b). lia. }
  apply H, existsb_exists in Hin. destruct Hin as ([k v] & Hin & Ek).
  cbn [fst] in Ek. apply String.eqb_eq in Ek. subst k.
  intros E. unfold upperAt in E. pose proof (List.find_none _ _ E _ Hin) as Hn.
  cbn [fst] in Hn. change (String b r) with (String b "" ++ r)%string in Hn.
  rewrite prefix_app_l in Hn. discriminate.
Qed.

Lemma toUpperCase_from_skip a r :
  toUpperCase_from (String.length a) (a ++ r) = toUpperCase r.
Proof.
  induction a as [| x a IH]; [destruct r; reflexivity |].
  rewrite string_app_cons. cbn [String.length toUpperCase_from]. exact IH.
Qed.

Lemma toUpperCase_key k v r :
  upperAt (k ++ r) = Some (k, v) -> toUpperCase (k ++ r) = (v ++ toUpperCase r)%string.
Proof.
  intros H. pose proof (upperAt_some _ _ _ H) as [Hin _].
  destruct (upperTable_entry k v Hin) as ((b & t & -> & _) & _).
  rewrite string_app_cons in *. unfold toUpperCase at 1. cbn [toUpperCase_from].
  rewrite H. cbn [String.length].
  replace (S (String.length t) - 1)%nat with (String.length t) by lia.
  rewrite toUpperCase_from_skip. reflexivity.
Qed.

Lemma toUpperCase_raw b r :
  upperAt (String b r) = None -> toUpperCase (String b r) = String b (toUpperCase r).
Proof. intros H. unfold toUpperCase. cbn [toUpperCase_from]. rewrite H. reflexivity. Qed.

(** Induction along the scan of [toUpperCase]. *)
Lemma upper_ind (P : string -> Prop) :
  P "" ->
  (forall k v r, upperAt (k ++ r) = Some (k, v) -> P r -> P (k ++ r)%string) ->
  (forall b r, upperAt (String b r) = None -> P r -> P (String b r)) ->
  forall s, P s.
Proof.
  intros Hnil Hkey Hraw s.
  remember (String.length s) as n eqn:Hn. revert s Hn.
  induction n as [n IH] using lt_wf_ind. intros s ->.
  destruct s as [| b r]; [exact Hnil |].
  destruct (upperAt (String b r)) as [[k v] |] eqn:E.
  - pose proof (upperAt_some _ _ _ E) as [Hin Hp].
    apply prefix_spec in Hp. destruct Hp as (r' & Hr'). rewrite Hr' in *.
    apply (Hkey k v); [exact E |].
    apply (IH (String.length r')); [| reflexivity].
    destruct (upperTable_entry k v Hin) as ((c & t & -> & _) & _).
    rewrite string_app_length. cbn [String.length]. lia.
  - apply Hraw; [exact E |]. apply (IH (String.length r)); [cbn; lia | reflexivity].
Qed.

Lemma settled_app a r : settled (a ++ r) = true -> settled r = true.
Proof.
  induction a as [| x a IH]; [auto |].
  rewrite string_app_cons. cbn [settled].
  destruct (upperAt _); [discriminate | exact IH].
Qed.

(** A string on which no mapping applies is its own upper case. *)
Lemma toUpperCase_settled s : settled s = true -> toUpperCase s = s.
Proof.
  induction s as [| b r IH]; [reflexivity |]. cbn [settled].
  destruct (upperAt (String b r)) eqn:E; [discriminate |].
  intros H. rewrite (toUpperCase_raw _ _ E), (IH H). reflexivity.
Qed.

Lemma inert_app v rest : inert v = true -> settled rest = true -> settled (v ++ rest) = true.
Proof.
  intros Hv Hrest. induction v as [| c v IH]; [exact Hrest |].
  cbn [inert] in Hv. apply andb_true_iff in Hv. destruct Hv as [Hc Hv].
  rewrite string_app_cons. cbn [settled]. rewrite <- string_app_cons.
  destruct (upperAt (String c v ++ rest)) as [[k u] |] eqn:E.
  - exfalso. apply upperAt_some in E. destruct E as [Hin Hp].
    rewrite forallb_forall in Hc. specialize (Hc _ Hin). cbn [fst] in Hc.
    unfold apart in Hc. rewrite andb_true_iff, !negb_true_iff in Hc.
    destruct (prefix_app_case _ _ _ Hp); destruct Hc; congruence.
  - apply IH, Hv.
Qed.

(** Continuation bytes at the head of the upper case were there
    before. *)
Lemma cont_prefix_upper c : forall r,
  all_cont c = true -> String.prefix c (toUpperCase r) = true -> String.prefix c r = true.
Proof.
  induction c as [| x c IH]; intros r Hc Hp; [apply prefix_nil |].
  cbn [all_cont] in Hc. apply andb_true_iff in Hc. destruct Hc as [Hx Hc].
  destruct r as [| b r]; [discriminate |].
  destruct (upperAt (String b r)) as [[k v] |] eqn:E.
  - exfalso. pose proof (upperAt_some _ _ _ E) as [Hin Hk].
    apply prefix_spec in Hk. destruct Hk as (r' & Hr'). rewrite Hr' in *.
    rewrite (toUpperCase_key _ _ _ E) in Hp.
    destruct (upperTable_entry k v Hin) as (_ & _ & (y & u & -> & Hy) & _).
    rewrite string_app_cons in Hp. cbn [String.prefix] in Hp.
    destruct (ascii_dec x y) as [-> |]; [congruence | discriminate].
  - rewrite (toUpperCase_raw _ _ E) in Hp. cbn [String.prefix] in *.
    destruct (ascii_dec x b); [| discriminate]. apply IH; assumption.
Qed.

(** No mapping applies on an upper case. *)
Lemma settled_toUpperCase s : settled (toUpperCase s) = true.
Proof.
  induction s as [| k v r Hk IH | b r Hb IH] using upper_ind; [reflexivity | |].
  - rewrite (toUpperCase_key _ _ _ Hk).
    pose proof (upperAt_some _ _ _ Hk) as [Hin _].
    destruct (upperTable_entry k v Hin) as (_ & _ & _ & _ & Hi).
    apply inert_app; assumption.
  - rewrite (toUpperCase_raw _ _ Hb). cbn [settled].
    destruct (upperAt (String b (toUpperCase r))) as [[k v] |] eqn:E; [| exact IH].
    exfalso. pose proof (upperAt_some _ _ _ E) as [Hin Hp].
    destruct (upperTable_entry k v Hin) as ((x & t & -> & _ & Ht) & _).
    cbn [String.prefix] in Hp. destruct (ascii_dec x b) as [-> |]; [| discriminate].
    apply (upperAt_local (String b r) _ _ _ E); [| exact Hb].
    cbn [String.prefix]. destruct (ascii_dec b b); [| contradiction].
    apply cont_prefix_upper; assumption.
Qed.

Lemma toUpperCase_idempotent s : toUpperCase (toUpperCase s) = toUpperCase s.
Proof. apply toUpperCase_settled, settled_toUpperCase. Qed.

Lemma hasLower_app a b : hasLower (a ++ b) = hasLower a || hasLower b.
Proof.
  induction a as [| x a IH]; [reflexivity |].
  rewrite string_app_cons. cbn [hasLower]. rewrite IH, orb_assoc. reflexivity.
Qed.

Lemma hasLower_toUpperCase s : hasLower (toUpperCase s) = false.
Proof.
  induction s as [| k v r Hk IH | b r Hb IH] using upper_ind; [reflexivity | |].
  - rewrite (toUpperCase_key _ _ _ Hk), hasLower_app, IH.
    pose proof (upperAt_some _ _ _ Hk) as [Hin _].
    destruct (upperTable_entry k v Hin) as (_ & _ & _ & Hl & _).
    rewrite Hl. reflexivity.
  - rewrite (toUpperCase_raw _ _ Hb). cbn [hasLower]. rewrite IH, orb_false_r.
    destruct (is_lower b) eqn:E; [| reflexivity].
    destruct (upperAt_lower b r E Hb).
Qed.


End UpperCaseFacts.

Section ReplaceFacts.
Import JsString StringDefs.

Lemma replace_ws_from_skip a r g :
  replace_ws_from (String.length a) (a ++ r) g = replace_ws r g.
Proof.
  induction a as [| x a IH]; [destruct r; reflexivity |].
  rewrite string_app_cons. cbn [String.length replace_ws_from]. exact IH.
Qed.

Lemma replace_ws_space w r g :
  In w whiteSpace ->
  replace_ws (w ++ r) g
  = if g then replace_ws r true else String "_" (replace_ws r true).
Proof.
  intros Hw. pose proof (space_width_app w r Hw) as Hsw.
  destruct (whiteSpace_shape w Hw) as [Hh _].
  apply headed_char_inv in Hh. destruct Hh as (b & t & -> & _).
  rewrite string_app_cons in *. unfold replace_ws at 1. cbn [replace_ws_from].
  rewrite Hsw. cbn [String.length]. rewrite !replace_ws_from_skip. reflexivity.
Qed.

Lemma replace_ws_raw b r g :
  space_width (String b r) = 0%nat ->
  replace_ws (String b r) g = String b (replace_ws r false).
Proof. intros H. unfold replace_ws. cbn [replace_ws_from]. rewrite H. reflexivity. Qed.

(** Continuation bytes at the head of the result were there before. *)
Lemma cont_prefix_replace c : forall r,
  all_cont c = true -> String.prefix c (replace_ws r false) = true ->
  String.prefix c r = true.
Proof.
  induction c as [| x c IH]; intros r Hc Hp; [apply prefix_nil |].
  cbn [all_cont] in Hc. apply andb_true_iff in Hc. destruct Hc as [Hx Hc].
  destruct r as [| b r]; [discriminate |].
  destruct (space_width (String b r)) as [| k] eqn:E.
  - rewrite (replace_ws_raw _ _ _ E) in Hp. cbn [String.prefix] in *.
    destruct (ascii_dec x b); [| discriminate]. apply IH; assumption.
  - exfalso. apply space_width_some in E. destruct E as (w & r' & Hw & E & _).
    rewrite E, (replace_ws_space _ _ _ Hw) in Hp. cbn [String.prefix] in Hp.
    destruct (ascii_dec x "_") as [-> |]; [discriminate Hx | discriminate].
Qed.

Lemma space_width_underscore r : space_width (String "_" r) = 0%nat.
Proof.
  apply space_width_none. intros w Hw.
  destruct (whiteSpace_shape w Hw) as [Hh Hu].
  apply headed_char_inv in Hh. destruct Hh as (b & t & -> & _).
  cbn [String.prefix]. cbn [starts_with] in Hu.
  destruct (ascii_dec b "_") as [-> |]; [| reflexivity].
  rewrite Ascii.eqb_refl in Hu. discriminate.
Qed.

(** The result of the replacement holds no white space. *)
Lemma spaceless_replace_ws s : forall g, spaceless (replace_ws s g) = true.
Proof.
  induction s as [| w r Hw IH | b r Hb IH] using space_ind; intros g; [reflexivity | |].
  - rewrite (replace_ws_space _ _ _ Hw). destruct g; [apply IH |].
    cbn [spaceless]. rewrite space_width_underscore, IH. reflexivity.
  - rewrite (replace_ws_raw _ _ _ Hb). cbn [spaceless]. rewrite IH, andb_true_r.
    apply Nat.eqb_eq, space_width_none. intros w Hw.
    destruct (String.prefix w (String b (replace_ws r false))) eqn:Hp; [| reflexivity].
    exfalso. destruct (whiteSpace_shape w Hw) as [Hh _].
    apply headed_char_inv in Hh. destruct Hh as (x & t & -> & _ & Ht).
    cbn [String.prefix] in Hp. destruct (ascii_dec x b) as [-> |]; [| discriminate].
    pose proof (proj1 (space_width_none _) Hb _ Hw) as Hn. cbn [String.prefix] in Hn.
    destruct (ascii_dec b b); [| contradiction].
    rewrite (cont_prefix_replace _ _ Ht Hp) in Hn. discriminate.
Qed.

Lemma replace_ws_spaceless s : forall g, spaceless s = true -> replace_ws s g = s.
Proof.
  induction s as [| b r IH]; intros g; [reflexivity |]. cbn [spaceless].
  intros H. apply andb_true_iff in H. destruct H as [H0 Hr]. apply Nat.eqb_eq in H0.
  rewrite (replace_ws_raw _ _ _ H0), (IH _ Hr). reflexivity.
Qed.

Lemma settled_replace_ws s : forall g, settled s = true -> settled (replace_ws s g) = true.
Proof.
  induction s as [| w r Hw IH | b r Hb IH] using space_ind; intros g Hs; [reflexivity | |].
  - apply settled_app in Hs. rewrite (replace_ws_space _ _ _ Hw).
    destruct g; [apply IH, Hs |]. cbn [settled]. rewrite upperAt_underscore. apply IH, Hs.
  - rewrite (replace_ws_raw _ _ _ Hb). cbn [settled] in *.
    destruct (upperAt (String b r)) eqn:Eb; [discriminate |].
    destruct (upperAt (String b (replace_ws r false))) as [[k v] |] eqn:E; [| apply IH, Hs].
    exfalso. pose proof (upperAt_some _ _ _ E) as [Hin Hp].
    destruct (upperTable_entry k v Hin) as ((x & t & -> & _ & Ht) & _).
    cbn [String.prefix] in Hp. destruct (ascii_dec x b) as [-> |]; [| discriminate].
    apply (upperAt_local (String b r) _ _ _ E); [| exact Eb].
    cbn [String.prefix]. destruct (ascii_dec b b); [| contradiction].
    apply cont_prefix_replace; assumption.
Qed.


Lemma trimEnd_spaceless s : spaceless s = true -> trimEnd s = s.
Proof.
  induction s as [| b r IH]; [reflexivity |]. cbn [spaceless trimEnd].
  intros H. apply andb_true_iff in H. destruct H as [H0 Hr]. apply Nat.eqb_eq in H0.
  unfold all_space. rewrite (trimStart_none _ H0). cbn [String.eqb].
  rewrite (IH Hr). reflexivity.
Qed.

Lemma trim_spaceless s : spaceless s = true -> trim s = s.
Proof.
  intros H. unfold trim.
  assert (Hs : trimStart s = s).
  { destruct s as [| b r]; [reflexivity |]. cbn [spaceless] in H.
    apply andb_true_iff in H. destruct H as [H0 _]. apply Nat.eqb_eq in H0.
    apply trimStart_none, H0. }
  rewrite Hs. apply trimEnd_spaceless, H.
Qed.

End ReplaceFacts.

(** ** Validation of extraction results *)

Section ValidationFacts.
Import Validation ValidationDefs.


Lemma nonBlankString_inv v s :
  nonBlankString v = Some s -> v = Some (JStr s) /\ JsString.trim s <> "".
Proof.
  unfold nonBlankString. destruct v as [[| | | t | |] |]; try discriminate.
  destruct (String.eqb_spec (JsString.trim t) ""); [discriminate |].
  intros [= ->]. split; [reflexivity | assumption].
Qed.

(** The test [typeof v === "string" && v.trim()] holds of the strings
    that are not made of white space only. *)
Lemma nonBlankString_spec v :
  (exists s, nonBlankString v = Some s) <-> (exists s, v = Some (JStr s) /\ ~ blank s).
Proof.
  split.
  - intros (s & H). apply nonBlankString_inv in H. destruct H as [-> Hs].
    exists s. split; [reflexivity |]. rewrite <- trim_blank. exact Hs.
  - intros (s & -> & Hs). exists s. unfold nonBlankString.
    destruct (String.eqb_spec (JsString.trim s) "") as [E |]; [| reflexivity].
    apply trim_blank in E. contradiction.
Qed.







End ValidationFacts.



(** ** Tiered adapter: failures of the two stores *)

Section TieredFailures.
Context {W : Type}.
Variable hot cold : Adapter.BaseAdapter W.
Variable config : Tiered.Config.
Variable userId : string.

Ltac run_tiered :=
  unfold Tiered.upsertFact, Tiered.updateFact, Tiered.deleteFact,
         Tiered.ensureInitialized, Tiered.swallow, Tiered.call,
         bind, try_catch, all2, ret; cbn [Tiered.initialized Tiered.world].

Ltac step H :=
  rewrite H; cbv beta iota; cbn [Tiered.initialized Tiered.world].

(** A failure of the cold write fails [upsertFact]; the hot adapter is
    not called. *)
Lemma upsertFact_cold_failure fact w e w' :
  Adapter.upsertFact cold userId fact w = (Err e, w') ->
  Tiered.upsertFact hot cold config userId fact (Tiered.mkState true w)
  = (Err e, Tiered.mkState true w').
Proof. intros Hcold. run_tiered. step Hcold. reflexivity. Qed.

(** A failure of the hot write fails [upsertFact] as well, although the
    cold write is done. *)
Lemma upsertFact_hot_failure fact w saved w1 e w2 :
  Adapter.upsertFact cold userId fact w = (Ok saved, w1) ->
  Adapter.upsertFact hot userId (asInput saved) w1 = (Err e, w2) ->
  Tiered.upsertFact hot cold config userId fact (Tiered.mkState true w)
  = (Err e, Tiered.mkState true w2).
Proof. intros Hcold Hhot. run_tiered. step Hcold. step Hhot. reflexivity. Qed.

Lemma updateFact_cold_failure factId updates w e w' :
  Adapter.updateFact cold userId factId updates w = (Err e, w') ->
  Tiered.updateFact hot cold userId factId updates (Tiered.mkState true w)
  = (Err e, Tiered.mkState true w').
Proof. intros Hcold. run_tiered. step Hcold. reflexivity. Qed.

(** A failure of the hot update is swallowed: the cold result is
    returned. *)
Lemma updateFact_hot_failure_swallowed factId updates w updated w1 e w2 :
  Adapter.updateFact cold userId factId updates w = (Ok updated, w1) ->
  Adapter.updateFact hot userId factId updates w1 = (Err e, w2) ->
  Tiered.updateFact hot cold userId factId updates (Tiered.mkState true w)
  = (Ok updated, Tiered.mkState true w2).
Proof. intros Hcold Hhot. run_tiered. step Hcold. step Hhot. reflexivity. Qed.

Lemma deleteFact_cold_failure factId reason w e w' :
  Adapter.deleteFact cold userId factId reason w = (Err e, w') ->
  exists s',
    Tiered.deleteFact hot cold userId factId reason (Tiered.mkState true w)
    = (Err e, s').
Proof.
  intros Hcold. run_tiered. step Hcold.
  destruct (Adapter.deleteFact hot userId factId reason w') as [[[] | e'] w2]; eauto.
Qed.

Lemma deleteFact_hot_failure_swallowed factId reason w w1 e w2 :
  Adapter.deleteFact cold userId factId reason w = (Ok tt, w1) ->
  Adapter.deleteFact hot userId factId reason w1 = (Err e, w2) ->
  Tiered.deleteFact hot cold userId factId reason (Tiered.mkState true w)
  = (Ok tt, Tiered.mkState true w2).
Proof. intros Hcold Hhot. run_tiered. step Hcold. step Hhot. reflexivity. Qed.

End TieredFailures.

(** C3 (the code at the failing input): with a cold adapter that works
    and a hot adapter that cannot be reached, [upsertFact] stores the
    fact in the cold adapter and then rejects with the hot adapter's
    error: the hot failure is not swallowed, unlike in [updateFact] and
    [deleteFact]. *)
Theorem C3_upsertFact_hot_failure_rejects :
  let call :=
    Tiered.upsertFact TieredDefs.offline (InMemory.adapter InMemory.Cold)
      TieredDefs.testConfig "user1" TieredDefs.nameInput
      (Tiered.mkState true ResolverDefs.freshWorld) in
  fst call = Err TieredDefs.unreachable /\
  map (fun e => object (snd e))
      (TieredDefs.factsOf InMemory.Cold "user1" (Tiered.world (snd call)))
  = ["John"].
Proof. split; vm_compute; reflexivity. Qed.

(** ** The in-memory adapter, operation by operation *)

Section InMemoryRuns.
Import InMemory TieredDefs.

Lemma sameEnv_refl w : sameEnv w w.
Proof. repeat split. Qed.

Lemma sameEnv_trans w1 w2 w3 : sameEnv w1 w2 -> sameEnv w2 w3 -> sameEnv w1 w3.
Proof. unfold sameEnv. intuition congruence. Qed.

Lemma sameFacts_refl w : sameFacts w w.
Proof. intros t u. reflexivity. Qed.

Lemma sameFacts_trans w1 w2 w3 : sameFacts w1 w2 -> sameFacts w2 w3 -> sameFacts w1 w3.
Proof. intros H12 H23 t u. rewrite H23. apply H12. Qed.

Lemma sameEnv_setStore t s w : sameEnv w (setStore t s w).
Proof. destruct t; repeat split. Qed.

Lemma store_setStore t s w : store t (setStore t s w) = s.
Proof. destruct t; reflexivity. Qed.

Lemma store_setStore_other t t' s w : t' <> t -> store t' (setStore t s w) = store t' w.
Proof. destruct t, t'; intros H; try reflexivity; contradiction. Qed.

Lemma tier_eq_dec (t t' : Tier) : {t = t'} + {t <> t'}.
Proof. decide equality. Qed.

(** Replacing the facts of one user of one store. *)
Lemma factsOf_put t u fs w flag t' u' :
  factsOf t' u'
    (setStore t (mkStore flag (<[u := mkUserData fs]> (users (store t w)))) w)
  = if tier_eq_dec t' t
    then if String.eqb u' u then fs else factsOf t' u' w
    else factsOf t' u' w.
Proof.
  unfold factsOf. destruct (tier_eq_dec t' t) as [-> | Hne].
  - rewrite store_setStore. cbn [users].
    destruct (String.eqb_spec u' u) as [-> | Hu].
    + rewrite lookup_insert_eq. reflexivity.
    + rewrite lookup_insert_ne by congruence. reflexivity.
  - rewrite store_setStore_other by exact Hne. reflexivity.
Qed.

Lemma initialize_run t w :
  exists w', initialize t w = (Ok tt, w') /\ sameEnv w w' /\ sameFacts w w'.
Proof.
  eexists. split; [reflexivity |]. split; [apply sameEnv_setStore |].
  intros t' u'. unfold factsOf.
  destruct (tier_eq_dec t' t) as [-> | Hne].
  - rewrite store_setStore. reflexivity.
  - rewrite store_setStore_other by exact Hne. reflexivity.
Qed.

Lemma ensureInitialized_run t w :
  exists w', ensureInitialized t w = (Ok tt, w') /\ sameEnv w w' /\ sameFacts w w'.
Proof.
  unfold ensureInitialized. destruct (initialized (store t w)).
  - exists w. split; [reflexivity |]. split; [apply sameEnv_refl | apply sameFacts_refl].
  - apply initialize_run.
Qed.

Lemma getUserData_run t u w :
  exists w',
    getUserData t u w = (Ok (mkUserData (factsOf t u w)), w') /\
    sameEnv w w' /\ sameFacts w w'.
Proof.
  unfold getUserData, factsOf at 1.
  destruct (users (store t w) !! u) as [[fs] |] eqn:E.
  - exists w. split; [reflexivity |]. split; [apply sameEnv_refl | apply sameFacts_refl].
  - eexists. split; [reflexivity |]. split; [apply sameEnv_setStore |].
    intros t' u'. rewrite factsOf_put.
    destruct (tier_eq_dec t' t) as [-> | Hne]; [| reflexivity].
    destruct (String.eqb_spec u' u) as [-> | Hu]; [| reflexivity].
    unfold factsOf. rewrite E. reflexivity.
Qed.

(** Every operation starts by making sure the adapter is initialized
    and by fetching the user's record: the continuation runs on the
    user's facts, in a state with the same facts and environment. *)
Lemma enter_run {A} t u (k : UserData -> M World A) w :
  exists w1,
    bind (ensureInitialized t) (fun _ => bind (getUserData t u) k) w
    = k (mkUserData (factsOf t u w)) w1 /\
    sameEnv w w1 /\ sameFacts w w1.
Proof.
  destruct (ensureInitialized_run t w) as (w0 & H0 & He0 & Hf0).
  destruct (getUserData_run t u w0) as (w1 & H1 & He1 & Hf1).
  exists w1. unfold bind at 1. rewrite H0. unfold bind at 1. rewrite H1.
  rewrite (Hf0 t u). split; [reflexivity |].
  split; [eapply sameEnv_trans | eapply sameFacts_trans]; eassumption.
Qed.

Lemma setFacts_run t u fs w :
  exists w',
    setFacts t u fs w = (Ok tt, w') /\ sameEnv w w' /\
    factsOf t u w' = fs /\ sameFactsBut t u w w'.
Proof.
  eexists. split; [reflexivity |]. split; [apply sameEnv_setStore |]. split.
  - rewrite factsOf_put. destruct (tier_eq_dec t t); [| congruence].
    rewrite String.eqb_refl. reflexivity.
  - intros t' u' Hne. rewrite factsOf_put.
    destruct (tier_eq_dec t' t) as [-> | Ht]; [| reflexivity].
    destruct (String.eqb_spec u' u) as [-> | Hu]; [| reflexivity].
    destruct Hne; congruence.
Qed.

(** [getFacts] returns the filtered facts of the user and changes no
    fact. *)
Lemma getFacts_run t u filter w :
  exists w',
    getFacts t u filter w
    = (Ok (applyFilter filter (JsMap.values (factsOf t u w))), w') /\
    sameEnv w w' /\ sameFacts w w'.
Proof.
  unfold getFacts.
  destruct (enter_run t u
              (fun userData => ret (applyFilter filter (JsMap.values (facts userData)))) w)
    as (w1 & H1 & He & Hf).
  exists w1. rewrite H1. split; [reflexivity | split; assumption].
Qed.

(** [hardDeleteFact] removes the key from the user's facts of this
    store and touches nothing else. *)
Lemma hardDeleteFact_run t u k w :
  exists w',
    hardDeleteFact t u k w = (Ok tt, w') /\ sameEnv w w' /\
    factsOf t u w' = JsMap.delete k (factsOf t u w) /\ sameFactsBut t u w w'.
Proof.
  unfold hardDeleteFact.
  destruct (enter_run t u
              (fun userData => setFacts t u (JsMap.delete k (facts userData))) w)
    as (w1 & H1 & He & Hf).
  destruct (setFacts_run t u (JsMap.delete k (factsOf t u w)) w1)
    as (w2 & H2 & He2 & Hput & Hbut).
  exists w2. rewrite H1. cbn [facts]. rewrite H2.
  split; [reflexivity |]. split; [eapply sameEnv_trans; eassumption |].
  split; [exact Hput |].
  intros t' u' Hne. rewrite (Hbut t' u' Hne). apply Hf.
Qed.

(** [upsertFact] of a fact that matches no valid stored fact appends a
    fresh fact, stamped with the next clock reading and the next
    identifier. *)
Lemma upsertFact_fresh t u fact w :
  List.find (matches fact) (JsMap.values (factsOf t u w)) = None ->
  let newFact := freshFact fact (uuids w (draws w)) (clock w (ticks w)) in
  exists w',
    upsertFact t u fact w = (Ok newFact, w') /\
    clock w' = clock w /\ uuids w' = uuids w /\
    ticks w' = S (ticks w) /\ draws w' = S (draws w) /\
    factsOf t u w' = JsMap.set (id newFact) newFact (factsOf t u w) /\
    sameFactsBut t u w w'.
Proof.
  intros Hfind newFact. unfold upsertFact.
  match goal with
  | |- context [bind (ensureInitialized t) (fun _ => bind (getUserData t u) ?k)] =>
      destruct (enter_run t u k w) as (w1 & H1 & (Hc & Ht & Hu & Hd) & Hf)
  end.
  rewrite H1. cbn [facts]. unfold matches in Hfind. rewrite Hfind.
  unfold bind at 1, newDate at 1. unfold bind at 1, uuidv4 at 1.
  cbn [clock ticks uuids draws]. rewrite Hc, Ht, Hu, Hd. fold newFact.
  match goal with
  | |- context [bind (setFacts t u ?fs) _ ?w2] =>
      destruct (setFacts_run t u fs w2) as (w3 & H3 & (Hc3 & Ht3 & Hu3 & Hd3) & Hput & Hbut);
      unfold bind; rewrite H3
  end.
  exists w3. split; [reflexivity |].
  cbn [clock ticks uuids draws] in Hc3, Ht3, Hu3, Hd3.
  repeat split; try congruence.
  intros t' u' Hne. rewrite (Hbut t' u' Hne).
  transitivity (factsOf t' u' w1); [| apply Hf].
  unfold factsOf. destruct t'; reflexivity.
Qed.

End InMemoryRuns.

(** ** Arrays and maps *)

Section SortFacts.
Context {A : Type}.
Variable gt : A -> A -> bool.

Lemma insertSorted_perm x l : Permutation (x :: l) (JsArray.insertSorted gt x l).
Proof.
  induction l as [| y r IH]; simpl; [reflexivity |].
  destruct (gt x y); [| reflexivity].
  rewrite perm_swap. apply perm_skip, IH.
Qed.

Lemma sortBy_perm l : Permutation l (JsArray.sortBy gt l).
Proof.
  induction l as [| x r IH]; simpl; [reflexivity |].
  rewrite <- insertSorted_perm. apply perm_skip, IH.
Qed.

Lemma sortBy_length l : List.length (JsArray.sortBy gt l) = List.length l.
Proof. symmetry. apply Permutation_length, sortBy_perm. Qed.

End SortFacts.

Section DemotionOrder.
Import TieredDefs.

Lemma insertSorted_sorted x l :
  StronglySorted notLater l ->
  StronglySorted notLater (JsArray.insertSorted Tiered.updatedLater x l).
Proof.
  induction 1 as [| y r Hr IH Hy]; simpl.
  - constructor; constructor.
  - unfold Tiered.updatedLater at 1. destruct (Z.ltb_spec 0 (updatedAt x - updatedAt y)).
    + constructor; [exact IH |].
      apply (Permutation_Forall (insertSorted_perm _ x r)).
      constructor; [unfold notLater; lia | exact Hy].
    + constructor; [constructor; assumption |].
      constructor; [unfold notLater; lia |].
      apply List.Forall_forall. intros a Ha.
      rewrite List.Forall_forall in Hy. specialize (Hy a Ha).
      unfold notLater in *. lia.
Qed.

Lemma sortBy_sorted l :
  StronglySorted notLater (JsArray.sortBy Tiered.updatedLater l).
Proof.
  induction l as [| x r IH]; simpl; [constructor | apply insertSorted_sorted, IH].
Qed.

(** In a sorted array every element of a prefix is no later than every
    element behind it. *)
Lemma sorted_prefix_first l1 l2 a b :
  StronglySorted notLater (l1 ++ l2) -> In a l1 -> In b l2 -> notLater a b.
Proof.
  induction l1 as [| x r IH]; simpl; [intros _ [] |].
  intros Hs [-> | Ha] Hb; inversion Hs as [| ? ? Hr Hx]; subst.
  - rewrite List.Forall_forall in Hx. apply Hx, in_or_app. right. exact Hb.
  - apply IH; assumption.
Qed.

End DemotionOrder.

Section MapFacts.
Import TieredDefs.
Context {V : Type}.

Lemma has_keyIn k (m : JsMap.t V) : JsMap.has k m = keyIn (map fst m) k.
Proof.
  unfold JsMap.has, keyIn. induction m as [| e m IH]; [reflexivity |].
  simpl. rewrite IH, (String.eqb_sym k). reflexivity.
Qed.

Lemma keyIn_In ks k : keyIn ks k = true <-> In k ks.
Proof.
  unfold keyIn. rewrite existsb_exists. split.
  - intros (x & Hx & E). apply String.eqb_eq in E. subst. exact Hx.
  - intros H. exists k. split; [exact H | apply String.eqb_refl].
Qed.

Lemma keyIn_false ks k : keyIn ks k = false <-> ~ In k ks.
Proof.
  rewrite <- keyIn_In. destruct (keyIn ks k); split; congruence.
Qed.

(** Setting a key that the map does not have appends the entry. *)
Lemma set_fresh k (v : V) (m : JsMap.t V) :
  ~ In k (map fst m) -> JsMap.set k v m = m ++ [(k, v)].
Proof.
  intros Hk. unfold JsMap.set. rewrite has_keyIn.
  apply keyIn_false in Hk. rewrite Hk. reflexivity.
Qed.

Lemma delete_filter k (m : JsMap.t V) :
  JsMap.delete k m = List.filter (fun e => negb (keyIn [k] (fst e))) m.
Proof.
  unfold JsMap.delete, keyIn. apply List.filter_ext. intros e. simpl.
  rewrite orb_false_r. reflexivity.
Qed.

Lemma filter_filter {B} (p q : B -> bool) (l : list B) :
  List.filter q (List.filter p l) = List.filter (fun x => p x && q x) l.
Proof.
  induction l as [| x l IH]; [reflexivity |]. simpl.
  destruct (p x); simpl; [destruct (q x) |]; rewrite IH; reflexivity.
Qed.

(** Deleting keys one after the other keeps the entries under none of
    them. *)
Lemma delete_all (ks : list string) (m : JsMap.t V) :
  fold_left (fun acc k => JsMap.delete k acc) ks m
  = List.filter (fun e => negb (keyIn ks (fst e))) m.
Proof.
  revert m. induction ks as [| k ks IH]; intros m; simpl.
  - induction m as [| e m IHm]; [reflexivity |]. simpl. rewrite <- IHm at 1. reflexivity.
  - rewrite IH, delete_filter, filter_filter. apply List.filter_ext.
    intros e. unfold keyIn. simpl. rewrite orb_false_r, negb_orb. reflexivity.
Qed.

Lemma filter_all {B} (p : B -> bool) (l : list B) :
  Forall (fun x => p x = true) l -> List.filter p l = l.
Proof.
  induction 1 as [| x l Hx _ IH]; [reflexivity |]. simpl. rewrite Hx, IH. reflexivity.
Qed.

Lemma filter_map_fst (p : string -> bool) (m : JsMap.t V) :
  map fst (List.filter (fun e => p (fst e)) m) = List.filter p (map fst m).
Proof.
  induction m as [| e m IH]; [reflexivity |]. simpl.
  destruct (p (fst e)); simpl; rewrite IH; reflexivity.
Qed.

(** Removing distinct keys of a map with distinct keys shortens it by
    their number. *)
Lemma length_without (ks : list string) (m : JsMap.t V) :
  List.NoDup (map fst m) -> List.NoDup ks -> incl ks (map fst m) ->
  (List.length (List.filter (fun e => negb (keyIn ks (fst e))) m)
   = List.length m - List.length ks)%nat.
Proof.
  intros Hm Hks Hincl.
  rewrite <- (length_map fst (List.filter _ m)).
  rewrite (filter_map_fst (fun k => negb (keyIn ks k))).
  pose proof (List.filter_length (keyIn ks) (map fst m)) as Hsplit.
  rewrite length_map in Hsplit.
  assert (Hperm : Permutation (List.filter (keyIn ks) (map fst m)) ks).
  { apply Permutation.NoDup_Permutation; [apply List.NoDup_filter, Hm | exact Hks |].
    intros k. rewrite List.filter_In, keyIn_In. split; [tauto |].
    intros Hk. split; [apply Hincl, Hk | exact Hk]. }
  rewrite (Permutation_length Hperm) in Hsplit. lia.
Qed.

End MapFacts.

(** ** Demotion on a map of facts *)

Section DemotionFacts.
Import TieredDefs.

Variable limit : Z.
Variable m : JsMap.t MemoryFact.
Hypothesis Hkeys : wellKeyed m.
Hypothesis Hvalid : allValid m.
Hypothesis Hlimit : 0 <= limit.

Lemma keys_are_ids : map fst m = map id (JsMap.values m).
Proof.
  destruct Hkeys as [_ Hid]. unfold JsMap.values. clear -Hid.
  induction m as [| e r IH]; [reflexivity |].
  inversion Hid as [| ? ? He Hr]; subst. simpl. rewrite He, (IH Hr). reflexivity.
Qed.

Lemma valid_facts : List.filter InMemory.isValid (JsMap.values m) = JsMap.values m.
Proof.
  apply filter_all. unfold JsMap.values. apply List.Forall_map. exact Hvalid.
Qed.

Lemma values_length : List.length (JsMap.values m) = List.length m.
Proof. apply length_map. Qed.

(** The facts evicted: none while the map is within the limit, else the
    first facts in the order of [updatedAt], as many as exceed it. *)
Lemma evicted_prefix :
  evicted limit m =
  firstn (List.length m - Z.to_nat limit)
         (JsArray.sortBy Tiered.updatedLater (JsMap.values m)).
Proof.
  unfold evicted. rewrite valid_facts, values_length. cbv zeta.
  destruct (Z.ltb_spec limit (Z.of_nat (List.length m))) as [Hlt | Hge].
  - unfold JsArray.slice0.
    destruct (Z.leb_spec 0 (Z.of_nat (List.length m) - limit)); [| lia].
    f_equal. lia.
  - replace (List.length m - Z.to_nat limit)%nat with 0%nat by lia. reflexivity.
Qed.

Lemma evicted_length :
  List.length (evicted limit m) = (List.length m - Z.to_nat limit)%nat.
Proof.
  rewrite evicted_prefix, length_firstn, sortBy_length, values_length. lia.
Qed.

Lemma sorted_split :
  JsArray.sortBy Tiered.updatedLater (JsMap.values m)
  = evicted limit m
    ++ skipn (List.length m - Z.to_nat limit)
             (JsArray.sortBy Tiered.updatedLater (JsMap.values m)).
Proof. rewrite evicted_prefix. symmetry. apply firstn_skipn. Qed.

Lemma sorted_ids_nodup :
  List.NoDup (map id (JsArray.sortBy Tiered.updatedLater (JsMap.values m))).
Proof.
  apply (Permutation_NoDup
           (Permutation_map id (sortBy_perm Tiered.updatedLater (JsMap.values m)))).
  rewrite <- keys_are_ids. apply Hkeys.
Qed.

Lemma evicted_ids_nodup : List.NoDup (map id (evicted limit m)).
Proof.
  pose proof sorted_ids_nodup as H. rewrite sorted_split, map_app in H.
  apply NoDup_app_remove_r in H. exact H.
Qed.

Lemma evicted_stored f : In f (evicted limit m) -> In f (JsMap.values m).
Proof.
  intros Hf.
  apply (Permutation_in f
           (Permutation_sym (sortBy_perm Tiered.updatedLater (JsMap.values m)))).
  rewrite sorted_split. apply in_or_app. left. exact Hf.
Qed.

Lemma evicted_ids_incl : incl (map id (evicted limit m)) (map fst m).
Proof.
  intros k Hk. apply in_map_iff in Hk. destruct Hk as (f & <- & Hf).
  rewrite keys_are_ids. apply in_map, evicted_stored, Hf.
Qed.

(** Demotion keeps the entries whose key is not the identifier of an
    evicted fact. *)
Lemma demoted_filter :
  demoted limit m
  = List.filter (fun e => negb (keyIn (map id (evicted limit m)) (fst e))) m.
Proof.
  unfold demoted. rewrite <- delete_all.
  generalize (evicted limit m) as R. generalize m as m0. clear.
  intros m0 R. revert m0.
  induction R as [| f R IH]; intros m0; [reflexivity |]. simpl. apply IH.
Qed.

Lemma demoted_incl : incl (demoted limit m) m.
Proof. rewrite demoted_filter. intros e He. apply List.filter_In in He. tauto. Qed.

Lemma demoted_length :
  List.length (demoted limit m) = Nat.min (List.length m) (Z.to_nat limit).
Proof.
  rewrite demoted_filter, length_without.
  - rewrite length_map, evicted_length. lia.
  - apply Hkeys.
  - apply evicted_ids_nodup.
  - apply evicted_ids_incl.
Qed.

Lemma demoted_wellKeyed : wellKeyed (demoted limit m).
Proof.
  split.
  - rewrite demoted_filter.
    rewrite (filter_map_fst (fun k => negb (keyIn (map id (evicted limit m)) k))).
    apply List.NoDup_filter, Hkeys.
  - apply List.Forall_forall. intros e He.
    destruct Hkeys as [_ Hid]. rewrite List.Forall_forall in Hid.
    apply Hid, demoted_incl, He.
Qed.

Lemma demoted_allValid : allValid (demoted limit m).
Proof.
  apply List.Forall_forall. intros e He.
  unfold allValid in Hvalid. rewrite List.Forall_forall in Hvalid.
  apply Hvalid, demoted_incl, He.
Qed.

(** The facts evicted are the oldest: none was updated after a fact
    that stays. *)
Lemma evicted_oldest f e :
  In f (evicted limit m) -> In e (demoted limit m) -> notLater f (snd e).
Proof.
  intros Hf He.
  apply (sorted_prefix_first (evicted limit m)
           (skipn (List.length m - Z.to_nat limit)
                  (JsArray.sortBy Tiered.updatedLater (JsMap.values m))));
    [rewrite <- sorted_split; apply sortBy_sorted | exact Hf |].
  rewrite demoted_filter in He. apply List.filter_In in He. destruct He as [Hin Hkey].
  assert (Hs : In (snd e) (JsArray.sortBy Tiered.updatedLater (JsMap.values m))).
  { apply (Permutation_in _ (sortBy_perm Tiered.updatedLater (JsMap.values m))).
    apply in_map, Hin. }
  rewrite sorted_split in Hs. apply in_app_or in Hs. destruct Hs as [Hev | Hkept];
    [| exact Hkept].
  exfalso. apply negb_true_iff, keyIn_false in Hkey. apply Hkey.
  destruct Hkeys as [_ Hid]. rewrite List.Forall_forall in Hid.
  rewrite (Hid e Hin). apply in_map, Hev.
Qed.

End DemotionFacts.

(** ** The tiered adapter over two in-memory adapters *)

Section TieredRuns.
Import InMemory TieredDefs.

Local Abbreviation hot := (InMemory.adapter Hot).
Local Abbreviation cold := (InMemory.adapter Cold).

Variable config : Tiered.Config.
Variable userId : string.

Lemma tiered_ensureInitialized_run s :
  exists s',
    Tiered.ensureInitialized hot cold s = (Ok tt, s') /\
    sameEnv (Tiered.world s) (Tiered.world s') /\
    sameFacts (Tiered.world s) (Tiered.world s').
Proof.
  unfold Tiered.ensureInitialized. destruct (Tiered.initialized s).
  - exists s. split; [reflexivity |]. split; [apply sameEnv_refl | apply sameFacts_refl].
  - destruct (initialize_run Hot (Tiered.world s)) as (w1 & H1 & He1 & Hf1).
    destruct (initialize_run Cold w1) as (w2 & H2 & He2 & Hf2).
    exists (Tiered.mkState true w2).
    unfold Tiered.initialize, bind, all2, Tiered.call.
    cbn [Adapter.initialize adapter]. rewrite H1. cbn [Tiered.world]. rewrite H2.
    split; [reflexivity |]. cbn [Tiered.world].
    split; [eapply sameEnv_trans | eapply sameFacts_trans]; eassumption.
Qed.

(** The loop of [demoteOldFacts]: the facts are deleted from the hot
    adapter one by one; nothing else changes. *)
Lemma evict_loop_run (toRemove : list MemoryFact) s :
  exists s',
    forEach toRemove
      (fun fact =>
         Tiered.swallow (Tiered.call (Adapter.hardDeleteFact hot userId (id fact)))) s
    = (Ok tt, s') /\
    sameEnv (Tiered.world s) (Tiered.world s') /\
    factsOf Hot userId (Tiered.world s')
    = fold_left (fun acc f => JsMap.delete (id f) acc) toRemove
                (factsOf Hot userId (Tiered.world s)) /\
    sameFactsBut Hot userId (Tiered.world s) (Tiered.world s').
Proof.
  revert s. induction toRemove as [| fact rest IH]; intros s.
  - exists s. split; [reflexivity |]. split; [apply sameEnv_refl |].
    split; [reflexivity |]. intros t u _. reflexivity.
  - destruct (hardDeleteFact_run Hot userId (id fact) (Tiered.world s))
      as (w1 & H1 & He1 & Hdel & Hbut1).
    destruct (IH (Tiered.mkState (Tiered.initialized s) w1))
      as (s' & Hloop & He & Hfacts & Hbut).
    exists s'. cbn [forEach]. unfold bind at 1.
    unfold Tiered.swallow, try_catch, bind, Tiered.call, ret.
    cbn [Adapter.hardDeleteFact adapter]. rewrite H1.
    split; [exact Hloop |]. cbn [Tiered.world] in *.
    split; [eapply sameEnv_trans; eassumption |].
    split; [rewrite Hfacts, Hdel; reflexivity |].
    intros t u Hne. rewrite (Hbut t u Hne). apply Hbut1, Hne.
Qed.

(** [demoteOldFacts] always returns; it changes the hot facts of the
    user as [demoted] says and no other fact. *)
Lemma demoteOldFacts_run s :
  exists s',
    Tiered.demoteOldFacts hot config userId s = (Ok tt, s') /\
    sameEnv (Tiered.world s) (Tiered.world s') /\
    factsOf Hot userId (Tiered.world s')
    = demoted (Tiered.hotFactLimit config) (factsOf Hot userId (Tiered.world s)) /\
    sameFactsBut Hot userId (Tiered.world s) (Tiered.world s').
Proof.
  destruct (getFacts_run Hot userId (Some (validOnlyFilter true)) (Tiered.world s))
    as (w1 & H1 & He1 & Hf1).
  unfold Tiered.demoteOldFacts. unfold bind at 1, Tiered.call at 1.
  cbn [Adapter.getFacts adapter]. rewrite H1.
  change (applyFilter (Some (validOnlyFilter true))
            (JsMap.values (factsOf Hot userId (Tiered.world s))))
    with (List.filter isValid (JsMap.values (factsOf Hot userId (Tiered.world s)))).
  unfold demoted, evicted. cbv zeta.
  destruct (Tiered.hotFactLimit config <? _).
  - destruct (evict_loop_run
                (JsArray.slice0
                   (Z.of_nat (List.length
                      (List.filter isValid
                         (JsMap.values (factsOf Hot userId (Tiered.world s)))))
                    - Tiered.hotFactLimit config)
                   (JsArray.sortBy Tiered.updatedLater
                      (List.filter isValid
                         (JsMap.values (factsOf Hot userId (Tiered.world s))))))
                (Tiered.mkState (Tiered.initialized s) w1))
      as (s' & Hloop & He & Hfacts & Hbut).
    exists s'. split; [exact Hloop |]. cbn [Tiered.world] in *.
    split; [eapply sameEnv_trans; eassumption |].
    split; [rewrite Hfacts, (Hf1 Hot userId); reflexivity |].
    intros t u Hne. rewrite (Hbut t u Hne). apply Hf1.
  - exists (Tiered.mkState (Tiered.initialized s) w1). split; [reflexivity |].
    cbn [Tiered.world fold_left]. split; [exact He1 |]. split; [apply Hf1 |].
    intros t u _. apply Hf1.
Qed.

(** A write through the tiered adapter of a fact that matches no valid
    fact of either store: the cold adapter creates the fact, the hot
    adapter creates its own copy of it, then the hot facts are demoted. *)
Lemma tiered_upsertFact_fresh fact s :
  let w := Tiered.world s in
  Tiered.autoDemote config = true ->
  List.find (matches fact) (JsMap.values (factsOf Cold userId w)) = None ->
  List.find (matches fact) (JsMap.values (factsOf Hot userId w)) = None ->
  let saved := freshFact fact (uuids w (draws w)) (clock w (ticks w)) in
  let copy := freshFact (asInput saved) (uuids w (S (draws w))) (clock w (S (ticks w))) in
  exists s',
    Tiered.upsertFact hot cold config userId fact s = (Ok saved, s') /\
    clock (Tiered.world s') = clock w /\ uuids (Tiered.world s') = uuids w /\
    ticks (Tiered.world s') = S (S (ticks w)) /\
    draws (Tiered.world s') = S (S (draws w)) /\
    factsOf Cold userId (Tiered.world s')
    = JsMap.set (id saved) saved (factsOf Cold userId w) /\
    factsOf Hot userId (Tiered.world s')
    = demoted (Tiered.hotFactLimit config)
              (JsMap.set (id copy) copy (factsOf Hot userId w)).
Proof.
  intros w Hauto Hcold Hhot saved copy. subst w.
  destruct (tiered_ensureInitialized_run s) as (s0 & H0 & (Hc0 & Ht0 & Hu0 & Hd0) & Hf0).
  destruct (upsertFact_fresh Cold userId fact (Tiered.world s0))
    as (w1 & H1 & Hc1 & Hu1 & Ht1 & Hd1 & Hput1 & Hbut1);
    [rewrite (Hf0 Cold userId); exact Hcold |].
  rewrite Hc0, Ht0, Hu0, Hd0 in H1, Hput1. fold saved in H1, Hput1.
  destruct (upsertFact_fresh Hot userId (asInput saved) w1)
    as (w2 & H2 & Hc2 & Hu2 & Ht2 & Hd2 & Hput2 & Hbut2).
  { rewrite (Hbut1 Hot userId) by (left; discriminate).
    rewrite (Hf0 Hot userId). exact Hhot. }
  rewrite Hc1, Hu1, Ht1, Hd1, Hc0, Ht0, Hu0, Hd0 in H2, Hput2.
  fold copy in H2, Hput2.
  destruct (demoteOldFacts_run (Tiered.mkState (Tiered.initialized s0) w2))
    as (s3 & H3 & (Hc3 & Ht3 & Hu3 & Hd3) & Hdem & Hbut3).
  cbn [Tiered.world] in *.
  exists s3. split.
  - unfold Tiered.upsertFact, bind, Tiered.call, ret.
    cbn [Adapter.upsertFact adapter]. rewrite H0, H1.
    cbv beta iota. cbn [Tiered.world Tiered.initialized]. rewrite H2.
    cbv beta iota. rewrite Hauto, H3. reflexivity.
  - rewrite Hc3, Hu3, Ht3, Hd3, Hc2, Hu2, Ht2, Hd2, Hc1, Hu1, Ht1, Hd1.
    repeat split; try congruence.
    + rewrite (Hbut3 Cold userId) by (left; discriminate).
      rewrite (Hbut2 Cold userId) by (left; discriminate).
      rewrite Hput1, (Hf0 Cold userId). reflexivity.
    + rewrite Hdem, Hput2.
      rewrite (Hbut1 Hot userId) by (left; discriminate).
      rewrite (Hf0 Hot userId). reflexivity.
Qed.

End TieredRuns.

(** ** Writing distinct facts through the tiered adapter *)

Section TieringInvariant.
Import InMemory TieredDefs.

Local Abbreviation hot := (InMemory.adapter Hot).
Local Abbreviation cold := (InMemory.adapter Cold).

Variable config : Tiered.Config.
Variable userId : string.
Hypothesis Hlimit : 0 <= Tiered.hotFactLimit config.
Hypothesis Hauto : Tiered.autoDemote config = true.

Lemma distinctIds_inj uuids n i j :
  distinctIds uuids n -> (i < n)%nat -> (j < n)%nat -> uuids i = uuids j -> i = j.
Proof.
  unfold distinctIds. intros Hnd Hi Hj E.
  apply (proj1 (List.NoDup_nth (map uuids (seq 0 n)) "") Hnd);
    rewrite ?length_map, ?length_seq; try assumption.
  rewrite !(List.nth_indep _ "" (uuids 0%nat)), !List.map_nth
    by (rewrite length_map, length_seq; assumption).
  rewrite !List.seq_nth by assumption. exact E.
Qed.

(** No stored fact matches a fact whose key is new. *)
Lemma find_none_tracked K w m fact :
  tracked K w m -> ~ In (inputKey fact) K ->
  List.find (matches fact) (JsMap.values m) = None.
Proof.
  intros Htr Hnew. unfold JsMap.values.
  induction Htr as [| e r [Hk _] _ IH]; [reflexivity |].
  simpl. rewrite IH. unfold matches.
  destruct (String.eqb_spec (subject (snd e)) (in_subject fact)) as [Es |]; [| reflexivity].
  destruct (String.eqb_spec (predicate (snd e)) (in_predicate fact)) as [Ep |];
    [| reflexivity].
  exfalso. apply Hnew. unfold inputKey. rewrite <- Es, <- Ep. exact Hk.
Qed.

(** An identifier not drawn yet is the key of no tracked entry. *)
Lemma tracked_fresh_key K w m n d :
  tracked K w m -> distinctIds (uuids w) n ->
  (draws w <= d)%nat -> (d < n)%nat ->
  ~ In (uuids w d) (map fst m).
Proof.
  intros Htr Hids Hd Hn Hin. apply in_map_iff in Hin. destruct Hin as (e & Ee & He).
  unfold tracked in Htr. rewrite List.Forall_forall in Htr.
  destruct (Htr e He) as (_ & j & Hj & Ej).
  assert (j = d) by (apply (distinctIds_inj (uuids w) n); [assumption | lia | lia | congruence]).
  lia.
Qed.

Lemma tracked_grow K w w' m key :
  tracked K w m -> uuids w' = uuids w -> (draws w <= draws w')%nat ->
  tracked (key :: K) w' m.
Proof.
  intros Htr Hu Hd. unfold tracked in *. eapply List.Forall_impl; [| exact Htr].
  intros e (Hk & j & Hj & Ej). split; [right; exact Hk |].
  exists j. rewrite Hu. split; [lia | exact Ej].
Qed.

Lemma tracked_incl K w m m' : incl m' m -> tracked K w m -> tracked K w m'.
Proof.
  intros Hincl Htr. unfold tracked in *. rewrite List.Forall_forall in *.
  intros e He. apply Htr, Hincl, He.
Qed.

(** One more fact with a new key, valid on arrival. *)
Lemma tiered_step fact s K n :
  tiered (Tiered.hotFactLimit config) userId K (Tiered.world s) ->
  ~ In (inputKey fact) K ->
  in_invalidatedAt fact = None ->
  distinctIds (uuids (Tiered.world s)) n ->
  (draws (Tiered.world s) + 2 <= n)%nat ->
  exists saved s',
    Tiered.upsertFact hot cold config userId fact s = (Ok saved, s') /\
    tiered (Tiered.hotFactLimit config) userId (inputKey fact :: K) (Tiered.world s') /\
    uuids (Tiered.world s') = uuids (Tiered.world s) /\
    draws (Tiered.world s') = (draws (Tiered.world s) + 2)%nat.
Proof.
  intros (Hcl & Hhl & Hwk & Hval & Htc & Hth) Hnew Hlive Hids Hroom.
  destruct (tiered_upsertFact_fresh config userId fact s Hauto
              (find_none_tracked _ _ _ _ Htc Hnew) (find_none_tracked _ _ _ _ Hth Hnew))
    as (s' & Hrun & Hc & Hu & Ht & Hd & Hcold & Hhot).
  set (w := Tiered.world s) in *.
  set (saved := freshFact fact (uuids w (draws w)) (clock w (ticks w))) in *.
  set (copy := freshFact (asInput saved) (uuids w (S (draws w))) (clock w (S (ticks w)))) in *.
  exists saved, s'. split; [exact Hrun |]. split; [| split; [exact Hu | lia]].
  assert (Hcold' : factsOf Cold userId (Tiered.world s')
                   = factsOf Cold userId w ++ [(uuids w (draws w), saved)]).
  { rewrite Hcold. apply set_fresh.
    apply (tracked_fresh_key K w _ n (draws w) Htc Hids); lia. }
  assert (Hpre : JsMap.set (id copy) copy (factsOf Hot userId w)
                 = factsOf Hot userId w ++ [(uuids w (S (draws w)), copy)]).
  { apply set_fresh. apply (tracked_fresh_key K w _ n (S (draws w)) Hth Hids); lia. }
  rewrite Hpre in Hhot.
  assert (Hwk' : wellKeyed (factsOf Hot userId w ++ [(uuids w (S (draws w)), copy)])).
  { destruct Hwk as [Hnd Hid]. split.
    - rewrite map_app. simpl. apply List.NoDup_app; repeat split.
      + exact Hnd.
      + constructor; [intros [] | constructor].
      + intros k Hk [<- | []].
        revert Hk. apply (tracked_fresh_key K w _ n (S (draws w)) Hth Hids); lia.
    - apply List.Forall_app. split; [exact Hid |]. constructor; [reflexivity | constructor]. }
  assert (Hval' : allValid (factsOf Hot userId w ++ [(uuids w (S (draws w)), copy)])).
  { apply List.Forall_app. split; [exact Hval |].
    constructor; [| constructor]. unfold isValid. simpl. rewrite Hlive. reflexivity. }
  assert (Htr' : tracked (inputKey fact :: K) (Tiered.world s')
                   (factsOf Hot userId w ++ [(uuids w (S (draws w)), copy)])).
  { apply List.Forall_app. split.
    - apply (tracked_grow K w); [exact Hth | exact Hu | lia].
    - constructor; [| constructor]. split; [left; reflexivity |].
      exists (S (draws w)). rewrite Hu. split; [lia | reflexivity]. }
  unfold tiered. rewrite Hcold', Hhot. repeat split.
  - rewrite length_app. cbn [List.length]. lia.
  - rewrite (demoted_length _ _ Hwk' Hval' Hlimit), length_app. cbn [List.length]. lia.
  - apply (demoted_wellKeyed _ _ Hwk').
  - apply (demoted_wellKeyed _ _ Hwk').
  - apply (demoted_allValid _ _ Hval').
  - apply List.Forall_app. split.
    + apply (tracked_grow K w); [exact Htc | exact Hu | lia].
    + constructor; [| constructor]. split; [left; reflexivity |].
      exists (draws w). rewrite Hu. split; [lia | reflexivity].
  - apply (tracked_incl _ _ _ _ (demoted_incl _ _) Htr').
Qed.

(** Any number of facts with distinct new keys, valid on arrival. *)
Lemma insertAll_tiered fs : forall s K n,
  tiered (Tiered.hotFactLimit config) userId K (Tiered.world s) ->
  List.NoDup (map inputKey fs ++ K) ->
  Forall (fun fact => in_invalidatedAt fact = None) fs ->
  distinctIds (uuids (Tiered.world s)) n ->
  (draws (Tiered.world s) + 2 * List.length fs <= n)%nat ->
  exists s',
    insertAll config userId fs s = (Ok tt, s') /\
    tiered (Tiered.hotFactLimit config) userId
           (rev (map inputKey fs) ++ K) (Tiered.world s').
Proof.
  induction fs as [| fact rest IH]; intros s K n Hinv Hnd Hlive Hids Hroom.
  - exists s. split; [reflexivity | exact Hinv].
  - simpl in Hnd, Hroom. inversion Hlive as [| ? ? Hfact Hrest]; subst.
    assert (Hnew : ~ In (inputKey fact) K).
    { inversion Hnd as [| ? ? Hnotin _]; subst.
      intros Hin. apply Hnotin, in_or_app. right. exact Hin. }
    destruct (tiered_step fact s K n Hinv Hnew Hfact Hids) as (saved & s1 & Hrun & Hinv1 & Hu & Hd);
      [lia |].
    destruct (IH s1 (inputKey fact :: K) n Hinv1) as (s' & Hloop & Hinv').
    + apply (Permutation_NoDup (l := inputKey fact :: map inputKey rest ++ K));
        [apply Permutation_middle | exact Hnd].
    + exact Hrest.
    + rewrite Hu. exact Hids.
    + lia.
    + exists s'. split.
      * unfold insertAll in *. cbn [forEach]. unfold bind at 1, bind at 1.
        rewrite Hrun. unfold ret at 1. exact Hloop.
      * simpl. rewrite <- app_assoc. exact Hinv'.
Qed.

(** Two adapters that hold nothing yet. *)
Lemma tiered_start limit clock uuids :
  tiered limit userId [] (mkWorld clock 0 uuids 0 newStore newStore).
Proof.
  unfold tiered, factsOf, wellKeyed, allValid, tracked. simpl.
  rewrite lookup_empty. simpl.
  repeat split; constructor.
Qed.

End TieringInvariant.

Section DemotionRemoved.
Import TieredDefs.

Lemma in_firstn {B} n (l : list B) x : In x (firstn n l) -> In x l.
Proof.
  intros H. rewrite <- (firstn_skipn n l). apply in_or_app. left. exact H.
Qed.

Lemma same_key_same_entry (m : JsMap.t MemoryFact) e e' :
  List.NoDup (map fst m) -> In e m -> In e' m -> fst e = fst e' -> e = e'.
Proof.
  induction m as [| x r IH]; simpl; [intros _ [] |].
  intros Hnd He He' E. inversion Hnd as [| ? ? Hx Hr]; subst.
  destruct He as [-> | He], He' as [-> | He'].
  - reflexivity.
  - exfalso. apply Hx. rewrite E. apply in_map, He'.
  - exfalso. apply Hx. rewrite <- E. apply in_map, He.
  - apply IH; assumption.
Qed.

(** An entry that demotion removes holds an evicted fact. *)
Lemma removed_evicted limit (m : JsMap.t MemoryFact) e :
  wellKeyed m -> In e m -> ~ In e (demoted limit m) -> In (snd e) (evicted limit m).
Proof.
  intros Hkeys He Hgone. pose proof Hkeys as [Hnd Hid].
  rewrite List.Forall_forall in Hid.
  destruct (keyIn (map id (evicted limit m)) (fst e)) eqn:Ek.
  - apply keyIn_In, in_map_iff in Ek. destruct Ek as (f & Ef & Hf).
    assert (Hstored : In f (JsMap.values m)).
    { unfold evicted in Hf.
      destruct (limit <? _); [| destruct Hf].
      unfold JsArray.slice0 in Hf.
      assert (Hsorted : In f (JsArray.sortBy Tiered.updatedLater
                                (List.filter InMemory.isValid (JsMap.values m)))).
      { destruct (0 <=? _); eapply in_firstn; exact Hf. }
      apply (Permutation_in _ (Permutation_sym (sortBy_perm _ _))) in Hsorted.
      apply List.filter_In in Hsorted. tauto. }
    apply in_map_iff in Hstored. destruct Hstored as (e0 & <- & He0).
    assert (e0 = e); [| subst; exact Hf].
    apply (same_key_same_entry m); [exact Hnd | exact He0 | exact He |].
    rewrite (Hid e0 He0). exact Ef.
  - exfalso. apply Hgone. rewrite demoted_filter.
    apply List.filter_In. split; [exact He |]. rewrite Ek. reflexivity.
Qed.

End DemotionRemoved.

(** The tiering scenario where it holds: with hotFactLimit = 5 and
    demotion on, writing six facts with distinct (subject, predicate),
    valid on arrival, one after the other through the tiered adapter
    over two empty in-memory adapters leaves at most five facts in the
    hot adapter and exactly six in the cold adapter.  Demotion never
    changes the cold adapter; on a hot map whose keys are the
    identifiers of its valid facts it leaves min(count, limit) facts,
    all taken from the map, and no fact it removes was updated after a
    fact it keeps. *)
Lemma tiering_six_distinct_facts :
  (forall config userId clock uuids fs flag,
     Tiered.hotFactLimit config = 5 ->
     Tiered.autoDemote config = true ->
     TieredDefs.distinctIds uuids 12 ->
     List.length fs = 6%nat ->
     List.NoDup (map TieredDefs.inputKey fs) ->
     Forall (fun fact => in_invalidatedAt fact = None) fs ->
     exists s hotFacts coldFacts w1 w2,
       TieredDefs.insertAll config userId fs
         (Tiered.mkState flag
            (InMemory.mkWorld clock 0 uuids 0 InMemory.newStore InMemory.newStore))
       = (Ok tt, s) /\
       InMemory.getFacts InMemory.Hot userId None (Tiered.world s) = (Ok hotFacts, w1) /\
       InMemory.getFacts InMemory.Cold userId None (Tiered.world s) = (Ok coldFacts, w2) /\
       (List.length hotFacts <= 5)%nat /\
       List.length coldFacts = 6%nat) /\
  (forall config userId s,
     exists s',
       Tiered.demoteOldFacts (InMemory.adapter InMemory.Hot) config userId s
       = (Ok tt, s') /\
       (forall u, TieredDefs.factsOf InMemory.Cold u (Tiered.world s')
                  = TieredDefs.factsOf InMemory.Cold u (Tiered.world s)) /\
       (let before := TieredDefs.factsOf InMemory.Hot userId (Tiered.world s) in
        let after := TieredDefs.factsOf InMemory.Hot userId (Tiered.world s') in
        TieredDefs.wellKeyed before -> TieredDefs.allValid before ->
        0 <= Tiered.hotFactLimit config ->
        List.length after
          = Nat.min (List.length before) (Z.to_nat (Tiered.hotFactLimit config)) /\
        incl after before /\
        forall e e', In e before -> ~ In e after -> In e' after ->
                     updatedAt (snd e) <= updatedAt (snd e'))).
Proof.
  split.
  - intros config userId clock uuids fs flag Hfive Hauto Hids Hsix Hnd Hlive.
    set (w0 := InMemory.mkWorld clock 0 uuids 0 InMemory.newStore InMemory.newStore).
    assert (Hlimit : 0 <= Tiered.hotFactLimit config) by lia.
    destruct (insertAll_tiered config userId Hlimit Hauto fs
                (Tiered.mkState flag w0) [] 12)
      as (s & Hrun & Hcl & Hhl & _).
    + apply tiered_start.
    + rewrite app_nil_r. exact Hnd.
    + exact Hlive.
    + exact Hids.
    + simpl. lia.
    + destruct (getFacts_run InMemory.Hot userId None (Tiered.world s))
        as (w1 & H1 & _).
      destruct (getFacts_run InMemory.Cold userId None (Tiered.world s))
        as (w2 & H2 & _).
      exists s, (JsMap.values (TieredDefs.factsOf InMemory.Hot userId (Tiered.world s))),
        (JsMap.values (TieredDefs.factsOf InMemory.Cold userId (Tiered.world s))), w1, w2.
      split; [exact Hrun |]. split; [exact H1 |]. split; [exact H2 |].
      unfold JsMap.values. rewrite !length_map, Hcl, Hhl.
      rewrite length_app, length_rev, length_map, Hsix, Hfive. simpl. lia.
  - intros config userId s.
    destruct (demoteOldFacts_run config userId s) as (s' & Hrun & _ & Hdem & Hbut).
    exists s'. split; [exact Hrun |]. split.
    + intros u. apply Hbut. left. discriminate.
    + intros before after Hkeys Hvalid Hlimit. subst before after. rewrite Hdem.
      split; [apply demoted_length; assumption |].
      split; [apply demoted_incl |].
      intros e e' He Hgone He'.
      apply (evicted_oldest _ _ Hkeys Hvalid Hlimit (snd e) e');
        [apply removed_evicted; assumption | exact He'].
Qed.

Lemma tiering_six_distinct_facts_example :
  exists s hotFacts coldFacts w1 w2,
    TieredDefs.insertAll TieredDefs.testConfig "user1" TieredDefs.sixFacts
      (Tiered.mkState false ResolverDefs.freshWorld) = (Ok tt, s) /\
    InMemory.getFacts InMemory.Hot "user1" None (Tiered.world s) = (Ok hotFacts, w1) /\
    InMemory.getFacts InMemory.Cold "user1" None (Tiered.world s) = (Ok coldFacts, w2) /\
    (List.length hotFacts <= 5)%nat /\
    List.length coldFacts = 6%nat.
Proof.
  apply (proj1 tiering_six_distinct_facts TieredDefs.testConfig "user1"
           (fun n => 1000 + Z.of_nat n) ResolverDefs.letters
           TieredDefs.sixFacts false).
  - reflexivity.
  - reflexivity.
  - apply NoDup_ListNoDup, (bool_decide_unpack _). vm_compute. reflexivity.
  - reflexivity.
  - apply NoDup_ListNoDup, (bool_decide_unpack _). vm_compute. reflexivity.
  - repeat constructor.
Qed.

(** C5 (the code at the failing input): demotion deletes from the hot
    adapter by [fact.id], but the hot copy of a fact that was written a
    second time is stored under the identifier the hot adapter gave it
    at the first write and carries the identifier of the cold fact.
    With hotFactLimit = 5, after FACT_0 is written twice and FACT_1 to
    FACT_5 once through the tiered adapter over two empty in-memory
    adapters, every write has succeeded, the cold adapter holds six
    facts and the hot adapter holds six valid facts: the oldest one,
    FACT_0, is chosen for eviction and is not removed, and running
    [demoteOldFacts] once more changes nothing. *)
Theorem C5_demotion_misses_rewritten_fact :
  let run :=
    TieredDefs.insertAll TieredDefs.testConfig "user1" TieredDefs.rewrittenFacts
      (Tiered.mkState false ResolverDefs.freshWorld) in
  let hot := TieredDefs.factsOf InMemory.Hot "user1" (Tiered.world (snd run)) in
  let again :=
    Tiered.demoteOldFacts (InMemory.adapter InMemory.Hot) TieredDefs.testConfig
      "user1" (snd run) in
  fst run = Ok tt /\
  Tiered.hotFactLimit TieredDefs.testConfig = 5 /\
  Tiered.autoDemote TieredDefs.testConfig = true /\
  TieredDefs.countValid InMemory.Cold "user1" (Tiered.world (snd run)) = Ok 6%nat /\
  TieredDefs.countValid InMemory.Hot "user1" (Tiered.world (snd run)) = Ok 6%nat /\
  map (fun f => predicate f) (TieredDefs.evicted 5 hot) = ["FACT_0"] /\
  map (fun e => (fst e, id (snd e), predicate (snd e))) (firstn 1 hot)
  = [("aa", "a", "FACT_0")] /\
  fst again = Ok tt /\
  TieredDefs.factsOf InMemory.Hot "user1" (Tiered.world (snd again)) = hot.
Proof. vm_compute. repeat split. Qed.

(** * Further properties of the code *)

(** ** Decay engine: range, expiry and the predicate lists *)

Section DecayMore.
Import JsNum Decay DecayDefs DecayMoreDefs DecayManager.

Lemma linearQ_le_1 (a : Z) (ttlMs : Q) :
  (0 < ttlMs)%Q -> (0 <= a)%Z -> (linearQ a ttlMs <= 1)%Q.
Proof.
  intros Ht Ha. unfold linearQ.
  assert (0 <= inject_Z a / ttlMs)%Q.
  { unfold Qdiv. apply Qmult_le_0_compat.
    - change 0%Q with (inject_Z 0). rewrite <- Zle_Qle. exact Ha.
    - apply Qlt_le_weak, Qinv_lt_0_compat, Ht. }
  destruct (Qle_bool 0 (1 - inject_Z a / ttlMs)); lra.
Qed.

Lemma boostedQ_range (w r : Q) : (0 <= w)%Q -> (0 <= r)%Q -> (0 <= boostedQ w r <= 1)%Q.
Proof.
  intros Hw Hr. unfold boostedQ.
  destruct (Qle_bool (1 # 2) (r * (1 # 10))%Q) eqn:Eb; cbv zeta;
    match goal with
    | |- context [Qle_bool 1 ?x] => destruct (Qle_bool 1 x) eqn:E1
    end;
    try apply Qle_bool_iff in E1; try apply Qle_bool_false in E1; lra.
Qed.

Lemma ttlMsOf_positive cfg fact ttl :
  positiveTtl cfg -> ttlMsOf cfg fact = Some ttl -> (0 < ttl)%Q.
Proof.
  intros Hcfg. unfold ttlMsOf.
  destruct (isEphemeral cfg (predicate fact)).
  - intros [= <-]. destruct Hcfg as (_ & He & _). lra.
  - destruct (ttlDays cfg fact) as [d |] eqn:Ed; [| discriminate].
    intros [= <-]. pose proof (ttlDays_positive _ _ _ Hcfg Ed). lra.
Qed.

Lemma linearQ_lapsed (a : Z) (ttl : Q) :
  (0 < ttl)%Q -> (ttl <= inject_Z a)%Q -> (linearQ a ttl <= 0)%Q.
Proof.
  intros Ht Ha. unfold linearQ.
  destruct (Qle_bool 0 (1 - inject_Z a / ttl)) eqn:E; [| lra].
  apply Qle_bool_iff in E.
  assert (1 <= inject_Z a / ttl)%Q.
  { apply Qle_shift_div_l; [exact Ht | lra]. }
  lra.
Qed.

Lemma linearQ_fresh (a : Z) (ttl : Q) :
  (0 < ttl)%Q -> (inject_Z a < ttl)%Q -> (0 < linearQ a ttl)%Q.
Proof.
  intros Ht Ha. unfold linearQ.
  assert (inject_Z a / ttl < 1)%Q.
  { apply Qlt_shift_div_r; [exact Ht | lra]. }
  destruct (Qle_bool 0 (1 - inject_Z a / ttl)) eqn:E.
  - lra.
  - apply Qle_bool_false in E. lra.
Qed.

Lemma timeClip_floor (t : Q) : (0 <= t)%Q -> timeClip t = Qfloor t.
Proof.
  intros Ht. unfold timeClip. apply Qle_bool_iff in Ht. rewrite Ht. reflexivity.
Qed.

(** X1: the decay weight is a number between 0 and 1.  Under a
    configuration whose TTLs are positive, a fact whose reinforcement
    count is not negative has a finite weight in [0, 1] at every reading
    of the clock; for an ephemeral predicate the reading must not
    precede the last reinforcement (the ephemeral branch has no upper
    cap, the regular branch has [Math.min(1, ...)]). *)
Theorem X1_calculateDecayWeight_range cfg fact now :
  positiveTtl cfg ->
  (0 <= reinforcements fact)%Q ->
  lastReinforced fact <= now \/ isEphemeral cfg (predicate fact) = false ->
  exists q, calculateDecayWeight cfg fact now = Fin q /\ (0 <= q <= 1)%Q.
Proof.
  intros Hcfg Hr Hage. unfold calculateDecayWeight.
  destruct (negb (enabled cfg)); [exists 1%Q; split; [reflexivity | lra] |].
  destruct (isPermanent cfg (predicate fact)); [exists 1%Q; split; [reflexivity | lra] |].
  destruct (Qle_bool (reinforcementThreshold cfg) (reinforcements fact));
    [exists 1%Q; split; [reflexivity | lra] |].
  destruct (isEphemeral cfg (predicate fact)) eqn:Ee.
  - assert (Httl : (0 < ephemeralTtlHours cfg * 60 * 60 * 1000)%Q).
    { destruct Hcfg as (_ & He & _). lra. }
    rewrite linearWeight_pos by exact Httl.
    eexists; split; [reflexivity |]. split; [apply linearQ_range |].
    apply linearQ_le_1; [exact Httl |]. destruct Hage as [H | H]; [lia | discriminate].
  - destruct (ttlDays cfg fact) as [d |] eqn:Ed;
      [| exists 1%Q; split; [reflexivity | lra]].
    assert (Httl : (0 < d * 24 * 60 * 60 * 1000)%Q).
    { pose proof (ttlDays_positive _ _ _ Hcfg Ed). lra. }
    cbv zeta. rewrite linearWeight_pos by exact Httl. rewrite boosted_fin.
    eexists; split; [reflexivity |].
    apply boostedQ_range; [apply linearQ_range | exact Hr].
Qed.

Lemma X1_calculateDecayWeight_range_witness :
  exists q, calculateDecayWeight (constructor noConfig) likesFact (30 * dayMs) = Fin q
            /\ (0 <= q <= 1)%Q.
Proof.
  apply (X1_calculateDecayWeight_range (constructor noConfig) likesFact (30 * dayMs)).
  - exact constructor_positiveTtl.
  - vm_compute. discriminate.
  - left. vm_compute. discriminate.
Defined.



(** X3: a fact is not pruned before its time to live has passed.
    Under a configuration whose TTLs are positive whole numbers of
    hours and days (as the defaults are; the expiry date is then
    computed without rounding), for a fact with a non-negative
    reinforcement count, reinforced last at or after the epoch,
    [shouldPrune] is false whenever the first reading of the clock is
    earlier than the last reinforcement plus the TTL and the second
    reading is not later than it. *)
Theorem X3_shouldPrune_within_ttl cfg fact ttl now now' :
  positiveTtl cfg ->
  wholeTtl cfg ->
  (0 <= reinforcements fact)%Q ->
  ttlMsOf cfg fact = Some ttl ->
  0 <= lastReinforced fact ->
  (inject_Z now < inject_Z (lastReinforced fact) + ttl)%Q ->
  (inject_Z now' <= inject_Z (lastReinforced fact) + ttl)%Q ->
  shouldPrune cfg fact now now' = false.
Proof.
  intros Hcfg _ Hr Httl H0 Hnow Hnow'.
  pose proof (ttlMsOf_positive _ _ _ Hcfg Httl) as Hpos.
  assert (Hfresh : (0 < linearQ (now - lastReinforced fact) ttl)%Q).
  { apply linearQ_fresh; [exact Hpos |].
    unfold Zminus. rewrite inject_Z_plus, inject_Z_opp. lra. }
  assert (Hnn : (0 <= inject_Z (lastReinforced fact) + ttl)%Q).
  { assert (0 <= inject_Z (lastReinforced fact))%Q.
    { change 0%Q with (inject_Z 0). rewrite <- Zle_Qle. exact H0. }
    lra. }
  assert (Hclip : (timeClip (inject_Z (lastReinforced fact) + ttl) <? now') = false).
  { rewrite (timeClip_floor _ Hnn). apply Z.ltb_ge.
    apply Qfloor_resp_le in Hnow'. rewrite Qfloor_Z in Hnow'. exact Hnow'. }
  unfold shouldPrune, calculateDecayWeight, calculateExpiryDate.
  destruct (enabled cfg); cbn [negb]; [| reflexivity].
  destruct (isPermanent cfg (predicate fact)); [reflexivity |].
  destruct (Qle_bool (reinforcementThreshold cfg) (reinforcements fact)); [reflexivity |].
  unfold ttlMsOf in Httl.
  destruct (isEphemeral cfg (predicate fact)).
  - injection Httl as <-.
    rewrite linearWeight_pos by exact Hpos. cbn [leb].
    destruct (Qle_bool _ 0) eqn:E; [apply Qle_bool_iff in E; lra |].
    rewrite Hclip. reflexivity.
  - destruct (ttlDays cfg fact) as [d |]; [| discriminate]. injection Httl as <-.
    cbv zeta. rewrite linearWeight_pos by exact Hpos. rewrite boosted_fin. cbn [leb].
    pose proof (boostedQ_mono (linearQ (now - lastReinforced fact) (d * 24 * 60 * 60 * 1000))
                  0 (reinforcements fact)) as Hm.
    destruct (Qle_bool _ 0) eqn:E.
    + apply Qle_bool_iff in E.
      exfalso. revert E. unfold boostedQ.
      destruct (Qle_bool (1 # 2) (reinforcements fact * (1 # 10))%Q) eqn:Eb; cbv zeta;
        match goal with
        | |- context [Qle_bool 1 ?x] => destruct (Qle_bool 1 x) eqn:E1
        end; lra.
    + rewrite Hclip. reflexivity.
Qed.

Lemma X3_shouldPrune_within_ttl_witness :
  shouldPrune (constructor noConfig) likesFact (89 * dayMs) (90 * dayMs) = false.
Proof.
  apply (X3_shouldPrune_within_ttl (constructor noConfig) likesFact
           (90 * 24 * 60 * 60 * 1000)%Q).
  - exact constructor_positiveTtl.
  - split; [reflexivity | split; [reflexivity |]]. intros d [= <-]. reflexivity.
  - vm_compute. discriminate.
  - reflexivity.
  - vm_compute. discriminate.
  - vm_compute. reflexivity.
  - vm_compute. discriminate.
Defined.

End DecayMore.

Section DecayLists.
Import JsNum Decay DecayDefs DecayMoreDefs DecayManager.

Lemma includes_app (l1 l2 : list string) x :
  JsString.includes (l1 ++ l2) x = JsString.includes l1 x || JsString.includes l2 x.
Proof. apply existsb_app. Qed.

Lemma includes_In (l : list string) x : JsString.includes l x = true <-> In x l.
Proof.
  unfold JsString.includes. rewrite existsb_exists. split.
  - intros (y & Hy & E). apply String.eqb_eq in E. subst. exact Hy.
  - intros H. exists x. split; [exact H | apply String.eqb_refl].
Qed.

Lemma includes_lowercase ps x :
  Forall (fun p => hasLower p = true) ps ->
  JsString.includes ps (JsString.toUpperCase x) = false.
Proof.
  intros Hps. destruct (JsString.includes ps (JsString.toUpperCase x)) eqn:E; [| reflexivity].
  apply includes_In in E. rewrite List.Forall_forall in Hps.
  specialize (Hps _ E). rewrite hasLower_toUpperCase in Hps. discriminate.
Qed.

(** X4: the constructor keeps the case of the permanent predicates
    given in the configuration, while [isPermanent] upper-cases the
    predicate it looks up: custom permanent predicates that contain a
    lower-case letter match no predicate at all, and the manager
    classifies every predicate as the default configuration does. *)
Theorem X4_constructor_keeps_case c ps q :
  cfg_permanentPredicates c = Some ps ->
  Forall (fun p => hasLower p = true) ps ->
  isPermanent (constructor c) q = isPermanent (constructor noConfig) q.
Proof.
  intros Hc Hps. unfold isPermanent, constructor. cbn [permanentPredicates].
  rewrite Hc. cbn [default from_option cfg_permanentPredicates noConfig].
  unfold Datatypes.id.
  rewrite !includes_app, (includes_lowercase ps q Hps). reflexivity.
Qed.

Lemma X4_constructor_keeps_case_witness :
  isPermanent (constructor (permanentOnly ["Pet_Name"])) "Pet_Name" = false.
Proof.
  rewrite (X4_constructor_keeps_case (permanentOnly ["Pet_Name"]) ["Pet_Name"] "Pet_Name").
  - reflexivity.
  - reflexivity.
  - repeat constructor.
Defined.

Lemma addPermanentPredicate_list cfg p :
  JsString.includes (permanentPredicates (addPermanentPredicate cfg p))
                    (JsString.toUpperCase p) = true.
Proof.
  unfold addPermanentPredicate. cbv zeta.
  destruct (JsString.includes (permanentPredicates cfg) (JsString.toUpperCase p)) eqn:E.
  - exact E.
  - cbn [permanentPredicates]. rewrite includes_app.
    apply orb_true_iff. right. apply includes_In. left. reflexivity.
Qed.

(** X5: [addPermanentPredicate] upper-cases the predicate it adds.
    After the call every fact whose predicate equals the added one up
    to case is permanent: its weight is 1, it has no expiry date and it
    is never pruned, in every configuration; adding the predicate again
    changes nothing, and the other predicates are classified as
    before. *)
Theorem X5_addPermanentPredicate_protects cfg p fact now now' :
  JsString.toUpperCase (predicate fact) = JsString.toUpperCase p ->
  let cfg' := addPermanentPredicate cfg p in
  isPermanent cfg' (predicate fact) = true /\
  calculateDecayWeight cfg' fact now = Fin 1 /\
  shouldPrune cfg' fact now now' = false /\
  calculateExpiryDate cfg' fact = None /\
  addPermanentPredicate cfg' p = cfg' /\
  (forall q, JsString.toUpperCase q <> JsString.toUpperCase p ->
             isPermanent cfg' q = isPermanent cfg q).
Proof.
  intros Hp cfg'.
  assert (Hperm : isPermanent cfg' (predicate fact) = true).
  { unfold isPermanent. rewrite Hp. apply addPermanentPredicate_list. }
  split; [exact Hperm |].
  split; [| split; [| split; [| split]]].
  - unfold calculateDecayWeight. rewrite Hperm. destruct (negb (enabled cfg')); reflexivity.
  - unfold shouldPrune, calculateDecayWeight. rewrite Hperm.
    destruct (enabled cfg'); cbn [negb]; [| reflexivity].
    unfold calculateExpiryDate. rewrite Hperm.
    destruct (enabled cfg'); reflexivity.
  - unfold calculateExpiryDate. rewrite Hperm. destruct (negb (enabled cfg')); reflexivity.
  - unfold addPermanentPredicate at 1. cbv zeta.
    fold cfg'. unfold cfg' at 1. rewrite addPermanentPredicate_list. reflexivity.
  - intros q Hq. unfold cfg', addPermanentPredicate, isPermanent. cbv zeta.
    destruct (JsString.includes (permanentPredicates cfg) (JsString.toUpperCase p));
      [reflexivity |].
    cbn [permanentPredicates]. rewrite includes_app.
    replace (JsString.includes [JsString.toUpperCase p] (JsString.toUpperCase q))
      with false; [apply orb_false_r |].
    symmetry. unfold JsString.includes. cbn [existsb]. rewrite orb_false_r.
    apply String.eqb_neq. exact Hq.
Qed.

Lemma X5_addPermanentPredicate_protects_witness :
  shouldPrune (addPermanentPredicate (constructor noConfig) "pet_name") petFact
              (365 * dayMs) (365 * dayMs) = false.
Proof.
  apply (X5_addPermanentPredicate_protects (constructor noConfig) "pet_name" petFact).
  reflexivity.
Defined.

End DecayLists.

(** ** Consolidation engine: order of the stages *)

Section StageOrder.
Import Consolidation ConsolidationDefs ConsolidationWorker.

Lemma ageHours_mono f1 f2 t1 t2 :
  createdAt f1 = createdAt f2 -> t1 <= t2 -> (ageHours f1 t1 <= ageHours f2 t2)%Q.
Proof.
  intros Hc Ht. unfold ageHours. rewrite Hc. unfold Qdiv.
  apply Qmult_le_compat_r.
  - rewrite <- Zle_Qle. lia.
  - vm_compute. discriminate.
Qed.

(** X6: the stage computed by [determineStage] never regresses as time
    passes and as the fact is read: for the same creation time, a later
    reading of the clock and an access count at least as large give a
    stage at least as high in the order short-term, working,
    long-term, for every configuration. *)
Theorem X6_determineStage_monotone cfg f1 f2 t1 t2 :
  createdAt f1 = createdAt f2 ->
  default 0 (accessCount f1) <= default 0 (accessCount f2) ->
  t1 <= t2 ->
  stageOrder (determineStage cfg f1 t1) <= stageOrder (determineStage cfg f2 t2).
Proof.
  intros Hc Ha Ht.
  pose proof (ageHours_mono f1 f2 t1 t2 Hc Ht) as Hage.
  assert (Hhits : (inject_Z (default 0%Z (accessCount f1))
                   <= inject_Z (default 0%Z (accessCount f2)))%Q)
    by (rewrite <- Zle_Qle; exact Ha).
  unfold determineStage. cbv zeta.
  destruct (Qle_bool (workingHours cfg) (ageHours f1 t1)) eqn:A1;
  destruct (Qle_bool (longTermAccessThreshold cfg) (inject_Z (default 0%Z (accessCount f1)))) eqn:B1;
  destruct (Qle_bool (shortTermHours cfg) (ageHours f1 t1)) eqn:C1;
  destruct (Qle_bool (workingAccessThreshold cfg) (inject_Z (default 0%Z (accessCount f1)))) eqn:D1;
  destruct (Qle_bool (workingHours cfg) (ageHours f2 t2)) eqn:A2;
  destruct (Qle_bool (longTermAccessThreshold cfg) (inject_Z (default 0%Z (accessCount f2)))) eqn:B2;
  destruct (Qle_bool (shortTermHours cfg) (ageHours f2 t2)) eqn:C2;
  destruct (Qle_bool (workingAccessThreshold cfg) (inject_Z (default 0%Z (accessCount f2)))) eqn:D2;
  cbn [andb orb stageOrder]; try lia; exfalso;
  repeat match goal with
         | H : Qle_bool _ _ = true |- _ => apply Qle_bool_iff in H
         | H : Qle_bool _ _ = false |- _ => apply Qle_bool_false in H
         end; lra.
Qed.

Lemma X6_determineStage_monotone_witness :
  stageOrder (determineStage defaultConfig readFact hourMs)
  <= stageOrder (determineStage defaultConfig readFact (25 * hourMs)).
Proof.
  apply (X6_determineStage_monotone defaultConfig readFact readFact).
  - reflexivity.
  - vm_compute. discriminate.
  - vm_compute. discriminate.
Defined.

End StageOrder.

(** ** Conflict resolver: pass-through and soundness *)

Section ResolverMore.
Import ConflictResolver ResolverDefs ResolverMoreDefs.

Lemma findExisting_Some existingFacts o f :
  findExisting existingFacts o = Some f ->
  In f existingFacts /\ subject f = Op.subject o /\ predicate f = Op.predicate o.
Proof.
  unfold findExisting. intros H. apply find_some in H. destruct H as (Hin & E).
  apply andb_true_iff in E. destruct E as (E1 & E2).
  apply String.eqb_eq in E1, E2. auto.
Qed.

Lemma contribution_unmatched strategy existingFacts o :
  Op.isDelete o = true \/ findExisting existingFacts o = None ->
  contribution strategy existingFacts o = mkResolved [o] [].
Proof.
  unfold contribution, resolveStep. intros [H | H].
  - rewrite H. reflexivity.
  - rewrite H. destruct (Op.isDelete o); reflexivity.
Qed.

Lemma flat_map_singletons {A B} (f : A -> list B) (g : A -> B) l :
  Forall (fun x => f x = [g x]) l -> flat_map f l = map g l.
Proof.
  induction 1 as [| x l Hx _ IH]; [reflexivity |].
  simpl. rewrite Hx, IH. reflexivity.
Qed.

Lemma flat_map_nils {A B} (f : A -> list B) l :
  Forall (fun x => f x = []) l -> flat_map f l = [].
Proof.
  induction 1 as [| x l Hx _ IH]; [reflexivity |].
  simpl. rewrite Hx, IH. reflexivity.
Qed.

(** X7: operations that meet no stored fact pass through the resolver
    unchanged.  When every operation of the batch is a DELETE or finds
    no valid stored fact with its subject and predicate (in
    particular when the user has no fact), [resolve] returns the batch
    as it is, in its order, and reports no conflict, under every
    strategy. *)
Theorem X7_resolve_unmatched_passthrough {W} (adapter : Adapter.BaseAdapter W)
    strategy userId ops w w' existingFacts :
  Adapter.getFacts adapter userId (Some (validOnlyFilter true)) w
    = (Ok existingFacts, w') ->
  Forall (fun o => Op.isDelete o = true \/ findExisting existingFacts o = None) ops ->
  resolve strategy userId ops adapter w = (Ok (mkResolved ops []), w').
Proof.
  intros Hget Hops. rewrite (resolve_run _ _ _ _ _ _ _ Hget). do 2 f_equal.
  unfold resolveWith. rewrite resolve_fold. cbn [resolvedOperations conflicts app].
  f_equal.
  - rewrite (flat_map_singletons _ (fun o => o)); [apply map_id |].
    eapply List.Forall_impl; [| exact Hops]. intros o Ho. cbv beta.
    rewrite (contribution_unmatched _ _ _ Ho). reflexivity.
  - apply flat_map_nils.
    eapply List.Forall_impl; [| exact Hops]. intros o Ho. cbv beta.
    rewrite (contribution_unmatched _ _ _ Ho). reflexivity.
Qed.

Lemma X7_resolve_unmatched_passthrough_witness :
  exists w',
    resolve latest "user1" [insertSF; deleteNYC] (InMemory.adapter InMemory.Cold) freshWorld
    = (Ok (mkResolved [insertSF; deleteNYC] []), w').
Proof.
  eexists.
  apply (X7_resolve_unmatched_passthrough (InMemory.adapter InMemory.Cold) latest "user1"
           [insertSF; deleteNYC] freshWorld _ []).
  - vm_compute. reflexivity.
  - constructor; [right; reflexivity |].
    constructor; [left; reflexivity | constructor].
Defined.

Lemma contribution_shape strategy existingFacts o :
  let r := contribution strategy existingFacts o in
  (resolvedOperations r = [] /\ conflicts r = [] /\ Op.isDelete o = false) \/
  (resolvedOperations r = [o] /\ conflicts r = []) \/
  (exists f res,
     findExisting existingFacts o = Some f /\ Op.isDelete o = false /\
     object f <> Op.object o /\
     conflicts r = [mkConflict f o res] /\
     (resolvedOperations r = [o] \/
      exists why, resolvedOperations r = [deleteOf f why o; o])).
Proof.
  unfold contribution, resolveStep. cbv zeta.
  destruct (Op.isDelete o) eqn:Ed; [right; left; split; reflexivity |].
  destruct (findExisting existingFacts o) as [f |] eqn:Ef;
    [| right; left; split; reflexivity].
  destruct (String.eqb (object f) (Op.object o)) eqn:Eo.
  - left. repeat split; reflexivity.
  - right; right. apply String.eqb_neq in Eo.
    destruct strategy; eexists f, _; (split; [reflexivity |]);
      (split; [reflexivity |]); (split; [exact Eo |]); (split; [reflexivity |]).
    + right. eexists. reflexivity.
    + left. reflexivity.
    + right. eexists. reflexivity.
Qed.

Lemma isDelete_op o : Op.isDelete o = false -> Op.op o <> DELETE.
Proof. unfold Op.isDelete. destruct (Op.op o); congruence. Qed.

(** X8: what the resolver may output.  For every strategy, batch and
    list of stored facts: the INSERT and UPDATE operations of the
    result are operations of the batch, in the order of the batch;
    every DELETE of the batch is kept, in order; an operation of the
    result that is not of the batch is a DELETE naming a stored fact by
    its subject, predicate and object; every conflict reported pairs a
    stored fact with a non-DELETE operation of the batch that has its
    subject and predicate and another object; there are at most as many
    conflicts as non-DELETE operations, and at most one operation is
    added per conflict. *)
Theorem X8_resolveWith_sound strategy existingFacts ops :
  let r := resolveWith strategy ops existingFacts in
  sublist (List.filter isWrite (resolvedOperations r)) ops /\
  sublist (List.filter Op.isDelete ops) (resolvedOperations r) /\
  Forall (fun o => In o ops \/ retires existingFacts o) (resolvedOperations r) /\
  Forall (genuine existingFacts ops) (conflicts r) /\
  (List.length (conflicts r) <= List.length (List.filter isWrite ops))%nat /\
  (List.length (resolvedOperations r)
     <= List.length ops + List.length (conflicts r))%nat.
Proof.
  cbv zeta. unfold resolveWith. rewrite resolve_fold.
  cbn [resolvedOperations conflicts app].
  induction ops as [| o ops IH].
  - cbn. repeat split; constructor.
  - destruct IH as (I1 & I2 & I3 & I4 & I5 & I6).
    cbn [flat_map]. rewrite !List.filter_app, !List.length_app.
    assert (W3 : Forall (fun o' => In o' (o :: ops) \/ retires existingFacts o')
                   (flat_map (fun o => resolvedOperations (contribution strategy existingFacts o)) ops)).
    { eapply List.Forall_impl; [| exact I3]. intros x [H | H]; [left; right; exact H | right; exact H]. }
    assert (W4 : Forall (genuine existingFacts (o :: ops))
                   (flat_map (fun o => conflicts (contribution strategy existingFacts o)) ops)).
    { eapply List.Forall_impl; [| exact I4]. intros c (H1 & H2 & H3).
      split; [exact H1 |]. split; [right; exact H2 | exact H3]. }
    assert (Hw : isWrite o = negb (Op.isDelete o)) by reflexivity.
    destruct (contribution_shape strategy existingFacts o)
      as [(E1 & E2 & Ed) | [(E1 & E2) | (f & res & Ef & Ed & Eo & E2 & E1)]].
    + rewrite E1, E2. cbn [app List.filter List.length].
      rewrite Hw, Ed. cbn [negb List.length].
      split; [apply sublist_cons; exact I1 |].
      split; [exact I2 |]. split; [exact W3 |]. split; [exact W4 |]. lia.
    + rewrite E1, E2. cbn [app List.filter List.length].
      rewrite Hw. destruct (Op.isDelete o) eqn:Ed; cbn [negb app List.length].
      * split; [apply sublist_cons; exact I1 |].
        split; [apply sublist_skip; exact I2 |].
        split; [constructor; [left; left; reflexivity | exact W3] |].
        split; [exact W4 |]. lia.
      * split; [apply sublist_skip; exact I1 |].
        split; [apply sublist_cons; exact I2 |].
        split; [constructor; [left; left; reflexivity | exact W3] |].
        split; [exact W4 |]. lia.
    + destruct (findExisting_Some _ _ _ Ef) as (Hin & Hs & Hp).
      assert (G : genuine existingFacts (o :: ops) (mkConflict f o res)).
      { split; [exact Hin |]. split; [left; reflexivity |].
        split; [apply isDelete_op, Ed |]. auto. }
      rewrite E2.
      destruct E1 as [E1 | (why & E1)]; rewrite E1;
        cbn [app List.filter List.length]; rewrite ?Hw, ?Ed;
        cbn [negb app List.length Op.isDelete deleteOf Op.op].
      * split; [apply sublist_skip; exact I1 |].
        split; [apply sublist_cons; exact I2 |].
        split; [constructor; [left; left; reflexivity | exact W3] |].
        split; [constructor; [exact G | exact W4] |]. lia.
      * split; [apply sublist_skip; exact I1 |].
        split; [apply sublist_cons, sublist_cons; exact I2 |].
        split.
        { constructor; [right; exists f; repeat split; exact Hin |].
          constructor; [left; left; reflexivity | exact W3]. }
        split; [constructor; [exact G | exact W4] |]. lia.
Qed.

End ResolverMore.

(** ** Validation and extraction worker *)

Section NormalizeFacts.
Import JsString ValidationDefs Validation.

(** A normalized predicate holds no white space and no character that
    has an upper case. *)
Lemma normalizePredicate_clean p :
  spaceless (normalizePredicate p) = true /\ settled (normalizePredicate p) = true.
Proof.
  unfold normalizePredicate. split.
  - apply spaceless_replace_ws.
  - apply settled_replace_ws, settled_toUpperCase.
Qed.

(** X9: the normalization of predicates by the validation (trim,
    upper case, every run of white space replaced by one underscore)
    is idempotent: a predicate already normalized is left as it is. *)
Theorem X9_normalizePredicate_idempotent p :
  normalizePredicate (normalizePredicate p) = normalizePredicate p.
Proof.
  destruct (normalizePredicate_clean p) as [Hs Hu].
  unfold normalizePredicate at 1.
  rewrite (trim_spaceless _ Hs), (toUpperCase_settled _ Hu).
  apply replace_ws_spaceless, Hs.
Qed.

End NormalizeFacts.

Section WorkerMore.
Import ExtractorWorker ResolverMoreDefs.

(** X10: the importance the worker stores for an operation whose
    upper-cased predicate contains one of the safety fragments is at
    least 9 and at least the importance provided (5 when none is); it
    stays within 10 when the provided one does. *)
Theorem X10_getEffectiveImportance_floor o sp :
  In sp safetyPredicates ->
  JsString.str_includes (JsString.toUpperCase (Op.predicate o)) sp = true ->
  (9 <= getEffectiveImportance o)%Q /\
  (default 5%Q (Op.importance o) <= getEffectiveImportance o)%Q /\
  ((default 5%Q (Op.importance o) <= 10)%Q -> (getEffectiveImportance o <= 10)%Q).
Proof.
  intros Hin Hinc. unfold getEffectiveImportance. cbv zeta.
  assert (E : existsb (fun sp => JsString.str_includes
                                   (JsString.toUpperCase (Op.predicate o)) sp)
                      safetyPredicates = true).
  { apply existsb_exists. exists sp. split; assumption. }
  rewrite E. cbn [andb].
  destruct (Qle_bool 9 (default 5%Q (Op.importance o))) eqn:E9; cbn [negb].
  - apply Qle_bool_iff in E9. repeat split; [exact E9 | lra | tauto].
  - apply Qle_bool_false in E9. repeat split; lra.
Qed.

Lemma X10_getEffectiveImportance_floor_witness :
  (9 <= getEffectiveImportance allergyOp)%Q.
Proof.
  apply (X10_getEffectiveImportance_floor allergyOp "ALLERGY").
  - right; left. reflexivity.
  - vm_compute. reflexivity.
Defined.

Context {W : Type}.
Variable adapter : Adapter.BaseAdapter W.

Lemma applyLoop_total userId sessionId ops : forall acc w,
  exists facts w',
    applyLoop adapter userId sessionId ops acc w = (Ok (acc ++ facts), w') /\
    (List.length facts <= List.length (List.filter isWrite ops))%nat.
Proof.
  induction ops as [| o ops IH]; intros acc w.
  - exists [], w. rewrite app_nil_r. split; [reflexivity | cbn; lia].
  - cbn [applyLoop]. unfold bind at 1, try_catch.
    assert (Hstep : exists written w1,
              (match applyOperation adapter userId sessionId o w with
               | (Ok a, w') => (Ok a, w')
               | (Err e, w') => ret None w'
               end) = (Ok written, w1) /\
              (Op.isDelete o = true -> written = None)).
    { unfold applyOperation.
      destruct (Op.isDelete o) eqn:Ed.
      - unfold bind.
        destruct (Adapter.getFacts adapter userId _ w) as [[facts | e] w1].
        + destruct (List.find _ facts) as [m |].
          * destruct (Adapter.deleteFact adapter userId (id m) (Op.reason o) w1)
              as [[[] | e] w2]; eexists _, _; (split; [reflexivity | reflexivity]).
          * eexists _, _; split; reflexivity.
        + eexists _, _; split; reflexivity.
      - unfold bind.
        destruct (Adapter.upsertFact adapter userId _ w) as [[fact | e] w1];
          eexists _, _; (split; [reflexivity | discriminate]). }
    destruct Hstep as (written & w1 & -> & Hd).
    destruct (IH (match written with
                  | Some fact => acc ++ [fact]
                  | None => acc
                  end) w1) as (facts & w' & -> & Hlen).
    cbn [List.filter]. change (isWrite o) with (negb (Op.isDelete o)).
    destruct written as [fact |].
    + exists (fact :: facts), w'. rewrite <- app_assoc. split; [reflexivity |].
      destruct (Op.isDelete o); [specialize (Hd eq_refl); discriminate |].
      cbn [negb List.length]. lia.
    + exists facts, w'. split; [reflexivity |].
      destruct (negb (Op.isDelete o)); cbn [List.length]; lia.
Qed.

(** X11: [applyOperations] never rejects.  Whatever the adapter does
    (its reads and writes may throw), the call returns; the facts it
    returns are at most as many as the INSERT and UPDATE operations of
    the batch (a DELETE contributes none, a failed operation is
    skipped). *)
Theorem X11_applyOperations_total userId sessionId ops w :
  exists facts w',
    applyOperations adapter userId sessionId ops w = (Ok facts, w') /\
    (List.length facts <= List.length (List.filter isWrite ops))%nat.
Proof.
  destruct (applyLoop_total userId sessionId ops [] w) as (facts & w' & H & Hlen).
  exists facts, w'. split; [exact H | exact Hlen].
Qed.

(** X12: operations below the confidence threshold are never applied.
    When every operation that survives validation has a confidence
    below [minConfidence], [processTask] returns no operation, keeps
    the reasoning of the extraction, and leaves the state as the
    completion left it: the adapter is neither read again nor
    written. *)
Theorem X12_processTask_below_threshold complete prompt parse strategy minConfidence
    userId sessionId userMessage assistantResponse w facts w1 content w2 raw :
  Adapter.getFacts adapter userId
    (Some (mkFilter None None None (Some true) (Some 50) None None)) w
    = (Ok facts, w1) ->
  complete (prompt (map (fun f => (subject f, predicate f, object f)) facts)
                   userMessage assistantResponse) w1 = (Ok content, w2) ->
  parse content = Some raw ->
  Forall (fun o => (default (8 # 10)%Q (Op.confidence o) < minConfidence)%Q)
         (operations (Validation.validateExtractionResult raw)) ->
  processTask adapter complete prompt parse strategy minConfidence
    userId sessionId userMessage assistantResponse w
  = (Ok (mkExtraction [] (reasoning (Validation.validateExtractionResult raw))), w2).
Proof.
  intros Hget Hcomplete Hparse Hlow.
  unfold processTask, bind. rewrite Hget. cbv beta iota zeta.
  rewrite Hcomplete. cbv beta iota. rewrite Hparse.
  replace (List.filter _ (operations (Validation.validateExtractionResult raw)))
    with (@nil Op.MemoryOperation); [reflexivity |].
  symmetry. induction Hlow as [| o l Ho _ IH]; [reflexivity |].
  cbn [List.filter].
  destruct (Qle_bool minConfidence (default (8 # 10)%Q (Op.confidence o))) eqn:E.
  - apply Qle_bool_iff in E. lra.
  - exact IH.
Qed.

End WorkerMore.

Lemma X12_processTask_below_threshold_witness :
  ExtractorWorker.processTask (InMemory.adapter InMemory.Cold)
    ValidationDefs.completeBroken ValidationDefs.noPrompt ResolverMoreDefs.parseLow
    ConflictResolver.latest (1 # 2)%Q "user1" "session1" "hello" "hi"
    ResolverDefs.nycWorld
  = (Ok (mkExtraction [] (Some "a guess")), ResolverDefs.nycWorld).
Proof.
  apply (X12_processTask_below_threshold (InMemory.adapter InMemory.Cold)
           ValidationDefs.completeBroken ValidationDefs.noPrompt ResolverMoreDefs.parseLow
           ConflictResolver.latest (1 # 2)%Q "user1" "session1" "hello" "hi"
           ResolverDefs.nycWorld [ResolverDefs.nycFact] ResolverDefs.nycWorld
           ValidationDefs.brokenCompletion ResolverDefs.nycWorld
           ResolverMoreDefs.lowConfidenceRaw).
  - vm_compute. reflexivity.
  - reflexivity.
  - reflexivity.
  - vm_compute. repeat constructor.
Defined.

(** ** Query cache: lookups, capacity, isolation and eviction *)

Section SortOrder.
Context {A : Type}.
Variable gt : A -> A -> bool.
Variable le : A -> A -> Prop.
Hypothesis le_gt : forall a b, gt a b = false -> le a b.
Hypothesis gt_le : forall a b, gt a b = true -> le b a.
Hypothesis le_trans : forall a b c, le a b -> le b c -> le a c.



End SortOrder.

Section CacheMore.
Import SemanticCache CacheDefs CacheMoreDefs.




Lemma filter_length_le {B} (p : B -> bool) (l : list B) :
  (List.length (List.filter p l) <= List.length l)%nat.
Proof.
  induction l as [| x l IH]; [reflexivity |].
  cbn [List.filter]. destruct (p x); cbn [List.length]; lia.
Qed.

Lemma tl_length {B} (l : list B) : List.length (List.tl l) = (List.length l - 1)%nat.
Proof. destruct l; cbn [List.tl List.length]; lia. Qed.

Lemma entriesOf_set cfg now u q ctx c u' :
  entriesOf u' (set cfg now u q ctx c) =
  if String.eqb u' u
  then (let valid := List.filter (fun e => now - timestamp e <=? ttlMs cfg) (entriesOf u c) in
        (if maxSize cfg <=? Z.of_nat (List.length valid)
         then List.tl (JsArray.sortBy evictAfter valid) else valid)
        ++ [newEntry now q ctx])
  else entriesOf u' c.
Proof.
  unfold entriesOf, set. cbn [cache].
  destruct (String.eqb u' u) eqn:E.
  - apply String.eqb_eq in E. subst. rewrite lookup_insert_eq. reflexivity.
  - apply String.eqb_neq in E. rewrite lookup_insert_ne by congruence. reflexivity.
Qed.

Lemma get_cache cfg now u q c :
  forall u', u' <> u -> cache (snd (get cfg now u q c)) !! u' = cache c !! u'.
Proof.
  intros u' Hne. unfold get.
  destruct (cache c !! u) as [[| e0 es] |]; try reflexivity.
  destruct (bestMatch _ _ _ _ _ _ _) as [i |]; [| reflexivity].
  destruct ((e0 :: es) !! i); [| reflexivity].
  cbn [snd cache]. rewrite lookup_insert_ne by congruence. reflexivity.
Qed.

Lemma get_size cfg now u q c u' :
  List.length (entriesOf u' (snd (get cfg now u q c))) = List.length (entriesOf u' c).
Proof.
  unfold entriesOf. destruct (String.eqb u' u) eqn:E.
  - apply String.eqb_eq in E. subst u'. unfold get.
    destruct (cache c !! u) as [[| e0 es] |] eqn:Ec; cbn [snd countMiss cache];
      rewrite ?Ec; try reflexivity.
    destruct (bestMatch _ _ _ _ _ _ _) as [i |]; [| cbn [snd countMiss cache]; rewrite Ec; reflexivity].
    destruct ((e0 :: es) !! i) eqn:Ei; [| cbn [snd countMiss cache]; rewrite Ec; reflexivity].
    cbn [snd cache]. rewrite lookup_insert_eq. cbn [default].
    apply length_insert.
  - apply String.eqb_neq in E. rewrite (get_cache _ _ _ _ _ _ E). reflexivity.
Qed.

(** X13: the cache never holds more than [maxSize] entries for a
    user.  When [maxSize] is at least 1 and no user has more than
    [maxSize] entries, this is still so after [set], [get],
    [invalidate] and [clear], for every user; the empty cache is
    within the bound. *)
Theorem X13_cache_bounded cfg c :
  1 <= maxSize cfg ->
  bounded cfg c ->
  bounded cfg empty /\
  (forall now u q ctx, bounded cfg (set cfg now u q ctx c)) /\
  (forall now u q, bounded cfg (snd (get cfg now u q c))) /\
  (forall u, bounded cfg (invalidate u c)) /\
  bounded cfg (clear c).
Proof.
  intros Hmax Hc.
  assert (Hempty : forall s, bounded cfg (mkCache ∅ s)).
  { intros s u. unfold entriesOf. cbn [cache]. rewrite lookup_empty. cbn. lia. }
  split; [apply Hempty |]. split; [| split; [| split; [| apply Hempty]]].
  - intros now u q ctx u'. rewrite entriesOf_set.
    destruct (String.eqb u' u); [| apply Hc]. cbv zeta.
    specialize (Hc u).
    pose proof (filter_length_le (fun e => now - timestamp e <=? ttlMs cfg) (entriesOf u c)) as Hf.
    rewrite List.length_app. cbn [List.length].
    destruct (maxSize cfg <=? _) eqn:Efull.
    + apply Z.leb_le in Efull. rewrite tl_length, sortBy_length. lia.
    + apply Z.leb_gt in Efull. lia.
  - intros now u q u'. rewrite get_size. apply Hc.
  - intros u u'. unfold entriesOf, invalidate. cbn [cache].
    destruct (String.eqb u' u) eqn:E.
    + apply String.eqb_eq in E. subst. rewrite lookup_delete_eq. cbn. lia.
    + apply String.eqb_neq in E. rewrite lookup_delete_ne by congruence. apply Hc.
Qed.

Lemma X13_cache_bounded_witness :
  bounded smallConfig (set smallConfig 1000 "user1" "first question" mockContext empty).
Proof.
  refine (proj1 (proj2 (X13_cache_bounded smallConfig empty _ _))
            1000 "user1" "first question" mockContext).
  - vm_compute. discriminate.
  - intros u. unfold entriesOf, empty. cbn [cache]. rewrite lookup_empty.
    vm_compute. discriminate.
Defined.

Lemma get_fst_ext cfg now u q c1 c2 :
  cache c1 !! u = cache c2 !! u ->
  fst (get cfg now u q c1) = fst (get cfg now u q c2).
Proof.
  intros E. unfold get. rewrite E.
  destruct (cache c2 !! u) as [[| e0 es] |]; try reflexivity.
  destruct (bestMatch _ _ _ _ _ _ _) as [i |]; [| reflexivity].
  destruct ((e0 :: es) !! i); reflexivity.
Qed.

(** X14: the cache keeps users apart.  What [get] returns for a user
    is not changed by a [set], a [get] or an [invalidate] for another
    user; and right after [invalidate] a lookup for the invalidated
    user is a miss. *)
Theorem X14_cache_isolation cfg c u u' now q t q0 ctx :
  u' <> u ->
  fst (get cfg now u' q (set cfg t u q0 ctx c)) = fst (get cfg now u' q c) /\
  fst (get cfg now u' q (snd (get cfg t u q0 c))) = fst (get cfg now u' q c) /\
  fst (get cfg now u' q (invalidate u c)) = fst (get cfg now u' q c) /\
  fst (get cfg now u q (invalidate u c)) = None.
Proof.
  intros Hne. repeat split.
  - apply get_fst_ext. unfold set. cbn [cache]. apply lookup_insert_ne. congruence.
  - apply get_fst_ext, get_cache, Hne.
  - apply get_fst_ext. unfold invalidate. cbn [cache]. apply lookup_delete_ne. congruence.
  - unfold get, invalidate. cbn [cache]. rewrite lookup_delete_eq. reflexivity.
Qed.

Lemma X14_cache_isolation_witness :
  fst (get testConfig 1500 "user2" storedQuery
         (set testConfig 1000 "user1" storedQuery mockContext empty)) = None.
Proof.
  rewrite (proj1 (X14_cache_isolation testConfig empty "user1" "user2" 1500 storedQuery
                    1000 storedQuery mockContext ltac:(discriminate))).
  reflexivity.
Defined.



End CacheMore.

Section CacheLookup.
Import SemanticCache CacheDefs CacheMoreDefs.

Variable cfg : Config.
Variable now : Z.
Variable q : string.
Variable all : list CacheEntry.



End CacheLookup.

Section CacheLookupFacts.
Import SemanticCache CacheDefs CacheMoreDefs.





End CacheLookupFacts.

(** ** In-memory adapter: writes, reads and deletions *)

Section StoreRuns.
Import InMemory TieredDefs StoreDefs.

Lemma get_In {V} k (m : JsMap.t V) v : JsMap.get k m = Some v -> In (k, v) m.
Proof.
  unfold JsMap.get. destruct (List.find _ m) as [[k' v'] |] eqn:E; [| discriminate].
  apply find_some in E. destruct E as (Hin & Hk). cbn [fst] in Hk.
  apply String.eqb_eq in Hk. subst k'. intros [= <-]. exact Hin.
Qed.

Lemma get_None {V} k (m : JsMap.t V) : JsMap.get k m = None -> ~ In k (map fst m).
Proof.
  unfold JsMap.get. destruct (List.find _ m) as [e |] eqn:E; [discriminate |].
  intros _ Hin. apply in_map_iff in Hin. destruct Hin as (e & <- & Hin).
  pose proof (find_none _ _ E e Hin) as H. cbv beta in H.
  rewrite String.eqb_refl in H. discriminate.
Qed.

Lemma get_fresh {V} k (m : JsMap.t V) : ~ In k (map fst m) -> JsMap.get k m = None.
Proof.
  intros Hk. unfold JsMap.get. destruct (List.find _ m) as [e |] eqn:E; [| reflexivity].
  apply find_some in E. destruct E as (Hin & He). apply String.eqb_eq in He.
  exfalso. apply Hk. rewrite <- He. apply in_map, Hin.
Qed.

Lemma get_middle {V} k (v : V) m1 m2 :
  ~ In k (map fst m1) -> JsMap.get k (m1 ++ (k, v) :: m2) = Some v.
Proof.
  intros Hk. unfold JsMap.get.
  induction m1 as [| [k' v'] m1 IH]; cbn [app List.find fst].
  - rewrite String.eqb_refl. reflexivity.
  - destruct (String.eqb_spec k' k) as [-> | Hne].
    + exfalso. apply Hk. left. reflexivity.
    + apply IH. intros Hin. apply Hk. right. exact Hin.
Qed.

(** Writing under a key already present replaces its entry in place. *)
Lemma set_split {V} k (v0 v : V) (m : JsMap.t V) :
  List.NoDup (map fst m) -> In (k, v0) m ->
  exists m1 m2,
    m = m1 ++ (k, v0) :: m2 /\ JsMap.set k v m = m1 ++ (k, v) :: m2 /\
    ~ In k (map fst m1) /\ ~ In k (map fst m2).
Proof.
  intros Hnd Hin. destruct (in_split _ _ Hin) as (m1 & m2 & ->).
  exists m1, m2. split; [reflexivity |].
  rewrite map_app in Hnd. cbn [map fst] in Hnd.
  pose proof (List.NoDup_remove_2 _ _ _ Hnd) as Hfresh.
  assert (H1 : ~ In k (map fst m1)) by (intros H; apply Hfresh, in_or_app; left; exact H).
  assert (H2 : ~ In k (map fst m2)) by (intros H; apply Hfresh, in_or_app; right; exact H).
  split; [| split; assumption].
  unfold JsMap.set.
  assert (Hhas : JsMap.has k (m1 ++ (k, v0) :: m2) = true).
  { rewrite has_keyIn. apply keyIn_In. rewrite map_app. apply in_or_app.
    right. left. reflexivity. }
  rewrite Hhas, map_app. cbn [map fst]. rewrite String.eqb_refl.
  assert (Hid : forall l : JsMap.t V, ~ In k (map fst l) ->
            map (fun e => if String.eqb (fst e) k then (k, v) else e) l = l).
  { induction l as [| e l IH]; [reflexivity |]. cbn [map]. intros Hl.
    destruct (String.eqb_spec (fst e) k) as [E | _].
    - exfalso. apply Hl. left. exact E.
    - rewrite IH; [reflexivity |]. intros H. apply Hl. right. exact H. }
  rewrite (Hid m1 H1), (Hid m2 H2). reflexivity.
Qed.

Lemma wellKeyed_value m f : wellKeyed m -> In f (JsMap.values m) -> In (id f, f) m.
Proof.
  intros (_ & Hid) Hin. apply in_map_iff in Hin. destruct Hin as ([k g] & <- & Hin).
  rewrite List.Forall_forall in Hid. specialize (Hid _ Hin). cbn in Hid. subst k. exact Hin.
Qed.

Lemma wellKeyed_replace m1 m2 k f g :
  wellKeyed (m1 ++ (k, f) :: m2) -> id g = k -> wellKeyed (m1 ++ (k, g) :: m2).
Proof.
  intros (Hnd & Hid) Hg. split.
  - rewrite map_app in *. exact Hnd.
  - apply Forall_app in Hid. destruct Hid as (H1 & H2).
    apply Forall_app. split; [exact H1 |].
    inversion H2 as [| ? ? _ Htl]. constructor; [symmetry; exact Hg | exact Htl].
Qed.

Lemma wellKeyed_append m k f :
  wellKeyed m -> ~ In k (map fst m) -> id f = k -> wellKeyed (m ++ [(k, f)]).
Proof.
  intros (Hnd & Hid) Hk Hf. split.
  - rewrite map_app. cbn [map fst].
    eapply Permutation.Permutation_NoDup; [apply Permutation_cons_append |].
    constructor; assumption.
  - apply Forall_app. split; [exact Hid |]. constructor; [symmetry; exact Hf | constructor].
Qed.

(** The two cases of [upsertFact]. *)
Lemma upsertFact_existing t u fact w existing :
  List.find (matches fact) (JsMap.values (factsOf t u w)) = Some existing ->
  let updated := spreadUpsert existing fact (clock w (ticks w)) in
  exists w',
    upsertFact t u fact w = (Ok updated, w') /\
    clock w' = clock w /\ uuids w' = uuids w /\
    ticks w' = S (ticks w) /\ draws w' = draws w /\
    factsOf t u w' = JsMap.set (id existing) updated (factsOf t u w) /\
    sameFactsBut t u w w'.
Proof.
  intros Hfind updated. unfold upsertFact.
  match goal with
  | |- context [bind (ensureInitialized t) (fun _ => bind (getUserData t u) ?k)] =>
      destruct (enter_run t u k w) as (w1 & H1 & (Hc & Ht & Hu & Hd) & Hf)
  end.
  rewrite H1. cbn [facts]. unfold matches in Hfind. rewrite Hfind.
  unfold bind at 1, newDate at 1.
  cbn [clock ticks uuids draws]. rewrite Hc, Ht. fold updated.
  match goal with
  | |- context [bind (setFacts t u ?fs) _ ?w2] =>
      destruct (setFacts_run t u fs w2) as (w3 & H3 & (Hc3 & Ht3 & Hu3 & Hd3) & Hput & Hbut);
      unfold bind; rewrite H3
  end.
  exists w3. split; [reflexivity |].
  cbn [clock ticks uuids draws] in Hc3, Ht3, Hu3, Hd3.
  repeat split; try congruence.
  intros t' u' Hne. rewrite (Hbut t' u' Hne).
  transitivity (factsOf t' u' w1); [| apply Hf].
  unfold factsOf. destruct t'; reflexivity.
Qed.

Lemma getFactById_run t u k w :
  exists w',
    getFactById t u k w = (Ok (JsMap.get k (factsOf t u w)), w') /\
    sameEnv w w' /\ sameFacts w w'.
Proof.
  unfold getFactById.
  destruct (enter_run t u (fun userData => ret (JsMap.get k (facts userData))) w)
    as (w1 & H1 & He & Hf).
  exists w1. rewrite H1. split; [reflexivity | split; assumption].
Qed.

Lemma updateFact_missing_run t u k updates w :
  JsMap.get k (factsOf t u w) = None ->
  exists w',
    updateFact t u k updates w = (Err ("Fact not found: " ++ k)%string, w') /\
    sameEnv w w' /\ sameFacts w w'.
Proof.
  intros Hget. unfold updateFact.
  match goal with
  | |- context [bind (ensureInitialized t) (fun _ => bind (getUserData t u) ?k)] =>
      destruct (enter_run t u k w) as (w1 & H1 & He & Hf)
  end.
  exists w1. rewrite H1. cbn [facts]. rewrite Hget.
  split; [reflexivity | split; assumption].
Qed.

Lemma updateFact_found_run t u k updates w fact :
  JsMap.get k (factsOf t u w) = Some fact ->
  let updated := spreadUpdate fact updates (clock w (ticks w)) in
  exists w',
    updateFact t u k updates w = (Ok updated, w') /\
    clock w' = clock w /\ uuids w' = uuids w /\
    ticks w' = S (ticks w) /\ draws w' = draws w /\
    factsOf t u w' = JsMap.set k updated (factsOf t u w) /\
    sameFactsBut t u w w'.
Proof.
  intros Hget updated. unfold updateFact.
  match goal with
  | |- context [bind (ensureInitialized t) (fun _ => bind (getUserData t u) ?k)] =>
      destruct (enter_run t u k w) as (w1 & H1 & (Hc & Ht & Hu & Hd) & Hf)
  end.
  rewrite H1. cbn [facts]. rewrite Hget.
  unfold bind at 1, newDate at 1.
  cbn [clock ticks uuids draws]. rewrite Hc, Ht. fold updated.
  match goal with
  | |- context [bind (setFacts t u ?fs) _ ?w2] =>
      destruct (setFacts_run t u fs w2) as (w3 & H3 & (Hc3 & Ht3 & Hu3 & Hd3) & Hput & Hbut);
      unfold bind; rewrite H3
  end.
  exists w3. split; [reflexivity |].
  cbn [clock ticks uuids draws] in Hc3, Ht3, Hu3, Hd3.
  repeat split; try congruence.
  intros t' u' Hne. rewrite (Hbut t' u' Hne).
  transitivity (factsOf t' u' w1); [| apply Hf].
  unfold factsOf. destruct t'; reflexivity.
Qed.

Lemma deleteFact_found_run t u k reason w fact :
  JsMap.get k (factsOf t u w) = Some fact ->
  exists w',
    deleteFact t u k reason w = (Ok tt, w') /\
    clock w' = clock w /\ uuids w' = uuids w /\
    ticks w' = S (ticks w) /\ draws w' = draws w /\
    factsOf t u w' = JsMap.set k (invalidate fact (clock w (ticks w))) (factsOf t u w) /\
    sameFactsBut t u w w'.
Proof.
  intros Hget. unfold deleteFact.
  match goal with
  | |- context [bind (ensureInitialized t) (fun _ => bind (getUserData t u) ?k)] =>
      destruct (enter_run t u k w) as (w1 & H1 & (Hc & Ht & Hu & Hd) & Hf)
  end.
  rewrite H1. cbn [facts]. rewrite Hget.
  unfold bind at 1, newDate at 1.
  cbn [clock ticks uuids draws]. rewrite Hc, Ht.
  match goal with
  | |- context [setFacts t u ?fs ?w2] =>
      destruct (setFacts_run t u fs w2) as (w3 & H3 & (Hc3 & Ht3 & Hu3 & Hd3) & Hput & Hbut)
  end.
  exists w3. split; [exact H3 |].
  cbn [clock ticks uuids draws] in Hc3, Ht3, Hu3, Hd3.
  repeat split; try congruence.
  intros t' u' Hne. rewrite (Hbut t' u' Hne).
  transitivity (factsOf t' u' w1); [| apply Hf].
  unfold factsOf. destruct t'; reflexivity.
Qed.

Lemma deleteFact_missing_run t u k reason w :
  JsMap.get k (factsOf t u w) = None ->
  exists w',
    deleteFact t u k reason w = (Ok tt, w') /\ sameEnv w w' /\ sameFacts w w'.
Proof.
  intros Hget. unfold deleteFact.
  match goal with
  | |- context [bind (ensureInitialized t) (fun _ => bind (getUserData t u) ?k)] =>
      destruct (enter_run t u k w) as (w1 & H1 & He & Hf)
  end.
  exists w1. rewrite H1. cbn [facts]. rewrite Hget.
  split; [reflexivity | split; assumption].
Qed.

End StoreRuns.

Section StoreFacts.
Import InMemory TieredDefs StoreDefs.

Lemma get_of_In {V} k (v : V) (m : JsMap.t V) :
  List.NoDup (map fst m) -> In (k, v) m -> JsMap.get k m = Some v.
Proof.
  intros Hnd Hin. destruct (set_split k v v m Hnd Hin) as (m1 & m2 & -> & _ & H1 & _).
  apply get_middle, H1.
Qed.

Lemma values_app {V} (m1 m2 : JsMap.t V) :
  JsMap.values (m1 ++ m2) = JsMap.values m1 ++ JsMap.values m2.
Proof. apply map_app. Qed.

Lemma validKeys_app (l1 l2 : list MemoryFact) :
  map keyOf (List.filter isValid (l1 ++ l2))
  = map keyOf (List.filter isValid l1) ++ map keyOf (List.filter isValid l2).
Proof. rewrite List.filter_app, map_app. reflexivity. Qed.

Lemma singleValued_replace m1 m2 k f g :
  singleValued (m1 ++ (k, f) :: m2) -> isValid f = true -> keyOf g = keyOf f ->
  singleValued (m1 ++ (k, g) :: m2).
Proof.
  unfold singleValued. rewrite !values_app. cbn [JsMap.values map snd].
  rewrite !validKeys_app. cbn [List.filter]. intros Hnd Hf Hg. rewrite Hf in Hnd.
  cbn [map] in Hnd. destruct (isValid g); cbn [map].
  - rewrite Hg. exact Hnd.
  - apply List.NoDup_remove_1 in Hnd. exact Hnd.
Qed.

Lemma singleValued_append m k f :
  singleValued m ->
  (isValid f = true ->
   ~ In (keyOf f) (map keyOf (List.filter isValid (JsMap.values m)))) ->
  singleValued (m ++ [(k, f)]).
Proof.
  unfold singleValued. rewrite values_app, validKeys_app.
  cbn [JsMap.values map snd List.filter]. intros Hnd Hf.
  destruct (isValid f); cbn [map]; [| rewrite app_nil_r; exact Hnd].
  eapply Permutation.Permutation_NoDup; [apply Permutation_cons_append |].
  constructor; [apply Hf; reflexivity | exact Hnd].
Qed.

Lemma matches_key fact f :
  matches fact f = true <-> keyOf f = inputKey fact /\ isValid f = true.
Proof.
  unfold matches, keyOf, inputKey. rewrite !andb_true_iff, !String.eqb_eq.
  split; [intros ((-> & ->) & Hv); split; [reflexivity | exact Hv] |].
  intros ([= -> ->] & Hv). auto.
Qed.

Lemma find_none_key fact l :
  List.find (matches fact) l = None ->
  ~ In (inputKey fact) (map keyOf (List.filter isValid l)).
Proof.
  intros Hfind Hin. apply in_map_iff in Hin. destruct Hin as (g & Hk & Hg).
  apply filter_In in Hg. destruct Hg as (Hg & Hv).
  pose proof (find_none _ _ Hfind g Hg) as H.
  assert (matches fact g = true) by (apply matches_key; auto). congruence.
Qed.

(** What [upsertFact] does to a store whose keys are the identifiers of
    its facts and that holds one valid fact at most for each (subject,
    predicate). *)
Lemma upsertFact_spec t u fact w :
  wellKeyed (factsOf t u w) ->
  singleValued (factsOf t u w) ->
  in_id fact = None ->
  ~ In (uuids w (draws w)) (map fst (factsOf t u w)) ->
  exists saved w',
    upsertFact t u fact w = (Ok saved, w') /\
    wellKeyed (factsOf t u w') /\ singleValued (factsOf t u w') /\
    sameFactsBut t u w w' /\
    In (id saved, saved) (factsOf t u w') /\
    keyOf saved = inputKey fact /\ object saved = in_object fact /\
    invalidatedAt saved = in_invalidatedAt fact /\
    updatedAt saved = clock w (ticks w).
Proof.
  intros Hwk Hsv Hid Hfresh.
  destruct (List.find (matches fact) (JsMap.values (factsOf t u w))) as [ex |] eqn:Hfind.
  - destruct (upsertFact_existing t u fact w ex Hfind)
      as (w' & Hrun & _ & _ & _ & _ & Hput & Hbut).
    apply find_some in Hfind. destruct Hfind as (Hin & Hm).
    apply matches_key in Hm. destruct Hm as (Hkey & Hv).
    pose proof (wellKeyed_value _ _ Hwk Hin) as Hentry.
    set (updated := spreadUpsert ex fact (clock w (ticks w))) in *.
    assert (Hidu : id updated = id ex) by (cbn; rewrite Hid; reflexivity).
    destruct (set_split (id ex) ex updated _ (proj1 Hwk) Hentry)
      as (m1 & m2 & Hm & Hset & _ & _).
    rewrite Hset in Hput. rewrite Hm in Hwk, Hsv.
    exists updated, w'. split; [exact Hrun |]. rewrite Hput.
    split; [apply (wellKeyed_replace _ _ _ ex); assumption |].
    split; [apply (singleValued_replace _ _ _ ex); [assumption | assumption |
                                                    rewrite Hkey; reflexivity] |].
    split; [exact Hbut |].
    split; [rewrite Hidu; apply in_or_app; right; left; reflexivity |].
    repeat split; reflexivity.
  - destruct (upsertFact_fresh t u fact w Hfind)
      as (w' & Hrun & _ & _ & _ & _ & Hput & Hbut).
    set (newFact := freshFact fact (uuids w (draws w)) (clock w (ticks w))) in *.
    change (id newFact) with (uuids w (draws w)) in Hput.
    rewrite (set_fresh _ _ _ Hfresh) in Hput.
    exists newFact, w'. split; [exact Hrun |]. rewrite Hput.
    split; [apply wellKeyed_append; [assumption | assumption | reflexivity] |].
    split; [apply singleValued_append; [assumption |];
            intros _; apply (find_none_key fact), Hfind |].
    split; [exact Hbut |].
    split; [apply in_or_app; right; left; reflexivity |].
    repeat split; reflexivity.
Qed.

(** X18: [upsertFact] keeps one valid fact at most for each (subject,
    predicate).  On a store whose keys are the identifiers of its
    facts and that holds one valid fact at most per (subject,
    predicate), a write of a fact that carries no identifier, with an
    identifier source that yields a new identifier, returns and leaves
    a store with the same two properties; no other user and no other
    store is touched. *)
Theorem X18_upsertFact_single_valued t u fact w :
  wellKeyed (factsOf t u w) ->
  singleValued (factsOf t u w) ->
  in_id fact = None ->
  ~ In (uuids w (draws w)) (map fst (factsOf t u w)) ->
  exists saved w',
    upsertFact t u fact w = (Ok saved, w') /\
    wellKeyed (factsOf t u w') /\ singleValued (factsOf t u w') /\
    sameFactsBut t u w w'.
Proof.
  intros Hwk Hsv Hid Hfresh.
  destruct (upsertFact_spec t u fact w Hwk Hsv Hid Hfresh)
    as (saved & w' & H1 & H2 & H3 & H4 & _).
  exists saved, w'. auto.
Qed.

Lemma nameWorld_wellKeyed : wellKeyed (factsOf Cold "user1" nameWorld).
Proof.
  split.
  - apply NoDup_ListNoDup, (bool_decide_unpack _). vm_compute. reflexivity.
  - repeat constructor.
Qed.

Lemma nameWorld_singleValued : singleValued (factsOf Cold "user1" nameWorld).
Proof.
  unfold singleValued.
  apply NoDup_ListNoDup, (bool_decide_unpack _). vm_compute. reflexivity.
Qed.

Lemma nameWorld_fresh :
  ~ In (uuids nameWorld (draws nameWorld)) (map fst (factsOf Cold "user1" nameWorld)).
Proof. vm_compute. intros [H | []]. discriminate. Qed.

Lemma X18_upsertFact_single_valued_witness :
  exists saved w',
    upsertFact Cold "user1" renameInput nameWorld = (Ok saved, w') /\
    wellKeyed (factsOf Cold "user1" w') /\ singleValued (factsOf Cold "user1" w') /\
    sameFactsBut Cold "user1" nameWorld w'.
Proof.
  apply (X18_upsertFact_single_valued Cold "user1" renameInput nameWorld).
  - exact nameWorld_wellKeyed.
  - exact nameWorld_singleValued.
  - reflexivity.
  - exact nameWorld_fresh.
Defined.

Lemma no_key_filter (l : list MemoryFact) s p :
  ~ In (s, p) (map keyOf (List.filter isValid l)) ->
  List.filter isValid
    (List.filter (fun f => String.eqb (predicate f) p)
       (List.filter (fun f => String.eqb (subject f) s) l)) = [].
Proof.
  induction l as [| h l IH]; [reflexivity |].
  cbn [List.filter]. intros Hk.
  destruct (isValid h) eqn:Hv; cbn [map] in Hk.
  - destruct (String.eqb_spec (subject h) s) as [Es | Es]; cbn [List.filter].
    + destruct (String.eqb_spec (predicate h) p) as [Ep | Ep]; cbn [List.filter].
      * exfalso. apply Hk. left. unfold keyOf. congruence.
      * apply IH. intros H. apply Hk. right. exact H.
    + apply IH. intros H. apply Hk. right. exact H.
  - destruct (String.eqb (subject h) s); cbn [List.filter];
      [destruct (String.eqb (predicate h) p); cbn [List.filter]; rewrite ?Hv |];
      apply IH, Hk.
Qed.

Lemma unique_by_key (l : list MemoryFact) r :
  List.NoDup (map keyOf (List.filter isValid l)) -> In r l -> isValid r = true ->
  List.filter isValid
    (List.filter (fun f => String.eqb (predicate f) (predicate r))
       (List.filter (fun f => String.eqb (subject f) (subject r)) l)) = [r].
Proof.
  induction l as [| h l IH]; [intros _ [] |].
  cbn [List.filter]. intros Hnd Hin Hv.
  destruct Hin as [-> | Hin].
  - rewrite Hv in Hnd. cbn [map] in Hnd. inversion Hnd as [| ? ? Hfresh _]; subst.
    rewrite String.eqb_refl. cbn [List.filter]. rewrite String.eqb_refl.
    cbn [List.filter]. rewrite Hv. f_equal. apply no_key_filter, Hfresh.
  - destruct (isValid h) eqn:Hh; cbn [map] in Hnd.
    + inversion Hnd as [| ? ? Hfresh Hnd']; subst.
      assert (Hne : keyOf h <> keyOf r).
      { intros E. apply Hfresh. rewrite E. apply in_map, filter_In. auto. }
      destruct (String.eqb_spec (subject h) (subject r)) as [Es | Es]; cbn [List.filter].
      * destruct (String.eqb_spec (predicate h) (predicate r)) as [Ep | Ep];
          cbn [List.filter].
        -- exfalso. apply Hne. unfold keyOf. congruence.
        -- apply IH; assumption.
      * apply IH; assumption.
    + destruct (String.eqb (subject h) (subject r)); cbn [List.filter];
        [destruct (String.eqb (predicate h) (predicate r)); cbn [List.filter]; rewrite ?Hh |];
        apply IH; assumption.
Qed.

Lemma applyFilter_key s p all :
  s <> "" -> p <> "" ->
  applyFilter (Some (keyFilter s p)) all
  = List.filter isValid
      (List.filter (fun f => String.eqb (predicate f) p)
         (List.filter (fun f => String.eqb (subject f) s) all)).
Proof.
  intros Hs Hp. unfold applyFilter, keyFilter.
  cbn [f_subject f_predicate f_predicates f_validOnly f_orderBy f_limit].
  apply String.eqb_neq in Hs, Hp. rewrite Hs, Hp. reflexivity.
Qed.

(** X19: a fact written is read back.  Under the hypotheses of X18,
    after [upsertFact] of a valid fact with a non-empty subject and
    predicate, [getFactById] with the identifier returned gives the
    fact returned, and [getFacts] filtered by that subject and
    predicate gives exactly that fact: the value written replaces the
    one stored. *)
Theorem X19_upsertFact_read_back t u fact w :
  wellKeyed (factsOf t u w) ->
  singleValued (factsOf t u w) ->
  in_id fact = None ->
  ~ In (uuids w (draws w)) (map fst (factsOf t u w)) ->
  in_invalidatedAt fact = None ->
  in_subject fact <> "" -> in_predicate fact <> "" ->
  exists saved w1 w2 w3,
    upsertFact t u fact w = (Ok saved, w1) /\
    object saved = in_object fact /\
    getFactById t u (id saved) w1 = (Ok (Some saved), w2) /\
    getFacts t u (Some (keyFilter (in_subject fact) (in_predicate fact))) w1
    = (Ok [saved], w3).
Proof.
  intros Hwk Hsv Hid Hfresh Hvalid Hs Hp.
  destruct (upsertFact_spec t u fact w Hwk Hsv Hid Hfresh)
    as (saved & w1 & Hrun & Hwk' & Hsv' & _ & Hin & Hkey & Hobj & Hinv & _).
  destruct (getFactById_run t u (id saved) w1) as (w2 & Hget & _).
  destruct (getFacts_run t u (Some (keyFilter (in_subject fact) (in_predicate fact))) w1)
    as (w3 & Hlist & _).
  exists saved, w1, w2, w3. split; [exact Hrun |]. split; [exact Hobj |].
  split.
  - rewrite Hget, (get_of_In _ _ _ (proj1 Hwk') Hin). reflexivity.
  - rewrite Hlist, (applyFilter_key _ _ _ Hs Hp). do 2 f_equal.
    unfold keyOf, inputKey in Hkey. injection Hkey as <- <-.
    apply unique_by_key.
    + exact Hsv'.
    + apply in_map_iff. exists (id saved, saved). split; [reflexivity | exact Hin].
    + unfold isValid. rewrite Hinv, Hvalid. reflexivity.
Qed.

Lemma X19_upsertFact_read_back_witness :
  exists saved w1 w2 w3,
    upsertFact Cold "user1" renameInput nameWorld = (Ok saved, w1) /\
    object saved = "Johnny" /\
    getFactById Cold "user1" (id saved) w1 = (Ok (Some saved), w2) /\
    getFacts Cold "user1" (Some (keyFilter "User" "NAME")) w1 = (Ok [saved], w3).
Proof.
  apply (X19_upsertFact_read_back Cold "user1" renameInput nameWorld).
  - exact nameWorld_wellKeyed.
  - exact nameWorld_singleValued.
  - reflexivity.
  - exact nameWorld_fresh.
  - reflexivity.
  - discriminate.
  - discriminate.
Defined.

Lemma filter_id_other (l : JsMap.t MemoryFact) k :
  Forall (fun e => fst e = id (snd e)) l -> ~ In k (map fst l) ->
  List.filter (fun f => negb (String.eqb (id f) k)) (List.filter isValid (JsMap.values l))
  = List.filter isValid (JsMap.values l).
Proof.
  intros Hid Hk. apply filter_all. apply List.Forall_forall. intros f Hf.
  apply filter_In in Hf. destruct Hf as (Hf & _).
  apply in_map_iff in Hf. destruct Hf as (e & <- & He).
  rewrite List.Forall_forall in Hid. specialize (Hid _ He).
  apply negb_true_iff, String.eqb_neq. intros E. apply Hk.
  rewrite <- E, <- Hid. apply in_map, He.
Qed.

(** X20: [deleteFact] is a soft delete.  On a store whose keys are the
    identifiers of its facts, deleting a stored fact keeps it in the
    store, stamped with the clock reading as its invalidation time:
    [getFactById] still returns it, the store has as many facts as
    before, and the valid facts listed by [getFacts] are those listed
    before without that one. *)
Theorem X20_deleteFact_soft t u k reason w fact :
  wellKeyed (factsOf t u w) ->
  JsMap.get k (factsOf t u w) = Some fact ->
  exists w' w1 w2,
    deleteFact t u k reason w = (Ok tt, w') /\
    getFactById t u k w'
    = (Ok (Some (invalidate fact (clock w (ticks w)))), w1) /\
    getFacts t u (Some (validOnlyFilter true)) w'
    = (Ok (List.filter (fun f => negb (String.eqb (id f) k))
             (List.filter isValid (JsMap.values (factsOf t u w)))), w2) /\
    List.length (factsOf t u w') = List.length (factsOf t u w) /\
    sameFactsBut t u w w'.
Proof.
  intros Hwk Hget.
  destruct (deleteFact_found_run t u k reason w fact Hget)
    as (w' & Hrun & _ & _ & _ & _ & Hput & Hbut).
  destruct (getFactById_run t u k w') as (w1 & Hbyid & _).
  destruct (getFacts_run t u (Some (validOnlyFilter true)) w') as (w2 & Hlist & _).
  pose proof (get_In _ _ _ Hget) as Hin.
  destruct (set_split k fact (invalidate fact (clock w (ticks w))) _ (proj1 Hwk) Hin)
    as (m1 & m2 & Hm & Hset & Hk1 & Hk2).
  rewrite Hset in Hput.
  exists w', w1, w2. split; [exact Hrun |]. split; [| split; [| split]].
  - rewrite Hbyid, Hput. rewrite (get_middle _ _ _ _ Hk1). reflexivity.
  - rewrite Hlist, Hput, Hm. do 2 f_equal.
    destruct Hwk as (_ & Hid). rewrite Hm in Hid.
    apply Forall_app in Hid. destruct Hid as (Hid1 & Hid2).
    inversion Hid2 as [| ? ? Hf Hid2']; subst. cbn [fst snd] in Hf.
    change (applyFilter (Some (validOnlyFilter true)) ?l) with (List.filter isValid l).
    rewrite !values_app. cbn [JsMap.values map snd].
    fold (JsMap.values m1) (JsMap.values m2).
    rewrite !List.filter_app.
    rewrite (filter_id_other m1 _ Hid1 Hk1). f_equal.
    cbn [List.filter].
    change (isValid (invalidate fact (clock w (ticks w)))) with false.
    cbv iota.
    destruct (isValid fact); cbn [List.filter].
    + rewrite <- Hf, String.eqb_refl. cbn [negb].
      symmetry. apply (filter_id_other m2 _ Hid2' Hk2).
    + symmetry. apply (filter_id_other m2 _ Hid2' Hk2).
  - rewrite Hput, Hm, !List.length_app. reflexivity.
  - exact Hbut.
Qed.

Lemma X20_deleteFact_soft_witness :
  exists w' w1 w2,
    deleteFact Cold "user1" "a" None nameWorld = (Ok tt, w') /\
    getFactById Cold "user1" "a" w'
    = (Ok (Some (invalidate (freshFact nameInput "a" 1000) 1001)), w1) /\
    getFacts Cold "user1" (Some (validOnlyFilter true)) w' = (Ok [], w2) /\
    List.length (factsOf Cold "user1" w') = 1%nat /\
    sameFactsBut Cold "user1" nameWorld w'.
Proof.
  apply (X20_deleteFact_soft Cold "user1" "a" None nameWorld (freshFact nameInput "a" 1000)).
  - exact nameWorld_wellKeyed.
  - reflexivity.
Defined.

(** X21: [updateFact] on an identifier that is not stored throws
    "Fact not found: <id>" and changes no fact of any user; the clock
    and the identifier source are not read. *)
Theorem X21_updateFact_missing t u k updates w :
  JsMap.get k (factsOf t u w) = None ->
  exists w',
    updateFact t u k updates w = (Err ("Fact not found: " ++ k)%string, w') /\
    sameEnv w w' /\ sameFacts w w'.
Proof.
  intros Hget. unfold updateFact.
  match goal with
  | |- context [bind (ensureInitialized t) (fun _ => bind (getUserData t u) ?k)] =>
      destruct (enter_run t u k w) as (w1 & H1 & He & Hf)
  end.
  exists w1. rewrite H1. cbn [facts]. rewrite Hget.
  split; [reflexivity | split; assumption].
Qed.

Lemma X21_updateFact_missing_witness :
  exists w',
    updateFact Cold "user1" "zz" noUpdates nameWorld = (Err "Fact not found: zz", w') /\
    sameEnv nameWorld w' /\ sameFacts nameWorld w'.
Proof.
  apply (X21_updateFact_missing Cold "user1" "zz" noUpdates nameWorld). reflexivity.
Defined.

Lemma sortBy_In {B} (gt : B -> B -> bool) l x : In x (JsArray.sortBy gt l) -> In x l.
Proof.
  intros H. eapply Permutation_in; [apply Permutation_sym, sortBy_perm | exact H].
Qed.

Lemma slice0_In {B} n (l : list B) x : In x (JsArray.slice0 n l) -> In x l.
Proof. unfold JsArray.slice0. destruct (0 <=? n); apply in_firstn. Qed.

Lemma slice0_length {B} n (l : list B) :
  0 < n -> Z.of_nat (List.length (JsArray.slice0 n l)) <= n.
Proof.
  intros Hn. unfold JsArray.slice0.
  destruct (0 <=? n) eqn:E; [| apply Z.leb_gt in E; lia].
  rewrite List.length_firstn. lia.
Qed.

(** X22: what [getFacts] returns under a filter.  The call returns
    and changes no fact; the facts returned are stored facts of the
    user; unless [validOnly] is false they are all valid; with a
    non-empty [subject] or [predicate] they all have it; with a
    positive [limit] they are at most that many. *)
Theorem X22_getFacts_filter_sound t u filter w :
  exists facts w',
    getFacts t u (Some filter) w = (Ok facts, w') /\
    sameEnv w w' /\ sameFacts w w' /\
    incl facts (JsMap.values (factsOf t u w)) /\
    (f_validOnly filter <> Some false -> Forall (fun f => isValid f = true) facts) /\
    (forall s, f_subject filter = Some s -> s <> "" ->
               Forall (fun f => subject f = s) facts) /\
    (forall p, f_predicate filter = Some p -> p <> "" ->
               Forall (fun f => predicate f = p) facts) /\
    (forall n, f_limit filter = Some n -> 0 < n ->
               Z.of_nat (List.length facts) <= n).
Proof.
  destruct (getFacts_run t u (Some filter) w) as (w' & Hrun & He & Hf).
  eexists _, w'. split; [exact Hrun |]. split; [exact He |]. split; [exact Hf |].
  set (all := JsMap.values (factsOf t u w)).
  unfold applyFilter.
  set (facts1 := match f_subject filter with
                 | Some s => if String.eqb s "" then all
                             else List.filter (fun f => String.eqb (subject f) s) all
                 | None => all end).
  set (facts2 := match f_predicate filter with
                 | Some p => if String.eqb p "" then facts1
                             else List.filter (fun f => String.eqb (predicate f) p) facts1
                 | None => facts1 end).
  set (facts3 := match f_predicates filter with
                 | Some (p :: ps) =>
                     List.filter (fun f => JsString.includes (p :: ps) (predicate f)) facts2
                 | _ => facts2 end).
  set (facts4 := match f_validOnly filter with
                 | Some false => facts3
                 | _ => List.filter isValid facts3 end).
  set (facts5 := match f_orderBy filter with
                 | Some by' => JsArray.sortBy (orderedAfter by' (f_orderDir filter)) facts4
                 | None => facts4 end).
  set (facts6 := match f_limit filter with
                 | Some limit => if limit =? 0 then facts5 else JsArray.slice0 limit facts5
                 | None => facts5 end).
  assert (H1 : incl facts1 all).
  { unfold facts1. destruct (f_subject filter) as [s |]; [| apply incl_refl].
    destruct (String.eqb s ""); [apply incl_refl |]. intros x Hx.
    apply filter_In in Hx. apply Hx. }
  assert (H2 : incl facts2 facts1).
  { unfold facts2. destruct (f_predicate filter) as [p |]; [| apply incl_refl].
    destruct (String.eqb p ""); [apply incl_refl |]. intros x Hx.
    apply filter_In in Hx. apply Hx. }
  assert (H3 : incl facts3 facts2).
  { unfold facts3. destruct (f_predicates filter) as [[| p ps] |]; try apply incl_refl.
    intros x Hx. apply filter_In in Hx. apply Hx. }
  assert (H4 : incl facts4 facts3).
  { unfold facts4. destruct (f_validOnly filter) as [[] |]; try apply incl_refl;
      intros x Hx; apply filter_In in Hx; apply Hx. }
  assert (H5 : incl facts5 facts4).
  { unfold facts5. destruct (f_orderBy filter); [| apply incl_refl].
    intros x. apply sortBy_In. }
  assert (H6 : incl facts6 facts5).
  { unfold facts6. destruct (f_limit filter) as [n |]; [| apply incl_refl].
    destruct (n =? 0); [apply incl_refl |]. intros x. apply slice0_In. }
  split; [| split; [| split; [| split]]].
  - intros x Hx. apply H1, H2, H3, H4, H5, H6, Hx.
  - intros Hv. apply List.Forall_forall. intros x Hx.
    apply H6, H5 in Hx. unfold facts4 in Hx.
    destruct (f_validOnly filter) as [[] |]; try congruence;
      apply filter_In in Hx; apply Hx.
  - intros s Hs Hne. apply List.Forall_forall. intros x Hx.
    apply H6, H5, H4, H3, H2 in Hx. unfold facts1 in Hx. rewrite Hs in Hx.
    apply String.eqb_neq in Hne. rewrite Hne in Hx.
    apply filter_In in Hx. apply String.eqb_eq, Hx.
  - intros p Hp Hne. apply List.Forall_forall. intros x Hx.
    apply H6, H5, H4, H3 in Hx. unfold facts2 in Hx. rewrite Hp in Hx.
    apply String.eqb_neq in Hne. rewrite Hne in Hx.
    apply filter_In in Hx. apply String.eqb_eq, Hx.
  - intros n Hn Hpos. unfold facts6. rewrite Hn.
    destruct (n =? 0) eqn:E; [apply Z.eqb_eq in E; lia |].
    apply slice0_length, Hpos.
Qed.

End StoreFacts.

(** ** Consolidation worker over the in-memory adapter *)

Section WorkerRuns.
Import InMemory TieredDefs StoreDefs ConsolidationWorker WorkerDefs.

Variable t : Tier.
Variable u : string.

Lemma newDate_run w :
  exists w',
    newDate w = (Ok (clock w (ticks w)), w') /\
    clock w' = clock w /\ ticks w' = S (ticks w) /\
    uuids w' = uuids w /\ draws w' = draws w /\
    (forall t' u', factsOf t' u' w' = factsOf t' u' w).
Proof.
  eexists. split; [reflexivity |]. repeat split.
Qed.

Lemma set_keys {V} k (v : V) (m : JsMap.t V) :
  In k (map fst m) -> map fst (JsMap.set k v m) = map fst m.
Proof.
  intros Hk. unfold JsMap.set.
  assert (Hhas : JsMap.has k m = true) by (rewrite has_keyIn; apply keyIn_In, Hk).
  rewrite Hhas, map_map. apply map_ext_in. intros e _.
  destruct (String.eqb_spec (fst e) k) as [E | _]; [symmetry; exact E | reflexivity].
Qed.

Lemma set_other {V} k (v : V) (m : JsMap.t V) e :
  In e m -> fst e <> k -> In e (JsMap.set k v m).
Proof.
  intros He Hne. unfold JsMap.set. destruct (JsMap.has k m).
  - apply in_map_iff. exists e. split; [| exact He].
    apply String.eqb_neq in Hne. rewrite Hne. reflexivity.
  - apply in_or_app. left. exact He.
Qed.

Lemma set_In {V} k (v : V) (m : JsMap.t V) :
  In k (map fst m) -> In (k, v) (JsMap.set k v m).
Proof.
  intros Hk. unfold JsMap.set.
  assert (Hhas : JsMap.has k m = true) by (rewrite has_keyIn; apply keyIn_In, Hk).
  rewrite Hhas. apply in_map_iff in Hk. destruct Hk as (e & Hk & He).
  apply in_map_iff. exists e. split; [| exact He].
  rewrite Hk, String.eqb_refl. reflexivity.
Qed.

Lemma pending_step f rest m g :
  pending (f :: rest) m -> pending rest (JsMap.set (id f) g m).
Proof.
  intros (Hnd & Hkeys & Hin).
  assert (Hk : In (id f) (map fst m)).
  { apply in_map_iff. exists (id f, f). split; [reflexivity | apply Hin; left; reflexivity]. }
  inversion Hnd as [| ? ? Hfresh Hnd']; subst.
  split; [exact Hnd' |]. split; [rewrite set_keys; assumption |].
  intros h Hh. apply set_other; [apply Hin; right; exact Hh |].
  cbn [fst]. intros E. apply Hfresh. rewrite <- E. apply in_map, Hh.
Qed.

Lemma pending_skip f rest m : pending (f :: rest) m -> pending rest m.
Proof.
  intros (Hnd & Hkeys & Hin). inversion Hnd; subst.
  split; [assumption |]. split; [assumption |]. intros h Hh. apply Hin. right. exact Hh.
Qed.

Lemma pending_get f rest m : pending (f :: rest) m -> JsMap.get (id f) m = Some f.
Proof.
  intros (_ & Hkeys & Hin). apply get_of_In; [exact Hkeys | apply Hin; left; reflexivity].
Qed.


Lemma NoDup_map_filter {A B} (g : A -> B) (p : A -> bool) l :
  List.NoDup (map g l) -> List.NoDup (map g (List.filter p l)).
Proof.
  induction l as [| x l IH]; [intros _; constructor |].
  cbn [map List.filter]. intros Hnd. inversion Hnd as [| ? ? Hfresh Hnd']; subst.
  destruct (p x); [| apply IH, Hnd'].
  cbn [map]. constructor; [| apply IH, Hnd'].
  intros Hin. apply Hfresh. apply in_map_iff in Hin. destruct Hin as (y & <- & Hy).
  apply in_map. apply filter_In in Hy. apply Hy.
Qed.

Lemma snapshot_pending (p : MemoryFact -> bool) m :
  wellKeyed m -> pending (List.filter p (JsMap.values m)) m.
Proof.
  intros Hwk. split; [| split].
  - apply NoDup_map_filter. rewrite <- (keys_are_ids m Hwk). apply Hwk.
  - apply Hwk.
  - intros f Hf. apply filter_In in Hf. apply wellKeyed_value; [exact Hwk | apply Hf].
Qed.

End WorkerRuns.

Section WorkerFacts.
Import InMemory TieredDefs StoreDefs ConsolidationWorker WorkerDefs.


Lemma twoFacts_wellKeyed : wellKeyed (factsOf Cold "user1" twoFacts).
Proof.
  split.
  - apply NoDup_ListNoDup, (bool_decide_unpack _). vm_compute. reflexivity.
  - repeat constructor.
Qed.


Section ConsolidateRuns.
Variable t : Tier.
Variable u : string.
Variable cfg : Consolidation.Config.

Lemma stage_eqb_eq a b : stage_eqb a b = true <-> a = b.
Proof. destruct a, b; cbn; split; congruence. Qed.

Lemma consolidateLoop_run facts : forall w counts,
  pending facts (factsOf t u w) ->
  exists c w',
    consolidateLoop (adapter t) newDate cfg u facts counts w = (Ok c, w') /\
    promoted c + demoted c + unchanged c
    = promoted counts + demoted counts + unchanged counts
      + Z.of_nat (List.length facts) /\
    promoted counts <= promoted c /\ demoted counts <= demoted c /\
    unchanged counts <= unchanged c /\
    clock w' = clock w /\ (ticks w <= ticks w')%nat /\
    map fst (factsOf t u w') = map fst (factsOf t u w) /\
    (forall e, In e (factsOf t u w) -> (forall f, In f facts -> id f <> fst e) ->
               In e (factsOf t u w')) /\
    (forall f, In f facts ->
       exists g n,
         In (id f, g) (factsOf t u w') /\ (ticks w <= n < ticks w')%nat /\
         default ShortTerm (memoryStage g)
         = Consolidation.determineStage cfg f (clock w n) /\
         sameButStage f g) /\
    sameFactsBut t u w w'.
Proof.
  induction facts as [| f rest IH]; intros w counts Hp.
  - exists counts, w. cbn [consolidateLoop List.length Z.of_nat].
    split; [reflexivity |]. split; [lia |]. split; [lia |]. split; [lia |].
    split; [lia |]. split; [reflexivity |]. split; [lia |]. split; [reflexivity |].
    split; [auto |]. split; [intros f [] |]. intros t' u' _. reflexivity.
  - cbn [consolidateLoop].
    destruct (newDate_run w) as (w1 & Hdate & Hc1 & Ht1 & _ & _ & Hf1).
    unfold bind at 1. rewrite Hdate.
    set (target := Consolidation.determineStage cfg f (clock w (ticks w))).
    assert (Hp1 : pending (f :: rest) (factsOf t u w1)) by (rewrite Hf1; exact Hp).
    assert (Hfresh : forall h, In h rest -> id h <> id f).
    { destruct Hp as (Hnd & _). inversion Hnd as [| ? ? Hnot _]; subst.
      intros h Hh E. apply Hnot. rewrite <- E. apply in_map, Hh. }
    assert (Hk : In (id f) (map fst (factsOf t u w))).
    { apply in_map_iff. exists (id f, f). split; [reflexivity |].
      apply Hp. left. reflexivity. }
    destruct (stage_eqb (default ShortTerm (memoryStage f)) target) eqn:Eq; cbn [negb].
    + (* unchanged *)
      apply stage_eqb_eq in Eq.
      destruct (IH w1 (mkCounts (promoted counts) (demoted counts) (unchanged counts + 1))
                  (pending_skip _ _ _ Hp1))
        as (c & w' & Hloop & Hsum & H1 & H2 & H3 & Hc & Ht & Hkeys & Hkeep & Hdone & Hbut).
      cbn [promoted demoted unchanged] in Hsum, H1, H2, H3.
      exists c, w'. split; [exact Hloop |].
      split; [cbn [List.length]; lia |]. split; [lia |]. split; [lia |]. split; [lia |].
      split; [congruence |]. split; [lia |]. split; [rewrite Hkeys, Hf1; reflexivity |].
      split; [| split].
      * intros e He Hne. apply Hkeep; [rewrite Hf1; exact He |].
        intros h Hh. apply Hne. right. exact Hh.
      * intros h [<- | Hh].
        -- exists f, (ticks w). split; [| split; [lia | split; [exact Eq |]]].
           ++ apply Hkeep; [rewrite Hf1; apply Hp; left; reflexivity |].
              intros h Hh. cbn [fst]. apply Hfresh, Hh.
           ++ unfold sameButStage. destruct f. reflexivity.
        -- destruct (Hdone h Hh) as (g & n & Hg & Hn & Hst & Hsame).
           exists g, n. split; [exact Hg |]. split; [lia |].
           split; [rewrite <- Hc1; exact Hst | exact Hsame].
      * intros t' u' Hne. rewrite (Hbut t' u' Hne). apply Hf1.
    + (* updated *)
      pose proof (pending_get _ _ _ Hp1) as Hget.
      destruct (updateFact_found_run t u (id f) (stageUpdate target) w1 f Hget)
        as (w2 & Hrun & Hc2 & _ & Ht2 & _ & Hput & Hbut2).
      cbv zeta in Hrun, Hput.
      set (updated := spreadUpdate f (stageUpdate target) (clock w1 (ticks w1))) in *.
      unfold bind at 1. cbn [Adapter.updateFact adapter]. rewrite Hrun.
      assert (Hp2 : pending rest (factsOf t u w2))
        by (rewrite Hput; apply pending_step, Hp1).
      assert (Hnext : forall counts',
                promoted counts' + demoted counts' + unchanged counts'
                = promoted counts + demoted counts + unchanged counts + 1 ->
                promoted counts <= promoted counts' ->
                demoted counts <= demoted counts' ->
                unchanged counts <= unchanged counts' ->
                exists c w',
                  consolidateLoop (adapter t) newDate cfg u rest counts' w2 = (Ok c, w') /\
                  promoted c + demoted c + unchanged c
                  = promoted counts + demoted counts + unchanged counts
                    + Z.of_nat (List.length (f :: rest)) /\
                  promoted counts <= promoted c /\ demoted counts <= demoted c /\
                  unchanged counts <= unchanged c /\
                  clock w' = clock w /\ (ticks w <= ticks w')%nat /\
                  map fst (factsOf t u w') = map fst (factsOf t u w) /\
                  (forall e, In e (factsOf t u w) ->
                             (forall h, In h (f :: rest) -> id h <> fst e) ->
                             In e (factsOf t u w')) /\
                  (forall h, In h (f :: rest) ->
                     exists g n,
                       In (id h, g) (factsOf t u w') /\ (ticks w <= n < ticks w')%nat /\
                       default ShortTerm (memoryStage g)
                       = Consolidation.determineStage cfg h (clock w n) /\
                       sameButStage h g) /\
                  sameFactsBut t u w w').
      { intros counts' Hs' G1 G2 G3.
        destruct (IH w2 counts' Hp2)
          as (c & w' & Hloop & Hsum & H1 & H2 & H3 & Hc & Ht & Hkeys & Hkeep & Hdone & Hbut).
        exists c, w'. split; [exact Hloop |].
        split; [cbn [List.length]; lia |]. split; [lia |]. split; [lia |]. split; [lia |].
        split; [congruence |]. split; [lia |].
        split; [rewrite Hkeys, Hput, Hf1; apply set_keys, Hk |].
        split; [| split].
        - intros e He Hne. apply Hkeep.
          + rewrite Hput. apply set_other; [rewrite Hf1; exact He |].
            intros E. apply (Hne f); [left; reflexivity | congruence].
          + intros h Hh. apply Hne. right. exact Hh.
        - intros h [<- | Hh].
          + exists updated, (ticks w). split; [| split; [lia | split]].
            * apply Hkeep.
              -- rewrite Hput. apply set_In. rewrite Hf1. exact Hk.
              -- intros h Hh. cbn [fst]. apply Hfresh, Hh.
            * reflexivity.
            * unfold sameButStage, updated. destruct f. reflexivity.
          + destruct (Hdone h Hh) as (g & n & Hg & Hn & Hst & Hsame).
            exists g, n. split; [exact Hg |]. split; [lia |].
            split; [rewrite <- Hc1, <- Hc2; exact Hst | exact Hsame].
        - intros t' u' Hne. rewrite (Hbut t' u' Hne), (Hbut2 t' u' Hne). apply Hf1. }
      destruct (stageOrder (default ShortTerm (memoryStage f)) <? stageOrder target);
        apply Hnext; cbn [promoted demoted unchanged]; lia.
Qed.

End ConsolidateRuns.

(** X24: [consolidate] brings every valid fact to the stage of its age
    and use.  Over the in-memory adapter, on a store whose keys are the
    identifiers of its facts, the call returns; promoted, demoted and
    unchanged facts add up to the number of valid facts; the keys of
    the store are as before and invalid facts are untouched; every
    valid fact is stored under its key with the stage that
    [determineStage] gives for it at a reading of the clock taken
    during the call, and differs from the fact before at most in its
    stage and its time of update; no other user and no other store is
    touched. *)
Theorem X24_consolidate_stages t u cfg w :
  wellKeyed (factsOf t u w) ->
  exists counts w',
    consolidate (adapter t) newDate cfg u w = (Ok counts, w') /\
    promoted counts + demoted counts + unchanged counts
    = Z.of_nat (List.length (List.filter isValid (JsMap.values (factsOf t u w)))) /\
    (0 <= promoted counts /\ 0 <= demoted counts /\ 0 <= unchanged counts) /\
    map fst (factsOf t u w') = map fst (factsOf t u w) /\
    (forall e, In e (factsOf t u w) -> isValid (snd e) = false ->
               In e (factsOf t u w')) /\
    (forall e, In e (factsOf t u w) -> isValid (snd e) = true ->
       exists g n,
         In (fst e, g) (factsOf t u w') /\ (ticks w <= n < ticks w')%nat /\
         default ShortTerm (memoryStage g)
         = Consolidation.determineStage cfg (snd e) (clock w n) /\
         sameButStage (snd e) g) /\
    sameFactsBut t u w w'.
Proof.
  intros Hwk. unfold consolidate.
  destruct (getFacts_run t u (Some (validOnlyFilter true)) w)
    as (w0 & Hget & (Hc0 & Ht0 & _ & _) & Hf).
  unfold bind at 1. cbn [Adapter.getFacts adapter]. rewrite Hget.
  change (applyFilter (Some (validOnlyFilter true)) ?l) with (List.filter isValid l).
  destruct (consolidateLoop_run t u cfg
              (List.filter isValid (JsMap.values (factsOf t u w))) w0 (mkCounts 0 0 0))
    as (c & w' & Hloop & Hsum & H1 & H2 & H3 & Hc & Ht & Hkeys & Hkeep & Hdone & Hbut).
  { rewrite (Hf t u). apply snapshot_pending, Hwk. }
  cbn [promoted demoted unchanged] in Hsum, H1, H2, H3.
  rewrite (Hf t u) in Hkeys, Hkeep.
  exists c, w'. split; [exact Hloop |]. split; [lia |]. split; [lia |].
  split; [exact Hkeys |]. split; [| split].
  - intros e He Hv. apply Hkeep; [exact He |].
    intros f Hf' E. apply filter_In in Hf'. destruct Hf' as (Hin & Hvf).
    pose proof (wellKeyed_value _ _ Hwk Hin) as Hentry.
    assert (e = (id f, f)).
    { apply (same_key_same_entry (factsOf t u w)); [apply Hwk | exact He | exact Hentry |].
      cbn [fst]. congruence. }
    subst e. cbn [snd] in Hv. congruence.
  - intros e He Hv.
    destruct Hwk as (Hnd & Hid). rewrite List.Forall_forall in Hid.
    pose proof (Hid e He) as Hide.
    destruct (Hdone (snd e)) as (g & n & Hg & Hn & Hst & Hsame).
    { apply filter_In. split; [exact (List.in_map snd _ _ He) | exact Hv]. }
    exists g, n. rewrite Hide. split; [exact Hg |]. split; [lia |].
    split; [rewrite <- Hc0; exact Hst | exact Hsame].
  - intros t' u' Hne. rewrite (Hbut t' u' Hne). apply Hf.
Qed.

Lemma X24_consolidate_stages_witness :
  exists counts w',
    consolidate (adapter Cold) newDate Consolidation.defaultConfig "user1" twoFacts
    = (Ok counts, w') /\
    promoted counts + demoted counts + unchanged counts
    = Z.of_nat (List.length (List.filter isValid
                               (JsMap.values (factsOf Cold "user1" twoFacts)))) /\
    (0 <= promoted counts /\ 0 <= demoted counts /\ 0 <= unchanged counts) /\
    map fst (factsOf Cold "user1" w') = map fst (factsOf Cold "user1" twoFacts) /\
    (forall e, In e (factsOf Cold "user1" twoFacts) -> isValid (snd e) = false ->
               In e (factsOf Cold "user1" w')) /\
    (forall e, In e (factsOf Cold "user1" twoFacts) -> isValid (snd e) = true ->
       exists g n,
         In (fst e, g) (factsOf Cold "user1" w') /\
         (ticks twoFacts <= n < ticks w')%nat /\
         default ShortTerm (memoryStage g)
         = Consolidation.determineStage Consolidation.defaultConfig (snd e)
             (clock twoFacts n) /\
         sameButStage (snd e) g) /\
    sameFactsBut Cold "user1" twoFacts w'.
Proof.
  apply (X24_consolidate_stages Cold "user1" Consolidation.defaultConfig twoFacts).
  exact twoFacts_wellKeyed.
Defined.

End WorkerFacts.

(** ** Tiered adapter: reads that fall back, writes that do not reach the hot copy *)

Section TieredReads.
Context {W : Type}.
Variable hot cold : Adapter.BaseAdapter W.
Variable config : Tiered.Config.
Variable userId : string.

Lemma promoteFactsToHot_total facts : forall s,
  exists s', Tiered.promoteFactsToHot hot userId facts s = (Ok tt, s') /\
             Tiered.initialized s' = Tiered.initialized s.
Proof.
  unfold Tiered.promoteFactsToHot.
  induction facts as [| f rest IH]; intros s.
  - exists s. split; reflexivity.
  - cbn [forEach]. unfold bind at 1.
    unfold Tiered.swallow, try_catch, bind, Tiered.call, ret.
    destruct (Adapter.upsertFact hot userId (asInput f) (Tiered.world s)) as [[g | e] w1];
      destruct (IH (Tiered.mkState (Tiered.initialized s) w1)) as (s' & H & Hi);
      exists s'; (split; [exact H | exact Hi]).
Qed.

(** X25: a read served by the cold adapter does not fail for the hot
    adapter's sake.  When the hot adapter answers [getFacts] with no
    fact and the cold adapter answers with some, the tiered [getFacts]
    returns the cold adapter's facts, whatever happens to the
    promotions: a hot write that throws is ignored. *)
Theorem X25_tiered_getFacts_cold_fallback filter w w1 facts w2 :
  Adapter.getFacts hot userId filter w = (Ok [], w1) ->
  Adapter.getFacts cold userId filter w1 = (Ok facts, w2) ->
  exists s',
    Tiered.getFacts hot cold config userId filter (Tiered.mkState true w)
    = (Ok facts, s') /\
    Tiered.initialized s' = true.
Proof.
  intros Hhot Hcold. unfold Tiered.getFacts, Tiered.ensureInitialized.
  unfold bind at 1. cbn [Tiered.initialized].
  unfold bind at 1, Tiered.call at 1. cbn [Tiered.world]. rewrite Hhot.
  unfold bind at 1, Tiered.call at 1. cbn [Tiered.world]. rewrite Hcold.
  destruct (Tiered.autoPromote config && negb (Nat.eqb (List.length facts) 0)).
  - destruct (promoteFactsToHot_total
                (JsArray.slice0 (Tiered.hotFactLimit config) facts)
                (Tiered.mkState true w2)) as (s' & H & Hi).
    unfold bind. cbn [Tiered.initialized]. rewrite H. exists s'. split; [reflexivity | exact Hi].
  - eexists. split; reflexivity.
Qed.

End TieredReads.

Lemma X25_tiered_getFacts_cold_fallback_witness :
  exists s',
    Tiered.getFacts TieredMoreDefs.readOnly (InMemory.adapter InMemory.Cold)
      TieredDefs.testConfig "user1" None (Tiered.mkState true ResolverDefs.nycWorld)
    = (Ok [ResolverDefs.nycFact], s') /\
    Tiered.initialized s' = true.
Proof.
  apply (X25_tiered_getFacts_cold_fallback TieredMoreDefs.readOnly
           (InMemory.adapter InMemory.Cold) TieredDefs.testConfig "user1" None
           ResolverDefs.nycWorld ResolverDefs.nycWorld [ResolverDefs.nycFact]
           ResolverDefs.nycWorld).
  - reflexivity.
  - vm_compute. reflexivity.
Defined.

Section TieredStale.
Import InMemory TieredDefs StoreDefs TieredMoreDefs.

Local Abbreviation hot := (InMemory.adapter Hot).
Local Abbreviation cold := (InMemory.adapter Cold).

Variable config : Tiered.Config.
Variable userId : string.

Lemma set_member {V} k (v : V) (m : JsMap.t V) : In (k, v) (JsMap.set k v m).
Proof.
  unfold JsMap.set. destruct (JsMap.has k m) eqn:E.
  - rewrite has_keyIn in E. apply keyIn_In in E. apply in_map_iff in E.
    destruct E as (e & Hk & He). apply in_map_iff. exists e. split; [| exact He].
    rewrite Hk, String.eqb_refl. reflexivity.
  - apply in_or_app. right. left. reflexivity.
Qed.

Lemma set_entries {V} k (v : V) (m : JsMap.t V) e :
  In e (JsMap.set k v m) -> (In e m /\ fst e <> k) \/ e = (k, v).
Proof.
  unfold JsMap.set. destruct (JsMap.has k m) eqn:E.
  - intros H. apply in_map_iff in H. destruct H as (e0 & <- & He0).
    destruct (String.eqb_spec (fst e0) k) as [Hk | Hk]; [right; reflexivity | left; auto].
  - intros H. apply in_app_or in H. destruct H as [H | [<- | []]]; [| right; reflexivity].
    left. split; [exact H |]. intros Hk.
    rewrite has_keyIn in E. apply keyIn_false in E. apply E. rewrite <- Hk.
    apply in_map, H.
Qed.

Lemma get_set_same {V} k (v : V) (m : JsMap.t V) :
  JsMap.get k (JsMap.set k v m) = Some v.
Proof.
  unfold JsMap.get.
  destruct (List.find (fun e => String.eqb (fst e) k) (JsMap.set k v m)) as [e |] eqn:E.
  - apply find_some in E. destruct E as (He & Hk). apply String.eqb_eq in Hk.
    apply set_entries in He. destruct He as [(_ & Hne) | ->]; [congruence | reflexivity].
  - exfalso. pose proof (find_none _ _ E _ (set_member k v m)) as H.
    cbn [fst] in H. rewrite String.eqb_refl in H. discriminate.
Qed.

Lemma set_length {V} k (v : V) (m : JsMap.t V) :
  (List.length (JsMap.set k v m) <= S (List.length m))%nat.
Proof.
  unfold JsMap.set. destruct (JsMap.has k m).
  - rewrite List.length_map. lia.
  - rewrite List.length_app. cbn [List.length]. lia.
Qed.

Lemma demoted_under_limit limit (m : JsMap.t MemoryFact) :
  Z.of_nat (List.length m) <= limit -> demoted limit m = m.
Proof.
  intros Hl. unfold demoted, evicted. cbv zeta.
  pose proof (filter_length_le isValid (JsMap.values m)) as Hf.
  rewrite values_length in Hf.
  assert (E : (limit <? Z.of_nat (List.length (List.filter isValid (JsMap.values m))))
              = false) by (apply Z.ltb_ge; lia).
  rewrite E. reflexivity.
Qed.

(** The state after a fact that matches no valid stored fact is written
    through the tiered adapter with room left in the hot store: the
    cold store holds the fact under its identifier, the hot store holds
    a copy under another one. *)
Lemma tiered_fresh_write fact s :
  let w := Tiered.world s in
  Tiered.autoDemote config = true ->
  Z.of_nat (List.length (factsOf Hot userId w)) < Tiered.hotFactLimit config ->
  List.find (matches fact) (JsMap.values (factsOf Cold userId w)) = None ->
  List.find (matches fact) (JsMap.values (factsOf Hot userId w)) = None ->
  in_invalidatedAt fact = None ->
  ~ In (uuids w (draws w)) (uuids w (S (draws w)) :: map fst (factsOf Hot userId w)) ->
  let saved := freshFact fact (uuids w (draws w)) (clock w (ticks w)) in
  let copy := freshFact (asInput saved) (uuids w (S (draws w))) (clock w (S (ticks w))) in
  exists s1,
    Tiered.upsertFact hot cold config userId fact s = (Ok saved, s1) /\
    factsOf Cold userId (Tiered.world s1)
    = JsMap.set (id saved) saved (factsOf Cold userId w) /\
    JsMap.get (id saved) (factsOf Cold userId (Tiered.world s1)) = Some saved /\
    JsMap.get (id saved) (factsOf Hot userId (Tiered.world s1)) = None /\
    In copy (JsMap.values (factsOf Hot userId (Tiered.world s1))).
Proof.
  intros w Hauto Hroom Hcold Hhot Hvalid Hids saved copy.
  destruct (tiered_upsertFact_fresh config userId fact s Hauto Hcold Hhot)
    as (s1 & Hrun & _ & _ & _ & _ & Hc & Hh).
  fold w in Hc, Hh. fold saved in Hrun, Hc, Hh. fold copy in Hh.
  rewrite demoted_under_limit in Hh
    by (pose proof (set_length (id copy) copy (factsOf Hot userId w)); lia).
  exists s1. split; [exact Hrun |]. split; [exact Hc |]. split; [| split].
  - rewrite Hc. apply get_set_same.
  - rewrite Hh. apply get_fresh. intros Hin. apply in_map_iff in Hin.
    destruct Hin as (e & Hk & He). apply set_entries in He.
    destruct He as [(He & _) | ->].
    + apply Hids. right. change (id saved) with (uuids w (draws w)) in Hk.
      rewrite <- Hk. apply in_map, He.
    + apply Hids. left. cbn in Hk. exact Hk.
  - rewrite Hh. apply in_map_iff. exists (id copy, copy).
    split; [reflexivity | apply set_member].
Qed.

Lemma tiered_getFacts_hot_hit filter s :
  applyFilter filter (JsMap.values (factsOf Hot userId (Tiered.world s))) <> [] ->
  exists s',
    Tiered.getFacts hot cold config userId filter s
    = (Ok (applyFilter filter (JsMap.values (factsOf Hot userId (Tiered.world s)))), s') /\
    sameFacts (Tiered.world s) (Tiered.world s').
Proof.
  intros Hne.
  destruct (tiered_ensureInitialized_run s) as (s0 & H0 & _ & Hf0).
  destruct (getFacts_run Hot userId filter (Tiered.world s0)) as (w1 & H1 & _ & Hf1).
  exists (Tiered.mkState (Tiered.initialized s0) w1).
  unfold Tiered.getFacts. unfold bind at 1. rewrite H0.
  unfold bind at 1, Tiered.call at 1. cbn [Adapter.getFacts adapter]. rewrite H1.
  rewrite (Hf0 Hot userId).
  destruct (applyFilter filter _) as [| f l] eqn:E; [congruence |].
  split; [reflexivity |]. cbn [Tiered.world].
  eapply sameFacts_trans; eassumption.
Qed.

Lemma served fact (facts : JsMap.t MemoryFact) copy :
  In copy (JsMap.values facts) -> isValid copy = true ->
  subject copy = in_subject fact -> predicate copy = in_predicate fact ->
  object copy = in_object fact ->
  applyFilter (Some (validOnlyFilter true)) (JsMap.values facts) <> [] /\
  serves fact (applyFilter (Some (validOnlyFilter true)) (JsMap.values facts)).
Proof.
  intros Hin Hv Hs Hp Ho.
  change (applyFilter (Some (validOnlyFilter true)) ?l) with (List.filter isValid l).
  assert (H : In copy (List.filter isValid (JsMap.values facts)))
    by (apply filter_In; auto).
  split; [intros E; rewrite E in H; destruct H |].
  exists copy. auto.
Qed.

(** X26: over two in-memory adapters a deletion through the tiered
    adapter does not reach the hot copy.  The hot adapter stores its
    copy of a new fact under an identifier of its own, so
    [deleteFact] with the identifier returned by [upsertFact]
    invalidates the fact in the cold store only: after a fact that
    matches no valid stored fact is written (with room left in the hot
    store and distinct identifiers) and then deleted, the cold store
    holds no valid fact with its subject and predicate, and the tiered
    [getFacts] still serves it, as a valid fact, from the hot store. *)
Theorem X26_tiered_delete_still_served fact reason s :
  let w := Tiered.world s in
  Tiered.autoDemote config = true ->
  Z.of_nat (List.length (factsOf Hot userId w)) < Tiered.hotFactLimit config ->
  List.find (matches fact) (JsMap.values (factsOf Cold userId w)) = None ->
  List.find (matches fact) (JsMap.values (factsOf Hot userId w)) = None ->
  in_invalidatedAt fact = None ->
  ~ In (uuids w (draws w)) (uuids w (S (draws w)) :: map fst (factsOf Hot userId w)) ->
  exists saved s1 s2 facts s3,
    Tiered.upsertFact hot cold config userId fact s = (Ok saved, s1) /\
    Tiered.deleteFact hot cold userId (id saved) reason s1 = (Ok tt, s2) /\
    retired fact userId (Tiered.world s2) /\
    Tiered.getFacts hot cold config userId (Some (validOnlyFilter true)) s2
    = (Ok facts, s3) /\
    serves fact facts.
Proof.
  intros w Hauto Hroom Hcold Hhot Hvalid Hids.
  destruct (tiered_fresh_write fact s Hauto Hroom Hcold Hhot Hvalid Hids)
    as (s1 & Hrun & Hc1 & Hgetc & Hgeth & Hcopy).
  fold w in Hrun, Hc1.
  set (saved := freshFact fact (uuids w (draws w)) (clock w (ticks w))) in *.
  set (copy := freshFact (asInput saved) (uuids w (S (draws w))) (clock w (S (ticks w)))) in *.
  destruct (tiered_ensureInitialized_run s1) as (s1' & H0 & _ & Hf0).
  destruct (deleteFact_found_run Cold userId (id saved) reason (Tiered.world s1') saved)
    as (w2 & Hdel & _ & _ & _ & _ & Hput & Hbut);
    [rewrite (Hf0 Cold userId); exact Hgetc |].
  destruct (deleteFact_missing_run Hot userId (id saved) reason w2)
    as (w3 & Hdelh & _ & Hf3).
  { rewrite (Hbut Hot userId) by (left; discriminate).
    rewrite (Hf0 Hot userId). exact Hgeth. }
  set (s2 := Tiered.mkState (Tiered.initialized s1') w3).
  assert (Hhot2 : factsOf Hot userId (Tiered.world s2)
                  = factsOf Hot userId (Tiered.world s1)).
  { cbn [Tiered.world s2]. rewrite (Hf3 Hot userId).
    rewrite (Hbut Hot userId) by (left; discriminate). apply Hf0. }
  destruct (served fact (factsOf Hot userId (Tiered.world s2)) copy)
    as (Hne & Hserves);
    [rewrite Hhot2; exact Hcopy | unfold isValid; cbn; rewrite Hvalid; reflexivity
    | reflexivity ..|].
  destruct (tiered_getFacts_hot_hit (Some (validOnlyFilter true)) s2 Hne)
    as (s3 & Hread & _).
  eexists saved, s1, s2, _, s3.
  split; [exact Hrun |]. split; [| split; [| split; [exact Hread | exact Hserves]]].
  - unfold Tiered.deleteFact. unfold bind at 1. rewrite H0.
    unfold bind, all2, Tiered.swallow, try_catch, bind, Tiered.call, ret.
    cbn [Adapter.deleteFact adapter Tiered.world Tiered.initialized].
    rewrite Hdel. cbn [Tiered.world Tiered.initialized]. rewrite Hdelh. reflexivity.
  - intros g Hg Hkey. apply filter_In in Hg. destruct Hg as (Hg & Hv).
    apply in_map_iff in Hg. destruct Hg as (e & <- & He).
    cbn [Tiered.world s2] in He. rewrite (Hf3 Cold userId), Hput in He.
    rewrite (Hf0 Cold userId), Hc1 in He.
    apply set_entries in He. destruct He as [(He & Hk) | ->]; [| discriminate Hv].
    apply set_entries in He. destruct He as [(He & _) | ->]; [| apply Hk; reflexivity].
    pose proof (find_none _ _ Hcold (snd e) (List.in_map snd _ _ He)) as Hm.
    assert (matches fact (snd e) = true) by (apply matches_key; auto). congruence.
Qed.

(** X27: over two in-memory adapters an update through the tiered
    adapter does not reach the hot copy.  After a fact that matches no
    valid stored fact is written (with room left in the hot store and
    distinct identifiers), [updateFact] with the identifier returned
    updates the cold store and returns the updated fact, the hot
    adapter has no fact under that identifier (its error is ignored),
    and the tiered [getFacts] still serves the fact with the object
    first written. *)
Theorem X27_tiered_update_stale fact updates s :
  let w := Tiered.world s in
  Tiered.autoDemote config = true ->
  Z.of_nat (List.length (factsOf Hot userId w)) < Tiered.hotFactLimit config ->
  List.find (matches fact) (JsMap.values (factsOf Cold userId w)) = None ->
  List.find (matches fact) (JsMap.values (factsOf Hot userId w)) = None ->
  in_invalidatedAt fact = None ->
  ~ In (uuids w (draws w)) (uuids w (S (draws w)) :: map fst (factsOf Hot userId w)) ->
  exists saved s1 updated s2 facts s3,
    Tiered.upsertFact hot cold config userId fact s = (Ok saved, s1) /\
    Tiered.updateFact hot cold userId (id saved) updates s1 = (Ok updated, s2) /\
    object updated = default (in_object fact) (u_object updates) /\
    JsMap.get (id saved) (factsOf Cold userId (Tiered.world s2)) = Some updated /\
    Tiered.getFacts hot cold config userId (Some (validOnlyFilter true)) s2
    = (Ok facts, s3) /\
    serves fact facts.
Proof.
  intros w Hauto Hroom Hcold Hhot Hvalid Hids.
  destruct (tiered_fresh_write fact s Hauto Hroom Hcold Hhot Hvalid Hids)
    as (s1 & Hrun & Hc1 & Hgetc & Hgeth & Hcopy).
  fold w in Hrun, Hc1.
  set (saved := freshFact fact (uuids w (draws w)) (clock w (ticks w))) in *.
  set (copy := freshFact (asInput saved) (uuids w (S (draws w))) (clock w (S (ticks w)))) in *.
  destruct (tiered_ensureInitialized_run s1) as (s1' & H0 & _ & Hf0).
  destruct (updateFact_found_run Cold userId (id saved) updates (Tiered.world s1') saved)
    as (w2 & Hupd & _ & _ & _ & _ & Hput & Hbut);
    [rewrite (Hf0 Cold userId); exact Hgetc |].
  cbv zeta in Hupd, Hput.
  set (updated := spreadUpdate saved updates
                    (clock (Tiered.world s1') (ticks (Tiered.world s1')))) in *.
  destruct (updateFact_missing_run Hot userId (id saved) updates w2)
    as (w3 & Hupdh & _ & Hf3).
  { rewrite (Hbut Hot userId) by (left; discriminate).
    rewrite (Hf0 Hot userId). exact Hgeth. }
  set (s2 := Tiered.mkState (Tiered.initialized s1') w3).
  assert (Hhot2 : factsOf Hot userId (Tiered.world s2)
                  = factsOf Hot userId (Tiered.world s1)).
  { cbn [Tiered.world s2]. rewrite (Hf3 Hot userId).
    rewrite (Hbut Hot userId) by (left; discriminate). apply Hf0. }
  destruct (served fact (factsOf Hot userId (Tiered.world s2)) copy)
    as (Hne & Hserves);
    [rewrite Hhot2; exact Hcopy | unfold isValid; cbn; rewrite Hvalid; reflexivity
    | reflexivity ..|].
  destruct (tiered_getFacts_hot_hit (Some (validOnlyFilter true)) s2 Hne)
    as (s3 & Hread & _).
  eexists saved, s1, updated, s2, _, s3.
  split; [exact Hrun |].
  split; [| split; [reflexivity | split; [| split; [exact Hread | exact Hserves]]]].
  - unfold Tiered.updateFact. unfold bind at 1. rewrite H0.
    unfold bind, Tiered.swallow, try_catch, bind, Tiered.call, ret.
    cbn [Adapter.updateFact adapter Tiered.world Tiered.initialized].
    rewrite Hupd. cbn [Tiered.world Tiered.initialized]. rewrite Hupdh. reflexivity.
  - cbn [Tiered.world s2]. rewrite (Hf3 Cold userId), Hput. apply get_set_same.
Qed.

End TieredStale.

Lemma X26_tiered_delete_still_served_witness :
  exists saved s1 s2 facts s3,
    Tiered.upsertFact (InMemory.adapter InMemory.Hot) (InMemory.adapter InMemory.Cold)
      TieredDefs.testConfig "user1" TieredDefs.nameInput
      (Tiered.mkState false ResolverDefs.freshWorld) = (Ok saved, s1) /\
    Tiered.deleteFact (InMemory.adapter InMemory.Hot) (InMemory.adapter InMemory.Cold)
      "user1" (id saved) None s1 = (Ok tt, s2) /\
    TieredMoreDefs.retired TieredDefs.nameInput "user1" (Tiered.world s2) /\
    Tiered.getFacts (InMemory.adapter InMemory.Hot) (InMemory.adapter InMemory.Cold)
      TieredDefs.testConfig "user1" (Some (validOnlyFilter true)) s2 = (Ok facts, s3) /\
    TieredMoreDefs.serves TieredDefs.nameInput facts.
Proof.
  apply (X26_tiered_delete_still_served TieredDefs.testConfig "user1"
           TieredDefs.nameInput None (Tiered.mkState false ResolverDefs.freshWorld)).
  - reflexivity.
  - vm_compute. reflexivity.
  - reflexivity.
  - reflexivity.
  - reflexivity.
  - vm_compute. intros [H | []]. discriminate.
Defined.

Lemma X27_tiered_update_stale_witness :
  exists saved s1 updated s2 facts s3,
    Tiered.upsertFact (InMemory.adapter InMemory.Hot) (InMemory.adapter InMemory.Cold)
      TieredDefs.testConfig "user1" TieredDefs.nameInput
      (Tiered.mkState false ResolverDefs.freshWorld) = (Ok saved, s1) /\
    Tiered.updateFact (InMemory.adapter InMemory.Hot) (InMemory.adapter InMemory.Cold)
      "user1" (id saved) (TieredMoreDefs.objectUpdate "Johnny") s1 = (Ok updated, s2) /\
    object updated = "Johnny" /\
    JsMap.get (id saved) (TieredDefs.factsOf InMemory.Cold "user1" (Tiered.world s2))
    = Some updated /\
    Tiered.getFacts (InMemory.adapter InMemory.Hot) (InMemory.adapter InMemory.Cold)
      TieredDefs.testConfig "user1" (Some (validOnlyFilter true)) s2 = (Ok facts, s3) /\
    TieredMoreDefs.serves TieredDefs.nameInput facts.
Proof.
  apply (X27_tiered_update_stale TieredDefs.testConfig "user1"
           TieredDefs.nameInput (TieredMoreDefs.objectUpdate "Johnny")
           (Tiered.mkState false ResolverDefs.freshWorld)).
  - reflexivity.
  - vm_compute. reflexivity.
  - reflexivity.
  - reflexivity.
  - reflexivity.
  - vm_compute. intros [H | []]. discriminate.
Defined.

(** ** Budget manager *)

Section BudgetFacts.
Import BudgetManager BudgetDefs.

Lemma getUserState_same_day date u b state :
  b !! u = Some state -> lastResetDate state = getToday date ->
  getUserState date u b = (state, b).
Proof.
  intros Hb Hd. unfold getUserState. cbv zeta. rewrite Hb, Hd, String.eqb_refl.
  reflexivity.
Qed.

Lemma getUserState_new_day date u b :
  match b !! u with
  | Some state => lastResetDate state <> getToday date
  | None => True
  end ->
  getUserState date u b
  = (mkState 0 0 0 (getToday date), <[u := mkState 0 0 0 (getToday date)]> b).
Proof.
  unfold getUserState. cbv zeta. destruct (b !! u) as [state |]; [| reflexivity].
  intros Hd. apply String.eqb_neq in Hd. rewrite Hd. reflexivity.
Qed.

Lemma recordExtraction_lookup date now u b :
  exists state,
    recordExtraction date now u b !! u = Some state /\
    lastResetDate state = getToday date /\
    lastExtractionTime state = now /\
    extractionsToday state
    = (match b !! u with
       | Some old => if String.eqb (lastResetDate old) (getToday date)
                     then extractionsToday old else 0
       | None => 0
       end) + 1.
Proof.
  unfold recordExtraction, getUserState. cbv zeta.
  destruct (b !! u) as [old |] eqn:Hb.
  - destruct (String.eqb (lastResetDate old) (getToday date)) eqn:E; cbn [negb];
      cbv beta iota.
    + apply String.eqb_eq in E. eexists. rewrite lookup_insert_eq.
      split; [reflexivity |]. cbn. auto.
    + eexists. rewrite lookup_insert_eq. split; [reflexivity |]. cbn. auto.
  - cbv beta iota. eexists. rewrite lookup_insert_eq. split; [reflexivity |]. cbn. auto.
Qed.

(** X28: the cooldown is enforced.  After an extraction is recorded, a
    check made on the same calendar day less than
    [extractionCooldownMs] after the recorded time is refused, whatever
    the counters were before. *)
Theorem X28_canExtract_cooldown cfg date now date' now' u b :
  getToday date' = getToday date ->
  now' - now < extractionCooldownMs cfg ->
  allowed (fst (canExtract cfg date' now' u (recordExtraction date now u b))) = false.
Proof.
  intros Hday Hsoon.
  destruct (recordExtraction_lookup date now u b) as (state & Hb & Hd & Hlast & _).
  unfold canExtract.
  rewrite (getUserState_same_day date' u _ state Hb) by congruence.
  destruct (maxExtractionsPerUserPerDay cfg <=? extractionsToday state); [reflexivity |].
  cbv zeta. rewrite Hlast.
  apply Z.ltb_lt in Hsoon. rewrite Hsoon. reflexivity.
Qed.

Lemma X28_canExtract_cooldown_witness :
  allowed (fst (canExtract testConfig (day1 + 50) (day1 + 50) "user1"
                  (recordExtraction day1 day1 "user1" ∅))) = false.
Proof.
  apply (X28_canExtract_cooldown testConfig day1 day1 (day1 + 50) (day1 + 50) "user1" ∅).
  - vm_compute. reflexivity.
  - vm_compute. reflexivity.
Defined.

Lemma recordAll_counted day u times : forall b state,
  b !! u = Some state -> lastResetDate state = day ->
  Forall (fun t => getToday (fst t) = day) times ->
  exists state',
    recordAll times u b !! u = Some state' /\ lastResetDate state' = day /\
    extractionsToday state' = extractionsToday state + Z.of_nat (List.length times).
Proof.
  induction times as [| [d n] times IH]; intros b state Hb Hday Hdays.
  - exists state. cbn. split; [exact Hb |]. split; [exact Hday | lia].
  - apply List.Forall_cons_iff in Hdays. destruct Hdays as (Hd & Hdays').
    cbn [fst] in Hd. cbn [recordAll fold_left fst snd].
    destruct (recordExtraction_lookup d n u b) as (st & Hst & Hday1 & _ & Hc).
    rewrite Hb, Hday, <- Hd, String.eqb_refl in Hc.
    destruct (IH _ st Hst) as (st' & H1 & H2 & H3); [congruence | exact Hdays' |].
    exists st'. split; [exact H1 |]. split; [exact H2 |].
    rewrite H3, Hc. cbn [List.length]. lia.
Qed.

(** X29: the daily limit is enforced.  Once at least
    [maxExtractionsPerUserPerDay] extractions were recorded for a user
    on one calendar day (at least one; a counter kept from earlier that
    day was not negative, and a state kept from another day is reset by
    the first recording), every check made that day is refused with the
    reason "Daily extraction limit reached (<limit>)", however long the
    last extraction lies back. *)
Theorem X29_canExtract_daily_limit cfg times date now u b :
  Forall (fun t => getToday (fst t) = getToday date) times ->
  match b !! u with
  | Some state => lastResetDate state = getToday date -> 0 <= extractionsToday state
  | None => True
  end ->
  maxExtractionsPerUserPerDay cfg <= Z.of_nat (List.length times) ->
  times <> [] ->
  fst (canExtract cfg date now u (recordAll times u b))
  = mkVerdict false
      (Some ("Daily extraction limit reached ("
             ++ JsDate.showZ (maxExtractionsPerUserPerDay cfg) ++ ")")%string).
Proof.
  intros Hdays Hb Hmax Hne.
  destruct times as [| [d n] times]; [congruence |].
  apply List.Forall_cons_iff in Hdays. destruct Hdays as (Hd & Hdays'). cbn [fst] in Hd.
  destruct (recordExtraction_lookup d n u b) as (st & Hst & Hday1 & _ & Hc).
  destruct (recordAll_counted (getToday date) u times _ st Hst) as (state & Hs & Hday & Hcount);
    [congruence | exact Hdays' |].
  assert (Hpos : 1 <= extractionsToday st).
  { rewrite Hc. destruct (b !! u) as [old |]; [| lia].
    destruct (String.eqb _ _) eqn:E; [| lia].
    apply String.eqb_eq in E. rewrite Hd in E. specialize (Hb E). lia. }
  unfold recordAll. cbn [fold_left fst snd]. fold (recordAll times u (recordExtraction d n u b)).
  unfold canExtract. rewrite (getUserState_same_day date u _ state Hs Hday).
  cbn [List.length] in Hmax.
  assert (H : (maxExtractionsPerUserPerDay cfg <=? extractionsToday state) = true)
    by (apply Z.leb_le; lia).
  rewrite H. reflexivity.
Qed.

Lemma X29_canExtract_daily_limit_witness :
  fst (canExtract testConfig (day2 + 5000) (day2 + 5000) "user1"
         (recordAll nextDayTimes "user1" (recordAll fiveTimes "user1" ∅)))
  = mkVerdict false (Some "Daily extraction limit reached (5)").
Proof.
  apply (X29_canExtract_daily_limit testConfig nextDayTimes (day2 + 5000) (day2 + 5000)
           "user1" (recordAll fiveTimes "user1" ∅)).
  - repeat constructor.
  - vm_compute. discriminate.
  - vm_compute. discriminate.
  - discriminate.
Defined.

(** X30: a new calendar day gives the budget back.  When the state
    kept for a user is of another day (UTC), the usage statistics read
    zero tokens and zero extractions with the whole budget remaining, a
    token request is allowed exactly when it fits the daily budget,
    and an extraction is allowed exactly when the limit is positive and
    the clock reads at least [extractionCooldownMs] (the time of the
    last extraction is set back to 0). *)
Theorem X30_budget_resets_on_new_day cfg date date' now u b state estimated :
  b !! u = Some state ->
  lastResetDate state <> getToday date ->
  getToday date' = getToday date ->
  fst (getUsageStats cfg date date' u b)
  = (0, 0, Z.max 0 (maxTokensPerUserPerDay cfg),
     Z.max 0 (maxExtractionsPerUserPerDay cfg)) /\
  allowed (fst (canUseTokens cfg date u estimated b))
  = (estimated <=? maxTokensPerUserPerDay cfg) /\
  allowed (fst (canExtract cfg date now u b))
  = ((0 <? maxExtractionsPerUserPerDay cfg) && (extractionCooldownMs cfg <=? now)).
Proof.
  intros Hb Hd Hsame.
  assert (Hreset : getUserState date u b
                   = (mkState 0 0 0 (getToday date),
                      <[u := mkState 0 0 0 (getToday date)]> b)).
  { apply getUserState_new_day. rewrite Hb. exact Hd. }
  split; [| split].
  - unfold getUsageStats, getRemainingBudget. rewrite Hreset.
    rewrite (getUserState_same_day date' u _ (mkState 0 0 0 (getToday date)));
      [| apply lookup_insert_eq | symmetry; exact Hsame].
    cbn [fst snd tokensUsedToday extractionsToday].
    rewrite !Z.sub_0_r. reflexivity.
  - unfold canUseTokens. rewrite Hreset. cbn [tokensUsedToday]. rewrite Z.add_0_l.
    rewrite Z.leb_antisym. destruct (_ <? _); reflexivity.
  - unfold canExtract. rewrite Hreset. cbn [extractionsToday lastExtractionTime].
    rewrite Z.sub_0_r.
    rewrite (Z.ltb_antisym (maxExtractionsPerUserPerDay cfg) 0).
    destruct (_ <=? 0); cbn [negb andb fst allowed]; [reflexivity |].
    rewrite (Z.leb_antisym now). destruct (now <? _); reflexivity.
Qed.

Lemma X30_budget_resets_on_new_day_witness :
  fst (getUsageStats testConfig day2 (day2 + 1) "user1" (recordAll fiveTimes "user1" ∅))
  = (0, 0, 1000, 5).
Proof.
  apply (X30_budget_resets_on_new_day testConfig day2 (day2 + 1) day2 "user1"
           (recordAll fiveTimes "user1" ∅)
           (mkState 0 5 (day1 + 800) "2026-11-03") 0).
  - vm_compute. reflexivity.
  - vm_compute. discriminate.
  - vm_compute. reflexivity.
Defined.

End BudgetFacts.
